(** * hoyt-bot: hedge decision engine, exchange client and action executor

    A shallow embedding of
      - [src/utils/calculations.ts]        (module [Calculations]),
      - [src/modules/hyperliquidClient.ts] (module [HyperliquidClient]),
      - [src/modules/hedgeController.ts]   (module [HedgeController]),
    followed by the properties checked against them.

    A TypeScript [number] is an IEEE-754 binary64 value; it is modelled by
    Rocq's primitive [float], whose operations are the same binary64
    operations (round to nearest, ties to even), so [NaN], the infinities,
    signed zeros and division by zero behave as they do in the program. *)

From Stdlib Require Import ZArith Floats Bool List String Ascii Lia.
From Stdlib Require Import DecimalString.
Import ListNotations.

Set Warnings "-inexact-float,-level-tolerance,-register-all".

Local Open Scope string_scope.

(* ===================================================================== *)
(** ** JavaScript numbers and the built-ins the program calls on them     *)
(* ===================================================================== *)

Module JsNumber.

Local Open Scope float_scope.

(** [a > b], [a >= b] of the source, written with the primitive [<?], [<=?]. *)
Definition gtb (a b : float) : bool := b <? a.
Definition geb (a b : float) : bool := b <=? a.

(** [a === b] on numbers: IEEE equality ([NaN] differs from itself,
    [+0 === -0]). *)
Definition strict_eq (a b : float) : bool := a =? b.

(** [isNaN(x)]. *)
Definition isNaN (x : float) : bool := negb (x =? x).

(** Truthiness of a number: [0], [-0] and [NaN] are falsy. *)
Definition truthy (x : float) : bool := negb (x =? 0) && negb (isNaN x).

(** *** Decimal digits *)

Definition digit_char (d : Z) : ascii := ascii_of_nat (48 + Z.to_nat d).
Arguments digit_char d : simpl never.

(** The decimal digits of [n], most significant first, put in front of
    [acc]; [fuel] bounds the number of digits. *)
Fixpoint digits_fuel (fuel : nat) (n : Z) (acc : string) : string :=
  match fuel with
  | O => acc
  | S fuel' =>
      let acc' := String (digit_char (n mod 10)) acc in
      if (n / 10 =? 0)%Z then acc' else digits_fuel fuel' (n / 10) acc'
  end.

(** The decimal digits of [n >= 0]; a number has no more decimal digits
    than binary ones. *)
Definition digits_of_Z (n : Z) : string :=
  digits_fuel (S (Z.to_nat (Z.log2 n))) n "".

Fixpoint zeros (k : nat) : string :=
  match k with
  | O => EmptyString
  | S k' => String "0" (zeros k')
  end.

(** Left-pad [s] with ["0"] up to length [k]. *)
Definition pad_left (k : nat) (s : string) : string :=
  zeros (k - String.length s) ++ s.

(** The exact value of a finite binary64 number is [m * 2^e].  [scaled m e
    p] is the integer [n] for which [n / p] is closest to [m * 2^e], the
    larger one on a tie (step 10.a of [Number.prototype.toFixed], with
    [p = 10^fractionDigits]). *)
Definition scaled (m : positive) (e : Z) (p : Z) : Z :=
  match e with
  | Zneg k => (2 * (Zpos m * p) + 2 ^ Zpos k) / 2 ^ (Zpos k + 1)
  | _ => Zpos m * p * 2 ^ e
  end.

(** [x.toFixed(f)]: ["NaN"] and the infinities print as such; otherwise,
    with [n] the integer nearest to [|x| * 10^f], the digits of [n] with a
    point before the last [f] of them (zeros added in front so that a digit
    remains before the point), and a ["-"] in front when [x < 0].  For
    [|x| >= 1e21] JavaScript prints [String(x)], which is in exponent
    notation; here the (integer) value is printed with all its digits
    instead.  Both strings denote the same number, so [parseFloat] reads the
    same value back from either. *)
Definition toFixed (x : float) (f : nat) : string :=
  match Prim2SF x with
  | S754_nan => "NaN"
  | S754_infinity s => if s then "-Infinity" else "Infinity"
  | S754_zero _ =>
      match f with O => "0" | _ => "0." ++ zeros f end
  | S754_finite s m e =>
      let sign := if s then "-" else "" in
      if 1e21 <=? abs x then sign ++ digits_of_Z (scaled m e 1)
      else
        let p := (10 ^ Z.of_nat f)%Z in
        let n := scaled m e p in
        match f with
        | O => sign ++ digits_of_Z n
        | _ =>
            sign ++ digits_of_Z (n / p) ++ "."
              ++ pad_left f (digits_of_Z (n mod p))
        end
  end.

(** *** [parseFloat] on strings *)

(** The white space [parseFloat] skips.  A character is a code unit below
    256 here; of JavaScript's white space and line terminators these are
    tab to carriage return (9 to 13), the space (32) and the no-break space
    (160). *)
Definition is_space (c : ascii) : bool :=
  let n := nat_of_ascii c in
  (n =? 32)%nat || ((9 <=? n)%nat && (n <=? 13)%nat) || (n =? 160)%nat.

Fixpoint trim_left (s : string) : string :=
  match s with
  | String c r => if is_space c then trim_left r else s
  | EmptyString => s
  end.

Definition digit_of (c : ascii) : option Z :=
  let n := nat_of_ascii c in
  if (48 <=? n)%nat && (n <=? 57)%nat then Some (Z.of_nat (n - 48)) else None.

(** Reads the longest run of decimal digits at the head of [s]:
    accumulated value, number of digits read, rest of the string. *)
Fixpoint read_digits (acc : Z) (cnt : nat) (s : string) : Z * nat * string :=
  match s with
  | String c r =>
      match digit_of c with
      | Some d => read_digits (10 * acc + d) (S cnt) r
      | None => (acc, cnt, s)
      end
  | EmptyString => (acc, cnt, s)
  end.

(** An optional sign at the head of [s]. *)
Definition read_sign (s : string) : bool * string :=
  match s with
  | String "-" r => (true, r)
  | String "+" r => (false, r)
  | _ => (false, s)
  end.

(** The exponent part [e[+-]ddd] at the head of [s]; [0] when there is no
    well-formed exponent part. *)
Definition read_exponent (s : string) : Z :=
  match s with
  | String c r =>
      if (Ascii.eqb c "e" || Ascii.eqb c "E")%bool then
        let '(neg, r1) := read_sign r in
        let '(v, cnt, _) := read_digits 0 0 r1 in
        match cnt with
        | O => 0%Z
        | _ => if neg then (- v)%Z else v
        end
      else 0%Z
  | EmptyString => 0%Z
  end.

(** The binary64 number nearest to [d * 10^e] (ties to even), for
    [d > 0]: an exact integer is rounded once; a quotient of two integers
    is rounded by the division of the floating-point specification, which
    takes mantissas of any size. *)
Definition nearest_decimal (d : positive) (e : Z) : spec_float :=
  match e with
  | Zneg k => SFdiv prec emax (S754_finite false d 0) (S754_finite false (10 ^ k)%positive 0)
  | _ => binary_normalize prec emax (Zpos d * 10 ^ e) 0 false
  end.

Definition decimal_value (neg : bool) (d : Z) (e : Z) : float :=
  match d with
  | Zpos p =>
      let v := SF2Prim (nearest_decimal p e) in
      if neg then - v else v
  | _ => if neg then PrimFloat.neg_zero else PrimFloat.zero
  end.

(** [parseFloat(s)] for a string: leading white space is skipped, the
    longest prefix that is a decimal literal is read, [NaN] when there is
    none. *)
Definition parseFloat (s : string) : float :=
  let '(neg, s1) := read_sign (trim_left s) in
  if String.prefix "Infinity" s1 then (if neg then neg_infinity else infinity)
  else
    let '(ip, ni, s2) := read_digits 0 0 s1 in
    let '(fp, nf, s3) :=
      match s2 with
      | String "." r => read_digits ip 0 r
      | _ => (ip, O, s2)
      end in
    match (ni + nf)%nat with
    | O => nan
    | _ => decimal_value neg fp (read_exponent s3 - Z.of_nat nf)
    end.

End JsNumber.

(* ===================================================================== *)
(** ** JavaScript values read from the venue, and errors                  *)
(* ===================================================================== *)

(** A parsed JSON document ([await response.json()]). *)
Inductive Json :=
| JNull
| JBool (b : bool)
| JNum (x : float)
| JStr (s : string)
| JArr (items : list Json)
| JObj (fields : list (string * Json)).

(** A value the program holds without having checked its shape (the
    source types them [any]): a JSON value, or [undefined] ([None]). *)
Definition JsValue := option Json.

(** A thrown [Error]: [error instanceof TypeError] and [error.message]. *)
Record JsError := {
  isTypeError : bool;
  message : string
}.

Definition mkError (msg : string) : JsError :=
  {| isTypeError := false; message := msg |}.

Definition mkTypeError (msg : string) : JsError :=
  {| isTypeError := true; message := msg |}.

(** A computation either returns or throws. *)
Inductive Outcome (A : Type) :=
| Returned (a : A)
| Thrown (e : JsError).
Arguments Returned {A} a.
Arguments Thrown {A} e.

Module JsValues.

(** Own property [k] of a parsed object; [JSON.parse] keeps the last of
    several equal keys. *)
Fixpoint lookup (k : string) (fields : list (string * Json)) : JsValue :=
  match fields with
  | [] => None
  | (k', v) :: rest =>
      match lookup k rest with
      | Some v' => Some v'
      | None => if String.eqb k k' then Some v else None
      end
  end.

(** [v.k] for the property names the program reads ([markets], [coin],
    [size], [status], ...): none of them is a property of a primitive or of
    an array, so only objects have them; reading a property of [null] or
    [undefined] throws a [TypeError]. *)
Definition get (v : JsValue) (k : string) : Outcome JsValue :=
  match v with
  | None =>
      Thrown (mkTypeError
        ("Cannot read properties of undefined (reading '" ++ k ++ "')"))
  | Some JNull =>
      Thrown (mkTypeError
        ("Cannot read properties of null (reading '" ++ k ++ "')"))
  | Some (JObj fields) => Returned (lookup k fields)
  | Some _ => Returned None
  end.

(** Truthiness ([!v], [v || d]). *)
Definition truthy (v : JsValue) : bool :=
  match v with
  | None | Some JNull => false
  | Some (JBool b) => b
  | Some (JNum x) => JsNumber.truthy x
  | Some (JStr s) => negb (String.eqb s "")
  | Some (JArr _) | Some (JObj _) => true
  end.

(** [v || d]. *)
Definition or_else (v : JsValue) (d : Json) : JsValue :=
  if truthy v then v else Some d.

(** [v === s] for a string [s]. *)
Definition strict_eq_string (v : JsValue) (s : string) : bool :=
  match v with
  | Some (JStr s') => String.eqb s' s
  | _ => false
  end.

(** [parseFloat(v)]: the argument is converted to a string first.
    [undefined], [null], booleans and objects give strings that start with
    no number; a number prints as a literal that reads back as itself
    ([-0] prints as ["0"]); an array prints as its items joined by commas,
    of which only the first item can be read. *)
Fixpoint parseFloat (v : Json) : float :=
  match v with
  | JNum x => if PrimFloat.eqb x 0 then PrimFloat.zero else x
  | JStr s => JsNumber.parseFloat s
  | JArr (x :: _) => parseFloat x
  | _ => PrimFloat.nan
  end.

Definition parseFloatValue (v : JsValue) : float :=
  match v with
  | Some j => parseFloat j
  | None => PrimFloat.nan
  end.

End JsValues.

(* ===================================================================== *)
(** ** Types ([src/types.ts])                                             *)
(* ===================================================================== *)

Record LPPosition := {
  liquidityAmount : Z;
  token0Amount : Z;
  token1Amount : Z;
  token0Address : string;
  token1Address : string;
  token0Symbol : string;
  token1Symbol : string;
  token0Decimals : float;
  token1Decimals : float;
  token0Exposure : float;   (* USD value of token0 *)
  token1Exposure : float;   (* USD value of token1 *)
  totalValueUSD : float
}.

Inductive PositionSide := LONG | SHORT.

(** [coin] is copied from the venue's row unchecked, so it is kept as the
    value it was read as. *)
Record HyperliquidPosition := {
  coin : JsValue;
  entryPrice : float;
  size : float;             (* size of position in USD *)
  side : PositionSide;
  leverage : float;
  marginUsd : float;
  markPrice : float;
  unrealizedPnl : float;
  liquidationPrice : float
}.

Inductive HedgingAction :=
| INCREASE_SHORT
| DECREASE_SHORT
| NO_ACTION
| CLOSE_POSITIONS.

(** The result of [determineHedgeAction]. *)
Record HedgeDecision := {
  action : HedgingAction;
  sizeChange : float
}.

Inductive OrderSide := BUY | SELL.
Inductive OrderType := LIMIT | MARKET.

Record HyperliquidOrder := {
  order_coin : string;
  order_side : OrderSide;
  order_size : float;
  order_price : option float;   (* null for market orders *)
  orderType : OrderType;
  reduceOnly : bool
}.

Inductive OrderStatus := success_status | error_status.

(** [id] and [error] are copied from the venue's answer unchecked. *)
Record HyperliquidOrderResponse := {
  status : OrderStatus;
  order : option HyperliquidOrder;
  order_id : JsValue;
  order_error : JsValue
}.

Record HyperliquidMarketData := {
  md_coin : string;
  price : float;
  fundingRate : float   (* current funding rate (daily) *)
}.

Record ExecutionResult := {
  success : bool;
  result_action : HedgingAction;
  details : option string;
  error : JsValue;
  timestamp : Z
}.

(** The entries of [config] these modules read ([src/config.ts]). *)
Record Config := {
  pendlePerpTicker : string;
  rebalanceThreshold : float;
  fundingTolerance : float;
  hyperliquidSigningKey : string;
  hyperliquidApiEndpoint : string
}.

(* ===================================================================== *)
(** ** [src/utils/calculations.ts]                                        *)
(* ===================================================================== *)

Module Calculations.

Import JsNumber.
Local Open Scope float_scope.

Definition calculateUsdValue (amount price : float) : float := amount * price.

Definition calculateRequiredHedgeSize (lpPosition : LPPosition) : float :=
  token0Exposure lpPosition.

Definition calculateDeviation (lpPendleExposure hedgeSize : float) : float :=
  if strict_eq hedgeSize 0 || (abs hedgeSize <? 0.000001) then
    if gtb lpPendleExposure 0 then 100 else 0
  else
    let deviation := abs (lpPendleExposure - hedgeSize) / hedgeSize * 100 in
    parseFloat (toFixed deviation 2).

(** [lpPosition] has type [LPPosition], so the test [!lpPosition] of the
    source is false; [hedgePosition] may be [null], and [!hedgePosition]
    holds exactly then. *)
Definition determineHedgeAction
    (lpPosition : LPPosition) (hedgePosition : option HyperliquidPosition)
    (rebalanceThreshold _pendlePrice : float) : HedgeDecision :=
  (* If no LP position, close any hedge positions *)
  if strict_eq (totalValueUSD lpPosition) 0 then
    {| action := CLOSE_POSITIONS;
       sizeChange := match hedgePosition with
                     | Some h => abs (size h)
                     | None => 0
                     end |}
  else
    let requiredHedgeSize := calculateRequiredHedgeSize lpPosition in
    (* If no hedge position yet, and we need one, increase short *)
    if match hedgePosition with None => true | Some _ => false end
       && gtb requiredHedgeSize 0
    then
      {| action := INCREASE_SHORT; sizeChange := requiredHedgeSize |}
    else
      (* If we have both positions, check for rebalance needs *)
      match hedgePosition with
      | Some h =>
          let currentHedgeSize := abs (size h) in
          let deviation :=
            abs (requiredHedgeSize - currentHedgeSize) / requiredHedgeSize in
          if gtb deviation rebalanceThreshold then
            if gtb requiredHedgeSize currentHedgeSize then
              {| action := INCREASE_SHORT;
                 sizeChange := requiredHedgeSize - currentHedgeSize |}
            else
              {| action := DECREASE_SHORT;
                 sizeChange := currentHedgeSize - requiredHedgeSize |}
          else
            (* Default: no action needed *)
            {| action := NO_ACTION; sizeChange := 0 |}
      | None =>
          {| action := NO_ACTION; sizeChange := 0 |}
      end.

Definition calculateTokenAmount (usdValue tokenPrice : float) : float :=
  usdValue / tokenPrice.

Definition isFundingRateAcceptable (fundingRate fundingTolerance : float) : bool :=
  abs fundingRate <=? fundingTolerance.

End Calculations.


(* ===================================================================== *)
(** ** [src/utils/configValidator.ts]: the trading parameters             *)
(* ===================================================================== *)

Module ConfigValidator.

Import JsNumber.
Local Open Scope float_scope.

(** [config.rebalanceThreshold > 0 && config.rebalanceThreshold < 1]. *)
Definition validRebalanceThreshold (config : Config) : bool :=
  gtb (rebalanceThreshold config) 0 && (rebalanceThreshold config <? 1).

(** [config.fundingTolerance > 0 && config.fundingTolerance < 1]; the bot
    refuses to start when this fails. *)
Definition validFundingTolerance (config : Config) : bool :=
  gtb (fundingTolerance config) 0 && (fundingTolerance config <? 1).

End ConfigValidator.

(* ===================================================================== *)
(** ** The world the client talks to                                      *)
(* ===================================================================== *)

Inductive Method := GET | POST.

(** [requestData] of [placeOrder]: [{ action: { type, coin, side, size,
    price, reduceOnly } }]. *)
Record OrderAction := {
  act_type : string;
  act_coin : string;
  act_side : OrderSide;
  act_size : string;
  act_price : option string;
  act_reduceOnly : bool
}.

Record RequestData := { req_action : OrderAction }.

(** One call of [fetch]: [body] is the data whose JSON text is sent. *)
Record Request := {
  url : string;
  method : Method;
  headers : list (string * string);
  body : option RequestData
}.

(** What [fetch] resolves to. *)
Record Response := {
  resp_ok : bool;
  resp_status : nat;
  resp_text : Outcome string;   (* await response.text() *)
  resp_json : Outcome Json      (* await response.json() *)
}.

Inductive Reply :=
| Rejects (e : JsError)         (* fetch() rejects: no connection, reset, ... *)
| Responds (r : Response).

(** What the process did to the outside, in order. *)
Inductive Event :=
| Fetched (r : Request)
| Slept (ms : Z).

Record World := {
  now : Z;                      (* Date.now() *)
  history : list Event
}.

(** The platform and the venue: built-ins whose results the program only
    passes on, and the venue's answer to a request, which may depend on all
    that happened before, with the time it takes in milliseconds. *)
Record Platform := {
  Number_toString : float -> string;
  JSON_stringify : RequestData -> string;
  hmac_sha256_hex : string -> string -> Outcome string;
  venue : list Event -> Request -> N * Reply
}.

(** Computations that read the clock, talk to the venue and may throw. *)
Definition M (A : Type) : Type := World -> Outcome A * World.

Module Effects.

Definition ret {A} (a : A) : M A := fun w => (Returned a, w).

Definition throw {A} (e : JsError) : M A := fun w => (Thrown e, w).

Definition bind {A B} (m : M A) (k : A -> M B) : M B :=
  fun w =>
    match m w with
    | (Returned a, w') => k a w'
    | (Thrown e, w') => (Thrown e, w')
    end.

(** [try { m } catch (error) { h error }]. *)
Definition tryCatch {A} (m : M A) (h : JsError -> M A) : M A :=
  fun w =>
    match m w with
    | (Returned a, w') => (Returned a, w')
    | (Thrown e, w') => h e w'
    end.

Definition lift {A} (o : Outcome A) : M A := fun w => (o, w).

(** [Date.now()]. *)
Definition dateNow : M Z := fun w => (Returned (now w), w).

(** [await new Promise(resolve => setTimeout(resolve, ms))]: the clock
    moves by the delay asked for, the least [setTimeout] waits. *)
Definition sleep (ms : Z) : M unit :=
  fun w => (Returned tt, {| now := now w + ms; history := (history w ++ [Slept ms])%list |}).

(** [mapM] over a list, left to right. *)
Fixpoint mapM {A B} (f : A -> M B) (l : list A) : M (list B) :=
  match l with
  | [] => ret []
  | x :: rest =>
      bind (f x) (fun y => bind (mapM f rest) (fun ys => ret (y :: ys)))
  end.

End Effects.

Declare Scope js_scope.
Delimit Scope js_scope with js.
Notation "x <- m ;; k" := (Effects.bind m (fun x => k))
  (at level 61, m at next level, right associativity) : js_scope.
Notation "m ;;; k" := (Effects.bind m (fun _ => k))
  (at level 61, right associativity) : js_scope.

Module JsString.

(** [s.includes(sub)]. *)
Fixpoint includes (s sub : string) : bool :=
  String.prefix sub s ||
  match s with
  | EmptyString => false
  | String _ r => includes r sub
  end.

Definition of_nat (n : nat) : string := NilZero.string_of_uint (Nat.to_uint n).

(** [n.toString()] for an integer [n]. *)
Definition of_Z (n : Z) : string := NilZero.string_of_int (Z.to_int n).

End JsString.

(* ===================================================================== *)
(** ** [src/modules/hyperliquidClient.ts]                                 *)
(* ===================================================================== *)

Module HyperliquidClient.

Import Effects JsString.
Local Open Scope js_scope.

Section Client.

Variable P : Platform.
Variable config : Config.

Definition apiEndpoint : string := hyperliquidApiEndpoint config.
Definition signingKey : string := hyperliquidSigningKey config.

(** [createHmac('sha256', key).update(data).digest('hex')]. *)
Definition signRequest (data : string) : M string :=
  lift (hmac_sha256_hex P signingKey data).

Definition generateNonce : M string :=
  t <- dateNow ;; ret (JsString.of_Z t).

(** [AbortSignal.timeout(30000)]: what [fetch] rejects with when the
    venue has not answered after 30 seconds. *)
Definition timeoutError : JsError :=
  mkError "The operation was aborted due to timeout".

(** [await fetch(url, { method, headers, body, signal })]. *)
Definition fetch (req : Request) : M Response :=
  fun w =>
    let '(elapsed, reply) := venue P (history w) req in
    let h := (history w ++ [Fetched req])%list in
    if (30000 <? Z.of_N elapsed)%Z then
      (Thrown timeoutError, {| now := now w + 30000; history := h |})
    else
      (match reply with
       | Rejects e => Thrown e
       | Responds r => Returned r
       end,
       {| now := now w + Z.of_N elapsed; history := h |}).

(** The [try] block of one attempt. *)
Definition attemptOnce (req : Request) : M Json :=
  response <- fetch req ;;
  if negb (resp_ok response) then
    errorText <- lift (resp_text response) ;;
    throw (mkError ("API error: " ++ JsString.of_nat (resp_status response)
                      ++ " - " ++ errorText))
  else
    responseData <- lift (resp_json response) ;;
    match responseData with
    | JNull => throw (mkError "API returned null or undefined response")
    | _ => ret responseData
    end.

Definition isNetworkError (error : JsError) : bool :=
  isTypeError error
  || includes (message error) "network"
  || includes (message error) "abort"
  || includes (message error) "timeout".

(** [Math.min(1000 * Math.pow(2, attempt - 1), 10000)]. *)
Definition backoffMs (attempt : nat) : Z :=
  Z.min (1000 * 2 ^ (Z.of_nat attempt - 1)) 10000.

(** [for (let attempt = 1; attempt <= retries; attempt++) { ... }] entered
    at [attempt] with [remaining = retries - attempt + 1] iterations
    left, followed by the [throw] after the loop. *)
Fixpoint attemptLoop (req : Request) (retries remaining attempt : nat)
    (lastError : option JsError) : M Json :=
  match remaining with
  | O =>
      throw (match lastError with
             | Some e => e
             | None => mkError "Request failed for unknown reason"
             end)
  | S remaining' =>
      tryCatch (attemptOnce req)
        (fun error =>
           if isNetworkError error && (attempt <? retries)%nat then
             sleep (backoffMs attempt) ;;;
             attemptLoop req retries remaining' (S attempt) (Some error)
           else
             throw error)
  end.

Definition makeRequest (endpoint : string) (method : Method)
    (data : option RequestData) (retries : nat) : M Json :=
  let url := apiEndpoint ++ endpoint in
  let headers := [("Content-Type", "application/json")] in
  headers' <-
    match method, data with
    | POST, Some d =>
        nonce <- generateNonce ;;
        let payload := JSON_stringify P d in
        let signatureData := nonce ++ payload in
        tryCatch
          (signature <- signRequest signatureData ;;
           ret (headers ++ [("X-HL-Signature", signature); ("X-HL-Nonce", nonce)])%list)
          (fun signError =>
             throw (mkError ("Request signing failed: " ++ message signError)))
    | _, _ => ret headers
    end ;;
  attemptLoop
    {| url := url; method := method; headers := headers';
       body := match method with POST => data | GET => None end |}
    retries retries 1 None.

(** [markets.find(market => market.coin === coin)]. *)
Fixpoint findMarket (markets : list Json) (coin : string) : M (option Json) :=
  match markets with
  | [] => ret None
  | market :: rest =>
      c <- lift (JsValues.get (Some market) "coin") ;;
      if JsValues.strict_eq_string c coin then ret (Some market)
      else findMarket rest coin
  end.

Definition getMarketData (coin : string) : M HyperliquidMarketData :=
  tryCatch
    (response <- makeRequest "/market/data" GET None 3 ;;
     markets <- lift (JsValues.get (Some response) "markets") ;;
     coinData <-
       match markets with
       | Some (JArr l) => findMarket l coin
       | None =>
           throw (mkTypeError "Cannot read properties of undefined (reading 'find')")
       | Some JNull =>
           throw (mkTypeError "Cannot read properties of null (reading 'find')")
       | Some _ => throw (mkTypeError "response.markets.find is not a function")
       end ;;
     match coinData with
     | None => throw (mkError ("Market data not found for coin: " ++ coin))
     | Some cd =>
         mark <- lift (JsValues.get (Some cd) "mark") ;;
         funding <- lift (JsValues.get (Some cd) "funding") ;;
         ret {| md_coin := coin;
                price := JsValues.parseFloatValue mark;
                fundingRate := JsValues.parseFloatValue funding |}
     end)
    (fun error => throw error).

(** [parseFloat(v || d)]. *)
Definition parseOr (v : JsValue) (d : string) : float :=
  JsValues.parseFloatValue (JsValues.or_else v (JStr d)).

(** The callback of [response.positions.map]. *)
Definition parsePosition (pos : Json) : M HyperliquidPosition :=
  sz <- lift (JsValues.get (Some pos) "size") ;;
  let size := parseOr sz "0" in
  c <- lift (JsValues.get (Some pos) "coin") ;;
  ep <- lift (JsValues.get (Some pos) "entryPrice") ;;
  lev <- lift (JsValues.get (Some pos) "leverage") ;;
  mg <- lift (JsValues.get (Some pos) "margin") ;;
  mp <- lift (JsValues.get (Some pos) "markPrice") ;;
  pnl <- lift (JsValues.get (Some pos) "unrealizedPnl") ;;
  lp <- lift (JsValues.get (Some pos) "liquidationPrice") ;;
  ret {| coin := c;
         entryPrice := parseOr ep "0";
         size := size;
         side := if JsNumber.gtb size 0 then LONG else SHORT;
         leverage := parseOr lev "1";
         marginUsd := parseOr mg "0";
         markPrice := parseOr mp "0";
         unrealizedPnl := parseOr pnl "0";
         liquidationPrice := parseOr lp "0" |}.

Definition getPositions : M (list HyperliquidPosition) :=
  tryCatch
    (response <- makeRequest "/user/positions" GET None 3 ;;
     positions <- lift (JsValues.get (Some response) "positions") ;;
     match positions with
     | Some (JArr (row :: rows)) => mapM parsePosition (row :: rows)
     | _ => ret []
     end)
    (fun error => throw error).

Definition getPosition (c : string) : M (option HyperliquidPosition) :=
  tryCatch
    (positions <- getPositions ;;
     ret (List.find (fun pos => JsValues.strict_eq_string (coin pos) c) positions))
    (fun error => throw error).

Definition lowerOrderType (t : OrderType) : string :=
  match t with LIMIT => "limit" | MARKET => "market" end.

(** [requestData] built by [placeOrder]. *)
Definition orderRequestData (o : HyperliquidOrder) : RequestData :=
  {| req_action :=
       {| act_type := lowerOrderType (orderType o);
          act_coin := order_coin o;
          act_side := order_side o;
          act_size := Number_toString P (order_size o);
          act_price :=
            match order_price o with
            | Some p =>
                if JsNumber.truthy p then Some (Number_toString P p) else None
            | None => None
            end;
          act_reduceOnly := reduceOnly o |} |}.

(** What [placeOrder] makes of the venue's answer. *)
Definition orderResponse (o : HyperliquidOrder) (response : Json)
  : M HyperliquidOrderResponse :=
  st <- lift (JsValues.get (Some response) "status") ;;
  if JsValues.strict_eq_string st "success" then
    id <- lift (JsValues.get (Some response) "id") ;;
    ret {| status := success_status; order := Some o;
           order_id := id; order_error := None |}
  else
    err <- lift (JsValues.get (Some response) "error") ;;
    ret {| status := error_status; order := None; order_id := None;
           order_error := JsValues.or_else err (JStr "Unknown error") |}.

(** The result [placeOrder] returns from its [catch] block. *)
Definition orderFailure (error : JsError) : HyperliquidOrderResponse :=
  {| status := error_status; order := None; order_id := None;
     order_error := Some (JStr (message error)) |}.

Definition placeOrder (o : HyperliquidOrder) : M HyperliquidOrderResponse :=
  tryCatch
    (response <- makeRequest "/trade" POST (Some (orderRequestData o)) 3 ;;
     orderResponse o response)
    (fun error => ret (orderFailure error)).

Definition openShortPosition (c : string) (sizeUsd : float)
  : M HyperliquidOrderResponse :=
  placeOrder {| order_coin := c; order_side := SELL; order_size := sizeUsd;
                order_price := None; orderType := MARKET; reduceOnly := false |}.

Definition reduceShortPosition (c : string) (sizeUsd : float)
  : M HyperliquidOrderResponse :=
  placeOrder {| order_coin := c; order_side := BUY; order_size := sizeUsd;
                order_price := None; orderType := MARKET; reduceOnly := true |}.

Definition closePosition (c : string) : M HyperliquidOrderResponse :=
  position <- getPosition c ;;
  match position with
  | None =>
      ret {| status := success_status; order := None;
             order_id := None; order_error := None |}
  | Some p =>
      if JsNumber.strict_eq (size p) 0 then
        ret {| status := success_status; order := None;
               order_id := None; order_error := None |}
      else
        let side' := match side p with LONG => SELL | SHORT => BUY end in
        let sizeAbs := PrimFloat.abs (size p) in
        placeOrder {| order_coin := c; order_side := side'; order_size := sizeAbs;
                      order_price := None; orderType := MARKET; reduceOnly := true |}
  end.

End Client.

End HyperliquidClient.

(* ===================================================================== *)
(** ** [src/modules/hedgeController.ts]                                   *)
(* ===================================================================== *)

Module HedgeController.

Import Effects.
Local Open Scope js_scope.

Section Controller.

Variable P : Platform.
Variable config : Config.

Definition ticker : string := pendlePerpTicker config.

Definition getMarketData : M HyperliquidMarketData :=
  tryCatch
    (HyperliquidClient.getMarketData P config ticker)
    (fun _ =>
       (* default data for fallback *)
       ret {| md_coin := ticker; price := 0; fundingRate := 0 |}).

Definition getHedgePosition : M (option HyperliquidPosition) :=
  tryCatch
    (HyperliquidClient.getPosition P config ticker)
    (fun _ => ret None).

Definition checkFundingRate : M bool :=
  tryCatch
    (marketData <- getMarketData ;;
     let isFundingAcceptable :=
       Calculations.isFundingRateAcceptable
         (fundingRate marketData) (fundingTolerance config) in
     ret isFundingAcceptable)
    (fun _ => ret true).   (* default to true on error *)

(** An [ExecutionResult] literal: [timestamp: Date.now()] is read when
    the result is built. *)
Definition result (ok : bool) (a : HedgingAction) (d : option string)
    (e : JsValue) : M ExecutionResult :=
  t <- dateNow ;;
  ret {| success := ok; result_action := a; details := d; error := e;
         timestamp := t |}.

(** What the three order branches make of the response: the [if
    (r.status === 'success') ... else ...] of each, which differ in the
    texts only ([error: r.error || unknown]). *)
Definition orderResult (a : HedgingAction) (r : HyperliquidOrderResponse)
    (done unknown : string) : M ExecutionResult :=
  match status r with
  | success_status => result true a (Some done) None
  | error_status =>
      result false a None (JsValues.or_else (order_error r) (JStr unknown))
  end.

(** The [switch (action)] of [updateHedgePosition]. *)
Definition executeAction (action : HedgingAction) (sizeChange : float)
  : M ExecutionResult :=
  match action with
  | NO_ACTION =>
      result true NO_ACTION (Some "No rebalance needed.") None
  | INCREASE_SHORT =>
      (* Check funding rate before increasing position *)
      isFundingAcceptable <- checkFundingRate ;;
      if negb isFundingAcceptable then
        result false INCREASE_SHORT
          (Some "Funding rate exceeds tolerance. Skipping hedge increase.")
          None
      else
        increaseResult <-
          HyperliquidClient.openShortPosition P config ticker sizeChange ;;
        orderResult INCREASE_SHORT increaseResult
          ("Increased short position by "
             ++ JsNumber.toFixed sizeChange 2 ++ " USD")
          "Unknown error increasing short position"
  | DECREASE_SHORT =>
      decreaseResult <-
        HyperliquidClient.reduceShortPosition P config ticker sizeChange ;;
      orderResult DECREASE_SHORT decreaseResult
        ("Decreased short position by "
           ++ JsNumber.toFixed sizeChange 2 ++ " USD")
        "Unknown error decreasing short position"
  | CLOSE_POSITIONS =>
      closeResult <- HyperliquidClient.closePosition P config ticker ;;
      orderResult CLOSE_POSITIONS closeResult
        ("Closed all positions for " ++ ticker)
        "Unknown error closing positions"
  end.

(** The [try] block of [updateHedgePosition].  [Promise.all] starts both
    reads and waits for both; neither rejects; they are run here one after
    the other.  The deviation computed for the log entry
    ([calculateDeviation] and [toFixed], which do not throw) is not part of
    the result and is left out, as is all logging. *)
Definition updateHedgePositionTry (lpPosition : LPPosition) : M ExecutionResult :=
  hedgePosition <- getHedgePosition ;;
  marketData <- getMarketData ;;
  let currentPrice := price marketData in
  let decision :=
    Calculations.determineHedgeAction lpPosition hedgePosition
      (rebalanceThreshold config) currentPrice in
  executeAction (action decision) (sizeChange decision).

Definition updateHedgePosition (lpPosition : LPPosition) : M ExecutionResult :=
  tryCatch
    (updateHedgePositionTry lpPosition)
    (fun error =>
       result false NO_ACTION None (Some (JStr (message error)))).

End Controller.

End HedgeController.

(* ===================================================================== *)
(** ** Facts about binary64 numbers: vocabulary                           *)
(* ===================================================================== *)

(** A specification-level number that is not [NaN] and not negative. *)
Definition sf_nonneg (x : spec_float) : Prop :=
  match x with
  | S754_zero _ => True
  | S754_infinity s | S754_finite s _ _ => s = false
  | S754_nan => False
  end.

(** What a computation may do to the world: the clock does not go back and
    the history grows by events that all satisfy [ok]. *)
Definition steps (ok : Event -> bool) (w w' : World) : Prop :=
  (now w <= now w')%Z
  /\ exists evs, history w' = (history w ++ evs)%list /\ forallb ok evs = true.

Definition keeps (ok : Event -> bool) {A} (m : M A) : Prop :=
  forall w, steps ok w (snd (m w)).

(** A computation that returns, whatever the world. *)
Definition returns {A} (m : M A) : Prop :=
  forall w, exists a w', m w = (Returned a, w').

(** A string of decimal digits, and the number it denotes read after the
    digits of [acc]. *)
Definition is_digit (c : ascii) : bool :=
  match JsNumber.digit_of c with Some _ => true | None => false end.

Fixpoint all_digits (s : string) : bool :=
  match s with
  | EmptyString => true
  | String c r => is_digit c && all_digits r
  end.

Fixpoint decimal_val (acc : Z) (s : string) : Z :=
  match s with
  | EmptyString => acc
  | String c r =>
      match JsNumber.digit_of c with
      | Some d => decimal_val (10 * acc + d) r
      | None => acc
      end
  end.

(** The head of a string is not a digit. *)
Definition stops (rest : string) : Prop :=
  match rest with
  | String c _ => JsNumber.digit_of c = None
  | EmptyString => True
  end.

(** [x] rounded to two decimals, in the words of the specification: the
    binary64 number nearest to [n / 100], where [n] is the integer nearest
    to [100 * |x|] (the larger one on a tie), with the sign of [x]; a zero
    gives [0], and [NaN] and the infinities are kept. *)
Definition roundedTo2Decimals (x : float) : float :=
  match Prim2SF x with
  | S754_finite s m e => JsNumber.decimal_value s (JsNumber.scaled m e 100) (-2)
  | S754_zero _ => 0
  | _ => x
  end.

(** What a run added to the history: the events after the first
    [length before] ones. *)
Definition eventsSince (before after : World) : list Event :=
  skipn (List.length (history before)) (history after).

Definition isFetch (ev : Event) : bool :=
  match ev with Fetched _ => true | Slept _ => false end.

(** An order is placed by a [POST]; the reads are [GET]s. *)
Definition isOrder (ev : Event) : bool :=
  match ev with
  | Fetched r => match method r with POST => true | GET => false end
  | Slept _ => false
  end.

(** A fetch of [url]. *)
Definition isFetchOf (u : string) (ev : Event) : bool :=
  match ev with
  | Fetched r => String.eqb (url r) u
  | Slept _ => false
  end.

(** The events of the reads: anything but an order. *)
Definition notOrder (ev : Event) : bool := negb (isOrder ev).

(** Anything but a fetch of the market data. *)
Definition notMarketData (config : Config) (ev : Event) : bool :=
  negb (isFetchOf (HyperliquidClient.apiEndpoint config ++ "/market/data") ev).

Definition anyEvent (_ : Event) : bool := true.

(** The result of a skipped hedge increase. *)
Definition fundingSkipped (t : Z) : ExecutionResult :=
  {| success := false; result_action := INCREASE_SHORT;
     details := Some "Funding rate exceeds tolerance. Skipping hedge increase.";
     error := None; timestamp := t |}.

(** The result built in the [catch] block of [updateHedgePosition]. *)
Definition executionFailure (e : JsError) (t : Z) : ExecutionResult :=
  {| success := false; result_action := NO_ACTION; details := None;
     error := Some (JStr (message e)); timestamp := t |}.

(** A computation whose result, when it returns one, carries the time at
    which it returns, and an error when it is a failure other than the
    skipped increase. *)
Definition stamped (m : M ExecutionResult) : Prop :=
  forall w r w',
    m w = (Returned r, w') ->
    timestamp r = now w'
    /\ (success r = false ->
        error r <> None \/ r = fundingSkipped (timestamp r)).

Definition sleptMs (ev : Event) : Z :=
  match ev with Slept ms => ms | Fetched _ => 0 end.

(** The delays asked of [setTimeout], in order. *)
Definition sleepsOf (evs : list Event) : list Z :=
  flat_map (fun ev => match ev with Slept ms => [ms] | Fetched _ => [] end) evs.

(** The number of calls of [fetch]. *)
Definition fetchCount (evs : list Event) : nat :=
  List.length (filter isFetch evs).

(** The world after a delay of [ms] milliseconds. *)
Definition slept (ms : Z) (w : World) : World := snd (Effects.sleep ms w).

(** The world after one call of [fetch] that took [t] milliseconds. *)
Definition fetched (req : Request) (t : Z) (w : World) : World :=
  {| now := now w + t; history := (history w ++ [Fetched req])%list |}.

(** Total time asked of [setTimeout] in a list of events. *)
Definition totalSlept (evs : list Event) : Z :=
  fold_right (fun ev acc => sleptMs ev + acc)%Z 0%Z evs.

(* ===================================================================== *)
(** ** Fixtures: the data of [tests/utils/calculations.test.ts] and       *)
(**    scripted venues                                                    *)
(* ===================================================================== *)

Module Fixtures.

Local Open Scope float_scope.

(** [lpPosition] of the test file, with the three values the tests vary. *)
Definition lpWith (exposure0 exposure1 total : float) : LPPosition :=
  {| liquidityAmount := 1000;
     token0Amount := 100;
     token1Amount := 200;
     token0Address := "0x123";
     token1Address := "0x456";
     token0Symbol := "PENDLE";
     token1Symbol := "USDT";
     token0Decimals := 18;
     token1Decimals := 6;
     token0Exposure := exposure0;
     token1Exposure := exposure1;
     totalValueUSD := total |}.

Definition lpPosition : LPPosition := lpWith 100 100 200.

(** [hedgePosition] of the test file, with its size. *)
Definition hedgeWith (sz : float) : HyperliquidPosition :=
  {| coin := Some (JStr "PENDLE-PERP");
     entryPrice := 10;
     size := sz;
     side := SHORT;
     leverage := 5;
     marginUsd := 20;
     markPrice := 10;
     unrealizedPnl := 0;
     liquidationPrice := 12 |}.

Definition hedgePosition : HyperliquidPosition := hedgeWith (-100).

(** The defaults of [src/config.ts]: threshold 5 %, tolerance 0.5 %. *)
Definition config : Config :=
  {| pendlePerpTicker := "PENDLE-PERP";
     rebalanceThreshold := 5 / 100;
     fundingTolerance := 0.5 / 100;
     hyperliquidSigningKey := "0123456789abcdef0123456789abcdef";
     hyperliquidApiEndpoint := "https://api.hyperliquid.xyz" |}.

Definition world0 : World := {| now := 1700000000000; history := [] |}.

Definition marketUrl : string := "https://api.hyperliquid.xyz/market/data".
Definition positionsUrl : string := "https://api.hyperliquid.xyz/user/positions".
Definition tradeUrl : string := "https://api.hyperliquid.xyz/trade".

Definition okJson (j : Json) : Reply :=
  Responds {| resp_ok := true; resp_status := 200;
              resp_text := Returned ""; resp_json := Returned j |}.

Definition httpError (st : nat) (text : string) : Reply :=
  Responds {| resp_ok := false; resp_status := st;
              resp_text := Returned text;
              resp_json := Thrown (mkError "Unexpected token") |}.

Definition marketsJson (funding : string) : Json :=
  JObj [("markets",
         JArr [JObj [("coin", JStr "ETH-PERP"); ("mark", JStr "3000");
                     ("funding", JStr "0.0001")];
               JObj [("coin", JStr "PENDLE-PERP"); ("mark", JStr "5.25");
                     ("funding", JStr funding)]])].

Definition positionsJson (sz : string) : Json :=
  JObj [("positions",
         JArr [JObj [("coin", JStr "PENDLE-PERP"); ("size", JStr sz);
                     ("entryPrice", JStr "10"); ("leverage", JStr "5");
                     ("margin", JStr "20"); ("markPrice", JStr "10");
                     ("unrealizedPnl", JStr "0");
                     ("liquidationPrice", JStr "12")]])].

Definition noPositionsJson : Json := JObj [("positions", JArr [])].

Definition tradeAccepted : Json :=
  JObj [("status", JStr "success"); ("id", JStr "order-1")].

Definition tradeRefused : Json :=
  JObj [("status", JStr "error"); ("error", JStr "Insufficient margin")].

(** A venue that answers each endpoint with a fixed document. *)
Definition steadyVenue (markets positions trade : Reply)
    (_ : list Event) (req : Request) : N * Reply :=
  if String.eqb (url req) marketUrl then (120%N, markets)
  else if String.eqb (url req) positionsUrl then (80%N, positions)
  else (200%N, trade).

(** A venue whose first [failures] answers are [bad] and the later ones
    [good]. *)
Definition flakyVenue (failures : nat) (bad good : Reply)
    (h : list Event) (_ : Request) : N * Reply :=
  if (List.length (filter isFetch h) <? failures)%nat then (50%N, bad)
  else (50%N, good).

(** A venue whose market data is served once and fails afterwards; the
    other endpoints are steady. *)
Definition marketOnceVenue (markets positions trade : Reply)
    (h : list Event) (req : Request) : N * Reply :=
  if String.eqb (url req) marketUrl then
    if (List.length (filter (isFetchOf marketUrl) h) <? 1)%nat
    then (120%N, markets)
    else (10%N, Rejects (mkTypeError "fetch failed"))
  else if String.eqb (url req) positionsUrl then (80%N, positions)
  else (200%N, trade).

Definition sideText (s : OrderSide) : string :=
  match s with BUY => "BUY" | SELL => "SELL" end.

(** Stand-ins for the built-ins: numbers printed without decimals (as
    [toString] prints the integers used here), the request data printed
    field by field, and a constant digest. *)
Definition stringify (d : RequestData) : string :=
  let a := req_action d in
  "{action:{type:" ++ act_type a ++ ",coin:" ++ act_coin a
    ++ ",side:" ++ sideText (act_side a) ++ ",size:" ++ act_size a ++ "}}".

Definition platform (v : list Event -> Request -> N * Reply) : Platform :=
  {| Number_toString := fun x => JsNumber.toFixed x 0;
     JSON_stringify := stringify;
     hmac_sha256_hex := fun _ _ => Returned "5f2d";
     venue := v |}.

(** The same with a signing key that [createHmac] refuses. *)
Definition platformBadKey (v : list Event -> Request -> N * Reply) : Platform :=
  {| Number_toString := fun x => JsNumber.toFixed x 0;
     JSON_stringify := stringify;
     hmac_sha256_hex := fun _ _ =>
       Thrown (mkTypeError "The key argument must be of type string");
     venue := v |}.

Definition fetchFailed : Reply := Rejects (mkTypeError "fetch failed").

Definition getRequest (u : string) : Request :=
  {| url := u; method := GET;
     headers := [("Content-Type", "application/json")]; body := None |}.

Definition marketRequest : Request := getRequest marketUrl.

Definition sellOrder : HyperliquidOrder :=
  {| order_coin := "PENDLE-PERP"; order_side := SELL; order_size := 20;
     order_price := None; orderType := MARKET; reduceOnly := false |}.

(** An HTTP 500, then a [null] document. *)
Definition serverErrorThenNull : Platform :=
  platform (flakyVenue 1 (httpError 500 "Internal Server Error") (okJson JNull)).

(** An HTTP 504 from a proxy, then an answer. *)
Definition gatewayTimeoutThenAnswer : Platform :=
  platform (flakyVenue 1 (httpError 504 "upstream request timeout")
              (okJson tradeAccepted)).

(** No connection twice, then an answer. *)
Definition twiceOffline : Platform :=
  platform (flakyVenue 2 fetchFailed (okJson tradeAccepted)).

(** No connection at all. *)
Definition offline : Platform :=
  platform (fun _ _ => (50%N, fetchFailed)).

(** A venue whose funding rate, 0.006, is above the tolerance of 0.005:
    without a hedge, and with a short of 100. *)
Definition expensiveFunding : Platform :=
  platform (steadyVenue (okJson (marketsJson "0.006")) (okJson noPositionsJson)
              (okJson tradeAccepted)).

Definition expensiveFundingHedged : Platform :=
  platform (steadyVenue (okJson (marketsJson "0.006"))
              (okJson (positionsJson "-100")) (okJson tradeAccepted)).

(** A venue whose market data can be read once and not again. *)
Definition marketDataOnce : Platform :=
  platform (marketOnceVenue (okJson (marketsJson "0.001"))
              (okJson noPositionsJson) (okJson tradeAccepted)).

(** The world after the two reads of [updateHedgePosition] on a steady
    venue. *)
Definition afterReads : World :=
  {| now := 1700000000200;
     history := [Fetched (getRequest positionsUrl);
                 Fetched (getRequest marketUrl)] |}.

(** The world after a funding check whose three attempts found no
    connection. *)
Definition afterFailedCheck : World :=
  fetched marketRequest 10
    (slept 2000 (fetched marketRequest 10
      (slept 1000 (fetched marketRequest 10 afterReads)))).

Definition badKey : Platform :=
  platformBadKey (fun _ _ => (50%N, fetchFailed)).

End Fixtures.

(* ===================================================================== *)
(** ** [src/main.ts]: the tick's guard and its deviation report           *)
(* ===================================================================== *)

Module HoytBot.

Import JsNumber.
Local Open Scope float_scope.

(** The test of [executeCheck] before it calls [updateHedgePosition]:
    [this.state.lpPosition && this.state.lpPosition.totalValueUSD > 0]. *)
Definition shouldRebalance (lpPosition : option LPPosition) : bool :=
  match lpPosition with
  | Some lp => gtb (totalValueUSD lp) 0
  | None => false
  end.

(** [Math.max(a, b)] for two numbers: [NaN] when either is [NaN], and [+0]
    counts as larger than [-0]. *)
Definition Math_max (a b : float) : float :=
  if isNaN a then a
  else if isNaN b then b
  else if a <? b then b
  else if b <? a then a
  else if get_sign a then b else a.

(** The deviation stored by [updatePositions] ("Calculate deviation with
    safer checks"), from the positions it has just read. *)
Definition stateDeviation (lpPosition : option LPPosition)
    (hedgePosition : option HyperliquidPosition) : float :=
  match lpPosition, hedgePosition with
  | Some lp, Some hedge =>
      if negb (strict_eq (size hedge) 0) then
        let lpExposure := Math_max 0 (token0Exposure lp) in
        let hedgeSize := abs (size hedge) in
        if gtb hedgeSize 0.000001 then
          let deviation := abs (lpExposure - hedgeSize) / hedgeSize * 100 in
          parseFloat (toFixed deviation 2)
        else
          if gtb lpExposure 0 then 100 else 0
      else if gtb (token0Exposure lp) 0 then 100 else 0
  | Some lp, None => if gtb (token0Exposure lp) 0 then 100 else 0
  | None, _ => 0
  end.

End HoytBot.

(* ===================================================================== *)
(** ** [src/utils/secureUtils.ts]                                         *)
(* ===================================================================== *)

Module SecureUtils.

Local Open Scope Z_scope.

(** A string as the sequence of its UTF-16 code units, which is what
    [length], [slice] and [charCodeAt] see. *)
Definition CodeUnits := list Z.

Definition isCodeUnit (c : Z) : bool := (0 <=? c) && (c <? 65536).

Definition wellFormed (s : CodeUnits) : bool := forallb isCodeUnit s.

(** [ToInt32], applied to the operands and the result of [^] and [|]. *)
Definition toInt32 (z : Z) : Z := (z + 2 ^ 31) mod 2 ^ 32 - 2 ^ 31.

Definition bitXor (a b : Z) : Z := toInt32 (Z.lxor (toInt32 a) (toInt32 b)).

Definition bitOr (a b : Z) : Z := toInt32 (Z.lor (toInt32 a) (toInt32 b)).

(** The [for] loop of [secureCompare]: [result |= a.charCodeAt(i) ^
    b.charCodeAt(i)] for every index of [a].  It is entered with strings of
    the same length only, so [b] has a character wherever [a] has one. *)
Fixpoint compareLoop (result : Z) (a b : CodeUnits) : Z :=
  match a, b with
  | x :: a', y :: b' => compareLoop (bitOr result (bitXor x y)) a' b'
  | _, _ => result
  end.

Definition secureCompare (a b : CodeUnits) : bool :=
  if negb (Z.of_nat (List.length a) =? Z.of_nat (List.length b)) then false
  else compareLoop 0 a b =? 0.

(** [s.slice(start, end)] for integers; [end] is [undefined] when left
    out. *)
Definition sliceIndex (len i : Z) : Z :=
  if i <? 0 then Z.max (len + i) 0 else Z.min i len.

Definition slice (s : CodeUnits) (start : Z) (end_ : option Z) : CodeUnits :=
  let len := Z.of_nat (List.length s) in
  let from := sliceIndex len start in
  let to := match end_ with Some e => sliceIndex len e | None => len end in
  firstn (Z.to_nat (Z.max (to - from) 0)) (skipn (Z.to_nat from) s).

(** The code unit of ['*']. *)
Definition star : Z := 42.

(** ['*'.repeat(n)] for an integer [n >= 0]. *)
Definition stars (n : Z) : CodeUnits := List.repeat star (Z.to_nat n).

(** [visibleChars] is taken to be an integer. *)
Definition maskSensitiveString (sensitiveString : CodeUnits) (visibleChars : Z)
  : CodeUnits :=
  if match sensitiveString with [] => true | _ => false end
     || (Z.of_nat (List.length sensitiveString) <=? visibleChars * 2)
  then stars 6
  else
    let start := slice sensitiveString 0 (Some visibleChars) in
    let end_ := slice sensitiveString (- visibleChars) None in
    let maskLength :=
      Z.max (Z.of_nat (List.length sensitiveString) - visibleChars * 2) 6 in
    let mask := stars maskLength in
    (start ++ mask ++ end_)%list.

End SecureUtils.

(* ===================================================================== *)
(** ** The reports of the executor, in the words of the specification     *)
(* ===================================================================== *)

(** [{success: true, action, details, timestamp}]. *)
Definition succeeded (a : HedgingAction) (text : string) (t : Z) : ExecutionResult :=
  {| success := true; result_action := a; details := Some text; error := None;
     timestamp := t |}.

(** [{success: false, action, error, timestamp}]. *)
Definition failed (a : HedgingAction) (err : JsValue) (t : Z) : ExecutionResult :=
  {| success := false; result_action := a; details := None; error := err;
     timestamp := t |}.

(** What an order branch is to report of the client's response [o]: a
    success with the text [done] when the response is tagged "success", and
    a failure with the response's error ([unknown] when it has none) when
    it is tagged "error". *)
Definition orderReport (a : HedgingAction) (o : HyperliquidOrderResponse)
    (done unknown : string) (t : Z) : ExecutionResult :=
  match status o with
  | success_status => succeeded a done t
  | error_status =>
      failed a (if JsValues.truthy (order_error o) then order_error o
                else Some (JStr unknown)) t
  end.

(* ===================================================================== *)
(** ** What a computation costs: vocabulary                               *)
(* ===================================================================== *)

(** The number of orders sent ([POST]s). *)
Definition orderCount (evs : list Event) : nat :=
  List.length (filter isOrder evs).

(** A computation that calls [fetch] at most [fetches] times, sends at most
    [orders] of these calls as [POST]s, and asks [setTimeout] for at most
    [waits] milliseconds in total. *)
Definition spends (fetches orders : nat) (waits : Z) {A} (m : M A) : Prop :=
  forall w, exists evs,
    history (snd (m w)) = (history w ++ evs)%list
    /\ (fetchCount evs <= fetches)%nat
    /\ (orderCount evs <= orders)%nat
    /\ (totalSlept evs <= waits)%Z.

(** The orders among [n] requests of method [mth]. *)
Definition postsOf (mth : Method) (n : nat) : nat :=
  match mth with POST => n | GET => O end.

(** The waits of [n] consecutive failed attempts, the first of which is
    attempt [attempt]. *)
Fixpoint backoffTotal (attempt n : nat) : Z :=
  match n with
  | O => 0%Z
  | S n' => (HyperliquidClient.backoffMs attempt + backoffTotal (S attempt) n')%Z
  end.

(** Reading a parsed document: a row that is [null], the property [k] of a
    row ([undefined] where reading it gives nothing), and a row whose
    [coin] is the string [c]. *)
Definition isNullRow (m : Json) : bool :=
  match m with JNull => true | _ => false end.

Definition property (m : Json) (k : string) : JsValue :=
  match JsValues.get (Some m) k with
  | Returned v => v
  | Thrown _ => None
  end.

Definition hasCoin (c : string) (m : Json) : bool :=
  JsValues.strict_eq_string (property m "coin") c.

(** A position whose side is read off the sign of its size. *)
Definition sideOfSize (p : HyperliquidPosition) : Prop :=
  side p = if JsNumber.gtb (size p) 0%float then LONG else SHORT.

(** An event that is a wait or a call of [fetch] with the request [req]. *)
Definition resends (req : Request) (ev : Event) : Prop :=
  match ev with
  | Fetched r => r = req
  | Slept _ => True
  end.

(* ===================================================================== *)
(** ** More scripted venues                                               *)
(* ===================================================================== *)

Module Scenarios.

Import Fixtures.
Local Open Scope float_scope.

(** A venue whose positions cannot be read (no connection) while the other
    endpoints answer. *)
Definition positionsDownVenue (markets trade : Reply)
    (_ : list Event) (req : Request) : N * Reply :=
  if String.eqb (url req) positionsUrl then (10%N, fetchFailed)
  else if String.eqb (url req) marketUrl then (120%N, markets)
  else (200%N, trade).

Definition positionsDown : Platform :=
  platform (positionsDownVenue (okJson (marketsJson "0.001")) (okJson tradeAccepted)).

(** The world after three failed reads of the positions. *)
Definition afterFailedPositions : World :=
  fetched (getRequest positionsUrl) 10
    (slept 2000 (fetched (getRequest positionsUrl) 10
      (slept 1000 (fetched (getRequest positionsUrl) 10 world0)))).

(** The world after three calls of the market data that found no
    connection, 50 ms each. *)
Definition afterFailedMarket : World :=
  fetched marketRequest 50
    (slept 2000 (fetched marketRequest 50
      (slept 1000 (fetched marketRequest 50 world0)))).

(** A steady venue with a cheap funding rate, without a hedge and with a
    short of 100. *)
Definition cheapFunding : Platform :=
  platform (steadyVenue (okJson (marketsJson "0.001")) (okJson noPositionsJson)
              (okJson tradeAccepted)).

Definition cheapFundingHedged : Platform :=
  platform (steadyVenue (okJson (marketsJson "0.001"))
              (okJson (positionsJson "-100")) (okJson tradeAccepted)).

(** Market data whose entry for the ticker carries no funding rate. *)
Definition marketsWithoutFunding : Json :=
  JObj [("markets",
         JArr [JObj [("coin", JStr "PENDLE-PERP"); ("mark", JStr "5.25")]])].

Definition fundingMissing : Platform :=
  platform (steadyVenue (okJson marketsWithoutFunding) (okJson noPositionsJson)
              (okJson tradeAccepted)).

(** The position parsed from [positionsJson "-100"]. *)
Definition shortOf100 : HyperliquidPosition :=
  {| coin := Some (JStr "PENDLE-PERP");
     entryPrice := 10;
     size := -100;
     side := SHORT;
     leverage := 5;
     marginUsd := 20;
     markPrice := 10;
     unrealizedPnl := 0;
     liquidationPrice := 12 |}.

End Scenarios.

(* ===================================================================== *)
(** ** Facts about binary64 numbers                                       *)
(* ===================================================================== *)

(** The primitive operations are specified by [SpecFloat]'s functions on
    sign, mantissa and exponent ([FloatAxioms]); the facts below are proved
    on that specification and carried back to [float]. *)

Module FloatFacts.

Local Open Scope Z_scope.

Lemma shr_1_nonneg mrs : 0 <= shr_m mrs -> 0 <= shr_m (shr_1 mrs).
Proof.
destruct mrs as [m r s]; simpl.
destruct m as [|[p|p|]|[p|p|]]; simpl; lia.
Qed.

Lemma iter_pos_shr_1_nonneg p : forall mrs,
0 <= shr_m mrs -> 0 <= shr_m (iter_pos shr_1 p mrs).
Proof.
induction p as [p IH|p IH|]; intros mrs H; simpl.
- apply IH, IH, shr_1_nonneg, H.
- apply IH, IH, H.
- apply shr_1_nonneg, H.
Qed.

Lemma shr_fexp_nonneg m e l :
0 <= m -> 0 <= shr_m (fst (shr_fexp prec emax m e l)).
Proof.
intros H. unfold shr_fexp, shr.
assert (H0 : 0 <= shr_m (shr_record_of_loc m l)).
{ destruct l as [|[]]; simpl; exact H. }
destruct (fexp prec emax (Zdigits2 m + e) - e); simpl; auto.
apply iter_pos_shr_1_nonneg, H0.
Qed.

Lemma round_nearest_even_nonneg m l : 0 <= m -> 0 <= round_nearest_even m l.
Proof.
intros H. destruct l as [|[]]; simpl; try lia.
destruct (Z.even m); lia.
Qed.

Lemma binary_round_aux_sign s m e l :
0 <= m ->
match binary_round_aux prec emax s m e l with
| S754_zero s' | S754_infinity s' | S754_finite s' _ _ => s' = s
| S754_nan => False
end.
Proof.
intros H. unfold binary_round_aux.
pose proof (shr_fexp_nonneg m e l H) as H1.
destruct (shr_fexp prec emax m e l) as [mrs' e']. simpl in H1.
pose proof (shr_fexp_nonneg _ e' loc_Exact
              (round_nearest_even_nonneg _ (loc_of_shr_record mrs') H1)) as H2.
destruct (shr_fexp prec emax _ e' loc_Exact) as [mrs'' e'']. simpl in H2.
destruct (shr_m mrs''); try lia; auto.
destruct (e'' <=? emax - prec); reflexivity.
Qed.

Lemma binary_normalize_pos p e sz :
sf_nonneg (binary_normalize prec emax (Zpos p) e sz).
Proof.
unfold binary_normalize, binary_round.
destruct (shl_align p e _) as [mz ez].
pose proof (binary_round_aux_sign false (Zpos mz) ez loc_Exact ltac:(lia)) as H.
destruct (binary_round_aux _ _ _ _ _ _); simpl; auto.
Qed.

Lemma pos_iter_xO m d : Zpos (Pos.iter xO m d) = Zpos m * 2 ^ Zpos d.
Proof.
induction d as [|d IH] using Pos.peano_ind.
- simpl. lia.
- rewrite Pos.iter_succ, Pos2Z.inj_xO, IH, Pos2Z.inj_succ.
  rewrite Z.pow_succ_r by lia. lia.
Qed.

Lemma shl_align_fst m e ez :
ez <= e -> Zpos (fst (shl_align m e ez)) = Zpos m * 2 ^ (e - ez).
Proof.
intros H. unfold shl_align.
destruct (ez - e) as [|d|d] eqn:E; simpl.
- replace (e - ez) with 0 by lia. rewrite Z.pow_0_r. lia.
- lia.
- rewrite pos_iter_xO. replace (e - ez) with (Zpos d) by (pose proof (Pos2Z.opp_neg d); lia). reflexivity.
Qed.

Lemma digits2_pos_bounds m :
2 ^ (Zpos (digits2_pos m) - 1) <= Zpos m < 2 ^ Zpos (digits2_pos m).
Proof.
induction m as [m IH|m IH|]; simpl digits2_pos.
- rewrite Pos2Z.inj_succ.
  replace (Z.succ (Zpos (digits2_pos m)) - 1) with (Zpos (digits2_pos m) - 1 + 1) by lia.
  rewrite Z.pow_succ_r by lia. rewrite Z.pow_add_r by lia. lia.
- rewrite Pos2Z.inj_succ.
  replace (Z.succ (Zpos (digits2_pos m)) - 1) with (Zpos (digits2_pos m) - 1 + 1) by lia.
  rewrite Z.pow_succ_r by lia. rewrite Z.pow_add_r by lia. lia.
- simpl. lia.
Qed.

(** A canonical mantissa has at most [prec] bits, and exactly [prec] bits
  above the least exponent. *)
Lemma bounded_digits m e :
bounded prec emax m e = true ->
Zpos (digits2_pos m) <= 53 /\ (-1074 < e -> Zpos (digits2_pos m) = 53).
Proof.
unfold bounded, canonical_mantissa, fexp, SpecFloat.emin, prec, emax.
intros H. apply andb_prop in H. destruct H as [H _].
apply Z.eqb_eq in H. lia.
Qed.

Lemma bounded_gt_exponent m1 e1 m2 e2 :
bounded prec emax m1 e1 = true -> bounded prec emax m2 e2 = true ->
e2 < e1 -> Zpos m2 < Zpos m1 * 2 ^ (e1 - e2).
Proof.
intros B1 B2 H.
destruct (bounded_digits _ _ B1) as [_ D1].
destruct (bounded_digits _ _ B2) as [D2 L2].
assert (L : -1074 <= e2).
{ unfold bounded, canonical_mantissa, fexp, SpecFloat.emin, prec, emax in B2.
  apply andb_prop in B2. destruct B2 as [B2 _]. apply Z.eqb_eq in B2. lia. }
specialize (D1 ltac:(lia)).
pose proof (digits2_pos_bounds m1) as [Lo1 _].
pose proof (digits2_pos_bounds m2) as [_ Hi2].
rewrite D1 in Lo1.
assert (Hi2' : Zpos m2 < 2 ^ 53).
{ eapply Z.lt_le_trans; [exact Hi2|]. apply Z.pow_le_mono_r; lia. }
assert (P : 2 ^ 1 <= 2 ^ (e1 - e2)) by (apply Z.pow_le_mono_r; lia).
change (2 ^ 1) with 2 in P.
change (2 ^ (53 - 1)) with 4503599627370496 in Lo1.
change (2 ^ 53) with 9007199254740992 in Hi2'.
nia.
Qed.

Lemma SFcompare_antisym x y :
SFcompare y x = option_map CompOpp (SFcompare x y).
Proof.
destruct x as [sx|sx| |sx mx ex], y as [sy|sy| |sy my ey]; simpl;
  try reflexivity;
  try (destruct sx; reflexivity);
  try (destruct sy; reflexivity);
  try (destruct sx, sy; reflexivity).
destruct sx, sy; simpl; try reflexivity.
- rewrite (Z.compare_antisym ex ey).
  destruct (ex ?= ey); simpl; try reflexivity.
  rewrite CompOpp_involutive. f_equal.
  exact (Pos.compare_cont_antisym my mx Eq).
- rewrite (Z.compare_antisym ex ey).
  destruct (ex ?= ey); simpl; try reflexivity.
  f_equal. symmetry. exact (Pos.compare_cont_antisym mx my Eq).
Qed.

Lemma SFsub_gt_nonneg x y :
valid_binary x = true -> valid_binary y = true ->
SFcompare x y = Some Gt -> sf_nonneg (SFsub prec emax x y).
Proof.
destruct x as [sx|sx| |sx mx ex], y as [sy|sy| |sy my ey]; simpl;
  intros Vx Vy H; try discriminate;
  try (destruct sx; try discriminate; reflexivity);
  try (destruct sy; try discriminate; reflexivity);
  try (destruct sx, sy; try discriminate; simpl; auto; fail).
assert (Hpos : 0 < cond_Zopp sx (Zpos (fst (shl_align mx ex (Z.min ex ey))))
                   - cond_Zopp sy (Zpos (fst (shl_align my ey (Z.min ex ey))))).
{ rewrite !shl_align_fst by lia.
  destruct sx, sy; cbv beta iota delta [cond_Zopp]; try discriminate.
  - (* both negative *)
    destruct (ex ?= ey) eqn:E; try discriminate.
    + apply Z.compare_eq in E. subst ey.
      rewrite Z.min_id, Z.sub_diag, Z.pow_0_r.
      assert (L : (mx < my)%positive).
      { unfold Pos.lt, Pos.compare.
        destruct (Pos.compare_cont Eq mx my); simpl in H; congruence. }
      lia.
    + rewrite Z.compare_lt_iff in E.
      rewrite Z.min_l by lia. rewrite Z.sub_diag, Z.pow_0_r.
      pose proof (bounded_gt_exponent _ _ _ _ Vy Vx E). lia.
  - (* x positive, y negative *)
    pose proof (Z.pow_pos_nonneg 2 (ex - Z.min ex ey) ltac:(lia) ltac:(lia)).
    pose proof (Z.pow_pos_nonneg 2 (ey - Z.min ex ey) ltac:(lia) ltac:(lia)).
    nia.
  - (* both positive *)
    destruct (ex ?= ey) eqn:E; try discriminate.
    + apply Z.compare_eq in E. subst ey.
      rewrite Z.min_id, Z.sub_diag, Z.pow_0_r.
      assert (L : (my < mx)%positive).
      { apply Pos.gt_lt. unfold Pos.gt, Pos.compare. congruence. }
      lia.
    + rewrite Z.compare_gt_iff in E.
      rewrite Z.min_r by lia. rewrite Z.sub_diag, Z.pow_0_r.
      pose proof (bounded_gt_exponent _ _ _ _ Vx Vy E). lia. }
destruct (_ - _) as [|p|p]; try lia.
apply binary_normalize_pos.
Qed.

Lemma SFsub_eq x y :
SFcompare x y = Some Eq ->
sf_nonneg (SFsub prec emax x y) \/ SFsub prec emax y x = S754_nan.
Proof.
destruct x as [sx|sx| |sx mx ex], y as [sy|sy| |sy my ey]; simpl;
  intros H; try discriminate;
  try (destruct sx; discriminate);
  try (destruct sy; discriminate).
- left. destruct sx, sy; simpl; exact I.
- destruct sx, sy; try discriminate; right; reflexivity.
- left. destruct sx, sy; try discriminate.
  + destruct (ex ?= ey) eqn:E; try discriminate.
    apply Z.compare_eq in E. subst ey.
    assert (mx = my).
    { apply Pos.compare_eq. unfold Pos.compare.
      destruct (Pos.compare_cont Eq mx my); simpl in H; congruence. }
    subst my. cbv beta iota delta [cond_Zopp]. rewrite Z.sub_diag. simpl. exact I.
  + destruct (ex ?= ey) eqn:E; try discriminate.
    apply Z.compare_eq in E. subst ey.
    assert (mx = my).
    { apply Pos.compare_eq. unfold Pos.compare. congruence. }
    subst my. cbv beta iota delta [cond_Zopp]. rewrite Z.sub_diag. simpl. exact I.
Qed.

Lemma SFcompare_none_sub x y :
SFcompare x y = None -> SFsub prec emax y x = S754_nan.
Proof.
destruct x as [sx|sx| |sx mx ex], y as [sy|sy| |sy my ey]; simpl;
  try discriminate; try reflexivity;
  try (destruct sx; discriminate).
Qed.

Lemma SFltb_nan_r t : SFltb t S754_nan = false.
Proof. destruct t; reflexivity. Qed.

Lemma SFleb_zero_nonneg z :
sf_nonneg z -> SFleb (S754_zero false) z = true.
Proof.
destruct z as [s|s| |s m e]; simpl; intros H; try reflexivity;
  try contradiction; subst; reflexivity.
Qed.

Local Open Scope float_scope.

Lemma ltb_leb a b : (a <? b) = true -> (a <=? b) = true.
Proof.
rewrite FloatAxioms.ltb_spec, FloatAxioms.leb_spec. unfold SFltb, SFleb.
destruct (SFcompare _ _) as [[]|]; congruence.
Qed.

Lemma ltb_not_leb a b : (b <? a) = true -> (a <=? b) = false.
Proof.
rewrite FloatAxioms.ltb_spec, FloatAxioms.leb_spec. unfold SFltb, SFleb.
rewrite (SFcompare_antisym (Prim2SF b) (Prim2SF a)).
destruct (SFcompare _ _) as [[]|]; simpl; congruence.
Qed.

Lemma sub_nonneg_of_gt a b : (b <? a) = true -> (0 <=? a - b) = true.
Proof.
rewrite FloatAxioms.ltb_spec, FloatAxioms.leb_spec, sub_spec. unfold SFltb. intros H.
apply SFleb_zero_nonneg.
apply SFsub_gt_nonneg; try apply Prim2SF_valid.
rewrite (SFcompare_antisym (Prim2SF b) (Prim2SF a)).
destruct (SFcompare _ _) as [[]|]; simpl; congruence.
Qed.

Lemma sub_nonneg_of_not_gt r c thr :
(c <? r) = false -> (thr <? abs (r - c) / r) = true -> (0 <=? c - r) = true.
Proof.
rewrite !FloatAxioms.ltb_spec, FloatAxioms.leb_spec, div_spec, abs_spec, !sub_spec.
unfold SF64div, SF64sub. intros H1 H2.
assert (N : SFsub prec emax (Prim2SF r) (Prim2SF c) <> S754_nan).
{ intros E. rewrite E in H2. simpl in H2. rewrite SFltb_nan_r in H2. discriminate. }
apply SFleb_zero_nonneg.
unfold SFltb in H1.
destruct (SFcompare (Prim2SF c) (Prim2SF r)) as [[]|] eqn:E; try discriminate.
- destruct (SFsub_eq _ _ E); [assumption | contradiction].
- apply SFsub_gt_nonneg; auto using Prim2SF_valid.
- apply SFcompare_none_sub in E. contradiction.
Qed.

Lemma prim_zero : Prim2SF 0 = S754_zero false.
Proof. reflexivity. Qed.

(** [abs x] is not negative unless [x] is [NaN]. *)
Lemma abs_nonneg x : (x =? x) = true -> (0 <=? abs x) = true.
Proof.
rewrite FloatAxioms.eqb_spec, FloatAxioms.leb_spec, abs_spec. intros H.
apply SFleb_zero_nonneg.
destruct (Prim2SF x) as [s|s| |s m e]; simpl in *; try reflexivity; try exact I.
discriminate.
Qed.

Lemma gt_zero_nonneg x : (0 <? x) = true -> (0 <=? x) = true.
Proof. apply ltb_leb. Qed.

(** Division of a positive number by [+0] is [+Infinity], and subtracting
  [+0] changes nothing. *)
Lemma div_by_zero c :
(0 <? c) = true -> abs (0 - c) / 0 = infinity /\ c - 0 = c.
Proof.
rewrite FloatAxioms.ltb_spec. intros H.
split; apply Prim2SF_inj;
  rewrite ?div_spec, ?abs_spec, ?sub_spec; rewrite ?prim_zero in *;
  destruct (Prim2SF c) as [s|s| |s m e]; simpl in *; try discriminate;
  destruct s; try discriminate; reflexivity.
Qed.

End FloatFacts.

(* ===================================================================== *)
(** ** The two zeros                                                      *)
(* ===================================================================== *)

Module FloatZero.

Local Open Scope float_scope.

Lemma prim_neg_zero : Prim2SF neg_zero = S754_zero true.
Proof. reflexivity. Qed.

(** What [=== 0] is [+0] or [-0]. *)
Lemma eqb_zero_cases e : (e =? 0) = true -> e = 0 \/ e = neg_zero.
Proof.
  rewrite FloatAxioms.eqb_spec, FloatFacts.prim_zero. unfold SFeqb. intros H.
  destruct (Prim2SF e) as [s|s| |s m x] eqn:E; simpl in H;
    try discriminate; try (destruct s; discriminate).
  destruct s; [right | left]; apply Prim2SF_inj; rewrite E; reflexivity.
Qed.

(** Against a required hedge of [+0], a hedge whose absolute size is not
    above zero (it is [0] or [NaN]) has a deviation of [NaN], which is above
    no threshold. *)
Lemma no_deviation_pos_zero s thr :
  (0 <? abs s) = false -> (thr <? abs (0 - abs s) / 0) = false.
Proof.
  rewrite !FloatAxioms.ltb_spec, div_spec, !abs_spec, sub_spec, abs_spec,
    FloatFacts.prim_zero.
  unfold SF64div, SF64sub, SFltb.
  destruct (Prim2SF s) as [ss|ss| |ss ms es]; simpl; intros H;
    try discriminate;
    destruct (Prim2SF thr) as [st|st| |st mt et]; reflexivity.
Qed.

(** Against a required hedge of [-0] the deviation is [-Infinity] or
    [NaN], which is above no threshold. *)
Lemma no_deviation_neg_zero s thr :
  (thr <? abs (neg_zero - abs s) / neg_zero) = false.
Proof.
  rewrite FloatAxioms.ltb_spec, div_spec, !abs_spec, sub_spec, abs_spec,
    prim_neg_zero.
  unfold SF64div, SF64sub, SFltb.
  destruct (Prim2SF s) as [ss|ss| |ss ms es]; simpl;
    destruct (Prim2SF thr) as [st|st| |st mt et]; try reflexivity;
    destruct st; reflexivity.
Qed.

End FloatZero.

(* ===================================================================== *)
(** ** Printing and reading decimal digits                                *)
(* ===================================================================== *)

Module DecimalFacts.

Import JsNumber.
Local Open Scope Z_scope.

Lemma digit_of_digit_char d :
  0 <= d < 10 -> digit_of (digit_char d) = Some d.
Proof.
  intros H.
  assert (C : d = 0 \/ d = 1 \/ d = 2 \/ d = 3 \/ d = 4 \/ d = 5 \/ d = 6
              \/ d = 7 \/ d = 8 \/ d = 9) by lia.
  repeat (destruct C as [C|C]; [subst d; reflexivity|]).
  subst d. reflexivity.
Qed.

Lemma is_digit_digit_char d : 0 <= d < 10 -> is_digit (digit_char d) = true.
Proof. intros H. unfold is_digit. rewrite digit_of_digit_char by exact H. reflexivity. Qed.

Lemma all_digits_app s t :
  all_digits (s ++ t) = all_digits s && all_digits t.
Proof.
  induction s as [|c s IH]; simpl; [reflexivity|].
  rewrite IH, andb_assoc. reflexivity.
Qed.

Lemma length_append s t :
  String.length (s ++ t) = (String.length s + String.length t)%nat.
Proof. induction s as [|c s IH]; simpl; [reflexivity | rewrite IH; reflexivity]. Qed.

Lemma append_assoc (s t u : string) : ((s ++ t) ++ u = s ++ (t ++ u))%string.
Proof. induction s as [|c s IH]; simpl; [reflexivity | rewrite IH; reflexivity]. Qed.

Lemma decimal_val_app s t acc :
  all_digits s = true ->
  decimal_val acc (s ++ t) = decimal_val (decimal_val acc s) t.
Proof.
  revert acc. induction s as [|c s IH]; intros acc H; simpl in *; [reflexivity|].
  apply andb_prop in H. destruct H as [Hc Hs]. unfold is_digit in Hc.
  destruct (digit_of c); [apply IH, Hs | discriminate].
Qed.

(** The value of a string of digits read after [acc]. *)
Lemma decimal_val_shift s : forall acc,
  all_digits s = true ->
  decimal_val acc s = acc * 10 ^ Z.of_nat (String.length s) + decimal_val 0 s.
Proof.
  induction s as [|c s IH]; intros acc H.
  - simpl. lia.
  - simpl in H. apply andb_prop in H. destruct H as [Hc Hs].
    cbn [decimal_val String.length]. unfold is_digit in Hc.
    destruct (digit_of c) as [d|]; [|discriminate].
    rewrite (IH (10 * acc + d) Hs), (IH (10 * 0 + d) Hs).
    rewrite Nat2Z.inj_succ, Z.pow_succ_r by lia. ring.
Qed.

Lemma read_digits_app s : forall acc cnt rest,
  all_digits s = true -> stops rest ->
  read_digits acc cnt (s ++ rest)
  = (decimal_val acc s, (cnt + String.length s)%nat, rest).
Proof.
  induction s as [|c s IH]; intros acc cnt rest H St.
  - simpl. rewrite Nat.add_0_r.
    destruct rest as [|c r]; [reflexivity|]. simpl in *. rewrite St. reflexivity.
  - simpl in H. apply andb_prop in H. destruct H as [Hc Hs].
    cbn [append read_digits decimal_val String.length]. unfold is_digit in Hc.
    destruct (digit_of c) as [d|]; [|discriminate].
    rewrite (IH _ _ _ Hs St). f_equal. f_equal. lia.
Qed.

(** The digits printed for [n] are digits, denote [n], and have no
    leading zero. *)
Lemma digits_fuel_spec fuel : forall n acc,
  fuel <> O -> 0 <= n < 2 ^ Z.of_nat fuel ->
  exists s,
    digits_fuel fuel n acc = (s ++ acc)%string
    /\ all_digits s = true
    /\ decimal_val 0 s = n
    /\ (1 <= String.length s)%nat
    /\ (String.length s = 1%nat \/ 10 ^ (Z.of_nat (String.length s) - 1) <= n).
Proof.
  induction fuel as [|fuel IH]; intros n acc Hf Hn; [contradiction|].
  cbn [digits_fuel].
  pose proof (Z.mod_pos_bound n 10 ltac:(lia)) as Hm.
  pose proof (Z.div_mod n 10 ltac:(lia)) as Hd.
  destruct (n / 10 =? 0) eqn:E.
  - apply Z.eqb_eq in E. exists (String (digit_char (n mod 10)) "").
    split; [reflexivity|]. split; [|split; [|split]].
    + cbn [all_digits]. rewrite is_digit_digit_char by exact Hm. reflexivity.
    + cbn [decimal_val]. rewrite digit_of_digit_char by exact Hm. lia.
    + apply Nat.le_refl.
    + left. reflexivity.
  - apply Z.eqb_neq in E.
    assert (Hq : 0 <= n / 10 < 2 ^ Z.of_nat fuel).
    { split; [apply Z.div_pos; lia|].
      rewrite Nat2Z.inj_succ, Z.pow_succ_r in Hn by lia.
      apply Z.div_lt_upper_bound; lia. }
    assert (Hf' : fuel <> O).
    { intros ->. simpl in Hq. lia. }
    destruct (IH (n / 10) (String (digit_char (n mod 10)) acc) Hf' Hq)
      as (s & Hs & Ha & Hv & L & Hl).
    exists (s ++ String (digit_char (n mod 10)) "")%string.
    rewrite Hs, append_assoc. cbn [append]. split; [reflexivity|].
    split; [|split; [|split]].
    + rewrite all_digits_app, Ha. cbn [all_digits andb].
      rewrite is_digit_digit_char by exact Hm. reflexivity.
    + rewrite decimal_val_app by exact Ha. rewrite Hv. cbn [decimal_val].
      rewrite digit_of_digit_char by exact Hm. lia.
    + rewrite length_append. lia.
    + right. rewrite length_append. cbn [String.length].
      replace (Z.of_nat (String.length s + 1) - 1) with
        (Z.succ (Z.of_nat (String.length s) - 1)) by lia.
      rewrite Z.pow_succ_r by lia.
      destruct Hl as [Hl|Hl].
      * rewrite Hl. change (10 ^ (Z.of_nat 1 - 1)) with 1. lia.
      * lia.
Qed.

Lemma digits_of_Z_spec n :
  0 <= n ->
  all_digits (digits_of_Z n) = true
  /\ decimal_val 0 (digits_of_Z n) = n
  /\ (1 <= String.length (digits_of_Z n))%nat
  /\ (String.length (digits_of_Z n) = 1%nat
      \/ 10 ^ (Z.of_nat (String.length (digits_of_Z n)) - 1) <= n).
Proof.
  intros H. unfold digits_of_Z.
  destruct (digits_fuel_spec (S (Z.to_nat (Z.log2 n))) n "" ltac:(discriminate))
    as (s & Hs & R).
  - split; [exact H|].
    destruct (Z.eq_dec n 0) as [->|N]; [simpl; lia|].
    rewrite Nat2Z.inj_succ, Z2Nat.id by apply Z.log2_nonneg.
    apply Z.log2_spec. lia.
  - rewrite Hs.
    replace (s ++ "")%string with s; [exact R|].
    clear. induction s as [|c s IH]; simpl; [reflexivity | rewrite <- IH; reflexivity].
Qed.

Lemma digits_of_Z_nonempty n :
  0 <= n -> exists c r, digits_of_Z n = String c r /\ is_digit c = true.
Proof.
  intros H. destruct (digits_of_Z_spec n H) as (A & _ & L & _).
  destruct (digits_of_Z n) as [|c r].
  - simpl in L. lia.
  - simpl in A. apply andb_prop in A. exists c, r. split; [reflexivity | apply A].
Qed.

Lemma all_digits_zeros k : all_digits (zeros k) = true.
Proof. induction k as [|k IH]; simpl; [reflexivity | exact IH]. Qed.

Lemma decimal_val_zeros k s acc :
  decimal_val acc (zeros k ++ s) = decimal_val (acc * 10 ^ Z.of_nat k) s.
Proof.
  revert acc. induction k as [|k IH]; intros acc.
  - simpl. f_equal. lia.
  - cbn [zeros append decimal_val]. change (digit_of "0") with (Some 0).
    cbv iota. rewrite IH. f_equal. rewrite Nat2Z.inj_succ, Z.pow_succ_r by lia. ring.
Qed.

Lemma length_zeros k : String.length (zeros k) = k.
Proof. induction k as [|k IH]; simpl; [reflexivity | rewrite IH; reflexivity]. Qed.

(** Two digits for a number below 100. *)
Lemma pad_left_two r :
  0 <= r < 100 ->
  all_digits (pad_left 2 (digits_of_Z r)) = true
  /\ String.length (pad_left 2 (digits_of_Z r)) = 2%nat
  /\ forall acc, decimal_val acc (pad_left 2 (digits_of_Z r)) = acc * 100 + r.
Proof.
  intros H. destruct (digits_of_Z_spec r ltac:(lia)) as (A & V & L1 & L).
  assert (Len : (1 <= String.length (digits_of_Z r) <= 2)%nat).
  { split; [exact L1|].
    destruct L as [L|L]; [lia|].
    destruct (String.length (digits_of_Z r)) as [|[|[|k]]]; [lia | lia | lia |].
    exfalso.
    assert (P : 10 ^ 2 <= 10 ^ (Z.of_nat (S (S (S k))) - 1))
      by (apply Z.pow_le_mono_r; lia).
    change (10 ^ 2) with 100 in P. lia. }
  unfold pad_left. split; [|split].
  - rewrite all_digits_app, all_digits_zeros, A. reflexivity.
  - rewrite length_append, length_zeros. lia.
  - intros acc. rewrite decimal_val_zeros.
    rewrite (decimal_val_shift _ _ A), V.
    replace (acc * 10 ^ Z.of_nat (2 - String.length (digits_of_Z r))
             * 10 ^ Z.of_nat (String.length (digits_of_Z r)))
      with (acc * 10 ^ (Z.of_nat (2 - String.length (digits_of_Z r))
                        + Z.of_nat (String.length (digits_of_Z r)))).
    + replace (Z.of_nat (2 - String.length (digits_of_Z r))
               + Z.of_nat (String.length (digits_of_Z r))) with 2 by lia.
      change (10 ^ 2) with 100. reflexivity.
    + rewrite Z.pow_add_r by lia. ring.
Qed.

Lemma append_nil_r (s : string) : (s ++ "")%string = s.
Proof. induction s as [|c s IH]; simpl; [reflexivity | rewrite IH; reflexivity]. Qed.

Lemma read_digits_all s acc cnt :
  all_digits s = true ->
  read_digits acc cnt s = (decimal_val acc s, (cnt + String.length s)%nat, ""%string).
Proof.
  intros H. rewrite <- (append_nil_r s) at 1.
  apply read_digits_app; [exact H | exact I].
Qed.

(** A digit is not a space, not a sign and not the ["I"] of ["Infinity"]. *)
Lemma digit_head c r :
  is_digit c = true ->
  trim_left (String c r) = String c r
  /\ read_sign (String c r) = (false, String c r)
  /\ String.prefix "Infinity" (String c r) = false.
Proof.
  destruct c as [[] [] [] [] [] [] [] []]; intros H;
    try discriminate H; repeat split.
Qed.

(** Reading back digits, a point and digits, with or without a sign. *)
Lemma parseFloat_fixed (neg : bool) (D F : string) :
  all_digits D = true -> (1 <= String.length D)%nat -> all_digits F = true ->
  parseFloat ((if neg then "-" else "") ++ D ++ "." ++ F)
  = match (String.length D + String.length F)%nat with
    | O => PrimFloat.nan
    | _ => decimal_value neg (decimal_val (decimal_val 0 D) F)
             (- Z.of_nat (String.length F))
    end.
Proof.
  intros HD LD HF.
  destruct D as [|c D']; [simpl in LD; lia|].
  assert (Hc : is_digit c = true).
  { simpl in HD. apply andb_prop in HD. apply HD. }
  destruct (digit_head c (D' ++ String "." F) Hc) as (T & S & I).
  assert (E : read_sign (trim_left ((if neg then "-" else "") ++ String c D' ++ "." ++ F))
              = (neg, String c (D' ++ String "." F))).
  { destruct neg; cbn [append]; [reflexivity|]. rewrite T. exact S. }
  unfold parseFloat. rewrite E, I.
  change (String c (D' ++ String "." F)) with ((String c D') ++ (String "." F))%string.
  rewrite (read_digits_app (String c D') 0 0%nat (String "." F) HD eq_refl).
  rewrite (read_digits_all F _ 0%nat HF).
  cbn [Nat.add read_exponent]. rewrite Z.sub_0_l. reflexivity.
Qed.

Lemma scaled_nonneg m e p : 0 <= p -> 0 <= scaled m e p.
Proof.
  intros H. unfold scaled. destruct e as [|k|k].
  - rewrite Z.pow_0_r. lia.
  - pose proof (Z.pow_pos_nonneg 2 (Zpos k) ltac:(lia) ltac:(lia)). nia.
  - apply Z.div_pos.
    + pose proof (Z.pow_pos_nonneg 2 (Zpos k) ltac:(lia) ltac:(lia)). nia.
    + apply Z.pow_pos_nonneg; lia.
Qed.

(** [parseFloat(x.toFixed(2))] is [x] rounded to two decimals, below the
    magnitude at which [toFixed] changes notation. *)
Lemma parseFloat_toFixed_2 (x : float) :
  PrimFloat.leb 1e21 (PrimFloat.abs x) = false ->
  parseFloat (toFixed x 2) = roundedTo2Decimals x.
Proof.
  intros Hsmall. unfold toFixed, roundedTo2Decimals.
  destruct (Prim2SF x) as [s|s| |s m e] eqn:E.
  - reflexivity.
  - rewrite <- (SF2Prim_Prim2SF x), E. destruct s; reflexivity.
  - rewrite <- (SF2Prim_Prim2SF x), E. reflexivity.
  - rewrite Hsmall. cbv zeta. change (10 ^ Z.of_nat 2) with 100.
    pose proof (scaled_nonneg m e 100 ltac:(lia)) as Hn.
    set (n := scaled m e 100) in *.
    pose proof (Z.div_mod n 100 ltac:(lia)) as Hdm.
    pose proof (Z.mod_pos_bound n 100 ltac:(lia)) as Hr.
    assert (Hq : 0 <= n / 100) by (apply Z.div_pos; lia).
    destruct (digits_of_Z_spec (n / 100) Hq) as (Aq & Vq & Lq & _).
    destruct (pad_left_two (n mod 100) Hr) as (Ar & Lr & Vr).
    rewrite (parseFloat_fixed s _ _ Aq Lq Ar).
    rewrite Lr, Vr, Vq.
    replace (String.length (digits_of_Z (n / 100)) + 2)%nat
      with (S (String.length (digits_of_Z (n / 100)) + 1)) by lia.
    cbv iota. f_equal. lia.
Qed.

End DecimalFacts.

(* ===================================================================== *)
(** ** Facts about computations                                           *)
(* ===================================================================== *)

Module EffectFacts.

Import Effects.
Local Open Scope Z_scope.

Lemma steps_refl ok w : steps ok w w.
Proof.
  split; [lia|]. exists []. rewrite app_nil_r. split; reflexivity.
Qed.

Lemma steps_trans ok a b c : steps ok a b -> steps ok b c -> steps ok a c.
Proof.
  intros [T1 (e1 & H1 & F1)] [T2 (e2 & H2 & F2)].
  split; [lia|]. exists (e1 ++ e2)%list.
  rewrite H2, H1, app_assoc, forallb_app, F1, F2. split; reflexivity.
Qed.

Lemma steps_weaken (ok ok' : Event -> bool) w w' :
  (forall ev, ok ev = true -> ok' ev = true) -> steps ok w w' -> steps ok' w w'.
Proof.
  intros W [T (evs & H & F)]. split; [exact T|]. exists evs. split; [exact H|].
  rewrite forallb_forall in *. auto.
Qed.

Lemma steps_one ok w ev t :
  0 <= t -> ok ev = true ->
  steps ok w {| now := now w + t; history := (history w ++ [ev])%list |}.
Proof.
  intros T F. split; simpl; [lia|]. exists [ev]. simpl. rewrite F. auto.
Qed.

Lemma steps_events ok w w' :
  steps ok w w' ->
  history w' = (history w ++ eventsSince w w')%list
  /\ forallb ok (eventsSince w w') = true.
Proof.
  intros [_ (evs & H & F)]. unfold eventsSince.
  rewrite H, skipn_app, skipn_all, Nat.sub_diag. simpl. auto.
Qed.

Lemma keeps_weaken (ok ok' : Event -> bool) {A} (m : M A) :
  (forall ev, ok ev = true -> ok' ev = true) -> keeps ok m -> keeps ok' m.
Proof. intros W K w. eapply steps_weaken; eauto. Qed.

Section Keeps.

Variable ok : Event -> bool.

Lemma keeps_ret {A} (a : A) : keeps ok (ret a).
Proof. intros w. apply steps_refl. Qed.

Lemma keeps_throw {A} e : keeps ok (@throw A e).
Proof. intros w. apply steps_refl. Qed.

Lemma keeps_lift {A} (o : Outcome A) : keeps ok (lift o).
Proof. intros w. apply steps_refl. Qed.

Lemma keeps_dateNow : keeps ok dateNow.
Proof. intros w. apply steps_refl. Qed.

Lemma keeps_bind {A B} (m : M A) (k : A -> M B) :
  keeps ok m -> (forall a, keeps ok (k a)) -> keeps ok (bind m k).
Proof.
  intros Km Kk w. unfold bind. specialize (Km w).
  destruct (m w) as [[a|e] w1]; simpl in *; [|exact Km].
  eapply steps_trans; [exact Km | apply Kk].
Qed.

Lemma keeps_tryCatch {A} (m : M A) (h : JsError -> M A) :
  keeps ok m -> (forall e, keeps ok (h e)) -> keeps ok (tryCatch m h).
Proof.
  intros Km Kh w. unfold tryCatch. specialize (Km w).
  destruct (m w) as [[a|e] w1]; simpl in *; [exact Km|].
  eapply steps_trans; [exact Km | apply Kh].
Qed.

Lemma keeps_mapM {A B} (f : A -> M B) (l : list A) :
  (forall a, keeps ok (f a)) -> keeps ok (mapM f l).
Proof.
  intros Kf. induction l as [|x l IH]; simpl.
  - apply keeps_ret.
  - apply keeps_bind; [apply Kf|]. intros y.
    apply keeps_bind; [exact IH|]. intros ys. apply keeps_ret.
Qed.

Lemma keeps_sleep ms : 0 <= ms -> ok (Slept ms) = true -> keeps ok (sleep ms).
Proof. intros T F w. apply steps_one; assumption. Qed.

End Keeps.

Lemma returns_ret {A} (a : A) : returns (ret a).
Proof. intros w. exists a, w. reflexivity. Qed.

Lemma returns_bind {A B} (m : M A) (k : A -> M B) :
  returns m -> (forall a, returns (k a)) -> returns (bind m k).
Proof.
  intros Rm Rk w. unfold bind.
  destruct (Rm w) as (a & w1 & ->). apply Rk.
Qed.

(** A [try] whose [catch] block returns never throws. *)
Lemma returns_tryCatch {A} (m : M A) (h : JsError -> M A) :
  (forall e, returns (h e)) -> returns (tryCatch m h).
Proof.
  intros Rh w. unfold tryCatch.
  destruct (m w) as [[a|e] w1]; [exists a, w1; reflexivity | apply Rh].
Qed.

End EffectFacts.

Create HintDb keeps discriminated.
#[export] Hint Resolve EffectFacts.keeps_ret EffectFacts.keeps_throw
  EffectFacts.keeps_lift EffectFacts.keeps_dateNow : keeps.

(** One step through the structure of a computation. *)
Ltac keeps_step :=
  lazymatch goal with
  | |- keeps _ (Effects.bind _ _) => apply EffectFacts.keeps_bind; [|intros ?]
  | |- keeps _ (Effects.tryCatch _ _) => apply EffectFacts.keeps_tryCatch; [|intros ?]
  | |- keeps _ (Effects.ret _) => apply EffectFacts.keeps_ret
  | |- keeps _ (Effects.throw _) => apply EffectFacts.keeps_throw
  | |- keeps _ (Effects.lift _) => apply EffectFacts.keeps_lift
  | |- keeps _ Effects.dateNow => apply EffectFacts.keeps_dateNow
  | |- keeps _ (match ?x with _ => _ end) => destruct x
  | |- keeps _ (let _ := _ in _) => cbv zeta
  end.

Ltac keeps_auto := repeat keeps_step; eauto with keeps.

(* ===================================================================== *)
(** ** Facts about the exchange client                                    *)
(* ===================================================================== *)

Module ClientFacts.

Import Effects EffectFacts HyperliquidClient.
Local Open Scope Z_scope.

Lemma backoffMs_nonneg k : 0 <= backoffMs k.
Proof.
  unfold backoffMs. apply Z.min_glb; [|lia].
  apply Z.mul_nonneg_nonneg; [lia|]. apply Z.pow_nonneg. lia.
Qed.

Lemma app_inv_prefix (p a b : string) : (p ++ a)%string = (p ++ b)%string -> a = b.
Proof.
  induction p as [|c p IH]; simpl; intros H; [exact H|].
  injection H as H. auto.
Qed.

Section Client.

Variable P : Platform.
Variable config : Config.

(** One call of [fetch] adds one event and some time. *)
Lemma fetch_world req w :
  exists t, 0 <= t /\ snd (fetch P req w) = fetched req t w.
Proof.
  unfold fetch, fetched. destruct (venue P (history w) req) as [elapsed reply].
  destruct (30000 <? Z.of_N elapsed).
  - exists 30000. split; [lia | reflexivity].
  - exists (Z.of_N elapsed). split; [lia | reflexivity].
Qed.

(** One attempt is one call of [fetch]. *)
Lemma attemptOnce_world req w :
  exists t, 0 <= t /\ snd (attemptOnce P req w) = fetched req t w.
Proof.
  destruct (fetch_world req w) as (t & T & H). exists t. split; [exact T|].
  unfold attemptOnce, bind. destruct (fetch P req w) as [[r|e] w1]; simpl in *.
  - destruct (negb (resp_ok r)).
    + unfold lift. destruct (resp_text r); exact H.
    + unfold lift. destruct (resp_json r) as [[]|]; exact H.
  - exact H.
Qed.

(** An attempt that returns does not return [null]. *)
Lemma attemptOnce_not_null req w v w1 :
  attemptOnce P req w = (Returned v, w1) -> v <> JNull.
Proof.
  unfold attemptOnce, bind. destruct (fetch P req w) as [[r|e] w0]; [|discriminate].
  destruct (negb (resp_ok r)).
  - unfold lift. destruct (resp_text r); discriminate.
  - unfold lift. destruct (resp_json r) as [[]|]; try discriminate;
      intros H; injection H as <- _; discriminate.
Qed.

Lemma attemptLoop_not_null req retries remaining : forall attempt last w v w1,
  attemptLoop P req retries remaining attempt last w = (Returned v, w1) ->
  v <> JNull.
Proof.
  induction remaining as [|rem IH]; intros attempt last w v w1; simpl.
  - unfold throw. discriminate.
  - unfold tryCatch. destruct (attemptOnce P req w) as [[v0|e] w0] eqn:E.
    + intros H. injection H as <- _. eapply attemptOnce_not_null, E.
    + destruct (isNetworkError e && (attempt <? retries)%nat).
      * unfold bind, sleep. apply IH.
      * unfold throw. discriminate.
Qed.

Lemma makeRequest_not_null endpoint mth data retries w v w1 :
  makeRequest P config endpoint mth data retries w = (Returned v, w1) ->
  v <> JNull.
Proof.
  unfold makeRequest, bind at 1.
  match goal with |- context [match ?m w with _ => _ end] => destruct (m w) as [[hs|e] w0] end;
    [|discriminate].
  apply attemptLoop_not_null.
Qed.

Section Events.

Variable ok : Event -> bool.
Hypothesis ok_sleep : forall ms, ok (Slept ms) = true.

Lemma keeps_fetch req : ok (Fetched req) = true -> keeps ok (fetch P req).
Proof.
  intros F w. destruct (fetch_world req w) as (t & T & ->).
  apply steps_one; assumption.
Qed.

Lemma keeps_attemptOnce req : ok (Fetched req) = true -> keeps ok (attemptOnce P req).
Proof.
  intros F w. destruct (attemptOnce_world req w) as (t & T & ->).
  apply steps_one; assumption.
Qed.

Lemma keeps_attemptLoop req retries remaining :
  ok (Fetched req) = true ->
  forall attempt last, keeps ok (attemptLoop P req retries remaining attempt last).
Proof.
  intros F. induction remaining as [|rem IH]; intros attempt last; simpl.
  - apply keeps_throw.
  - apply keeps_tryCatch; [apply keeps_attemptOnce, F|]. intros e.
    destruct (isNetworkError e && (attempt <? retries)%nat); [|apply keeps_throw].
    apply keeps_bind; [|intros _; apply IH].
    apply keeps_sleep; [apply backoffMs_nonneg | apply ok_sleep].
Qed.

Lemma keeps_makeRequest endpoint mth data retries :
  (forall r, url r = (apiEndpoint config ++ endpoint)%string ->
             method r = mth -> ok (Fetched r) = true) ->
  keeps ok (makeRequest P config endpoint mth data retries).
Proof.
  intros F. unfold makeRequest.
  apply keeps_bind.
  - destruct mth; [apply keeps_ret|]. destruct data as [d|]; [|apply keeps_ret].
    unfold generateNonce, signRequest. keeps_auto.
  - intros hs. apply keeps_attemptLoop. apply F; reflexivity.
Qed.

Lemma keeps_findMarket markets c : keeps ok (findMarket markets c).
Proof.
  induction markets as [|m rest IH]; simpl; [apply keeps_ret|].
  apply keeps_bind; [apply keeps_lift|]. intros v.
  destruct (JsValues.strict_eq_string v c); [apply keeps_ret | exact IH].
Qed.

Lemma keeps_getMarketData c :
  (forall r, url r = (apiEndpoint config ++ "/market/data")%string ->
             method r = GET -> ok (Fetched r) = true) ->
  keeps ok (getMarketData P config c).
Proof.
  intros F. unfold getMarketData.
  apply keeps_tryCatch; [|intros e; apply keeps_throw].
  apply keeps_bind; [apply keeps_makeRequest, F|]. intros response.
  apply keeps_bind; [apply keeps_lift|]. intros markets.
  apply keeps_bind.
  - destruct markets as [[]|]; try apply keeps_throw. apply keeps_findMarket.
  - intros cd. keeps_auto.
Qed.

Lemma keeps_parsePosition pos : keeps ok (parsePosition pos).
Proof. unfold parsePosition. keeps_auto. Qed.

Lemma keeps_getPositions :
  (forall r, url r = (apiEndpoint config ++ "/user/positions")%string ->
             method r = GET -> ok (Fetched r) = true) ->
  keeps ok (getPositions P config).
Proof.
  intros F. unfold getPositions.
  apply keeps_tryCatch; [|intros e; apply keeps_throw].
  apply keeps_bind; [apply keeps_makeRequest, F|]. intros response.
  apply keeps_bind; [apply keeps_lift|]. intros positions.
  destruct positions as [[| | | |[|row rows]|]|]; try apply keeps_ret.
  apply keeps_mapM. intros pos. apply keeps_parsePosition.
Qed.

Lemma keeps_getPosition c :
  (forall r, url r = (apiEndpoint config ++ "/user/positions")%string ->
             method r = GET -> ok (Fetched r) = true) ->
  keeps ok (getPosition P config c).
Proof.
  intros F. unfold getPosition.
  apply keeps_tryCatch; [|intros e; apply keeps_throw].
  apply keeps_bind; [apply keeps_getPositions, F|]. intros l. apply keeps_ret.
Qed.

Lemma keeps_orderResponse o response : keeps ok (orderResponse o response).
Proof. unfold orderResponse. keeps_auto. Qed.

Lemma keeps_placeOrder o :
  (forall r, url r = (apiEndpoint config ++ "/trade")%string ->
             method r = POST -> ok (Fetched r) = true) ->
  keeps ok (placeOrder P config o).
Proof.
  intros F. unfold placeOrder.
  apply keeps_tryCatch; [|intros e; apply keeps_ret].
  apply keeps_bind; [apply keeps_makeRequest, F|]. intros response.
  apply keeps_orderResponse.
Qed.

Lemma keeps_closePosition c :
  (forall r, url r = (apiEndpoint config ++ "/user/positions")%string ->
             method r = GET -> ok (Fetched r) = true) ->
  (forall r, url r = (apiEndpoint config ++ "/trade")%string ->
             method r = POST -> ok (Fetched r) = true) ->
  keeps ok (closePosition P config c).
Proof.
  intros F G. unfold closePosition.
  apply keeps_bind; [apply keeps_getPosition, F|]. intros [p|]; [|apply keeps_ret].
  destruct (JsNumber.strict_eq (size p) 0); [apply keeps_ret|].
  apply keeps_placeOrder, G.
Qed.

End Events.

(** [placeOrder] converts every exception into a result. *)
Lemma returns_placeOrder o : returns (placeOrder P config o).
Proof.
  unfold placeOrder. apply returns_tryCatch. intros e. apply returns_ret.
Qed.

End Client.

End ClientFacts.

(* ===================================================================== *)
(** ** The hedge decision engine                                          *)
(* ===================================================================== *)

Section DecisionEngine.

Import JsNumber Calculations.
Local Open Scope float_scope.

(** The three tests of [determineHedgeAction] on an existing hedge. *)
Lemma determineHedgeAction_tests :
  determineHedgeAction (Fixtures.lpWith 120 100 200) (Some Fixtures.hedgePosition) 0.1 10
    = {| action := INCREASE_SHORT; sizeChange := 20 |}
  /\ determineHedgeAction (Fixtures.lpWith 80 100 200) (Some Fixtures.hedgePosition) 0.1 10
    = {| action := DECREASE_SHORT; sizeChange := 20 |}
  /\ determineHedgeAction Fixtures.lpPosition (Some Fixtures.hedgePosition) 0.1 10
    = {| action := NO_ACTION; sizeChange := 0 |}.
Proof. repeat split; vm_compute; reflexivity. Qed.

(** C4. With a nonzero total value and an existing hedge, the decision is
    the rebalance rule: with [deviation = abs(required - current) /
    required] and [current = abs(size)], a deviation above the threshold
    gives [INCREASE_SHORT] by [required - current] when [required >
    current] and [DECREASE_SHORT] by [current - required] otherwise; a
    deviation not above the threshold gives [NO_ACTION] with size change
    [0].  Exposure 120, 80 and 100 against a hedge of 100 at threshold 0.1
    give [INCREASE_SHORT] 20, [DECREASE_SHORT] 20 and [NO_ACTION]. *)
Theorem rebalance_rule (lp : LPPosition) (h : HyperliquidPosition)
    (thr p : float) (Hvalue : strict_eq (totalValueUSD lp) 0 = false) :
  (let required := token0Exposure lp in
   let current := abs (size h) in
   let deviation := abs (required - current) / required in
   determineHedgeAction lp (Some h) thr p =
     if gtb deviation thr then
       if gtb required current
       then {| action := INCREASE_SHORT; sizeChange := required - current |}
       else {| action := DECREASE_SHORT; sizeChange := current - required |}
     else {| action := NO_ACTION; sizeChange := 0 |})
  /\ determineHedgeAction (Fixtures.lpWith 120 100 200)
       (Some Fixtures.hedgePosition) 0.1 10
     = {| action := INCREASE_SHORT; sizeChange := 20 |}
  /\ determineHedgeAction (Fixtures.lpWith 80 100 200)
       (Some Fixtures.hedgePosition) 0.1 10
     = {| action := DECREASE_SHORT; sizeChange := 20 |}
  /\ determineHedgeAction Fixtures.lpPosition
       (Some Fixtures.hedgePosition) 0.1 10
     = {| action := NO_ACTION; sizeChange := 0 |}.
Proof.
  split; [|exact determineHedgeAction_tests].
  cbv zeta. unfold determineHedgeAction, calculateRequiredHedgeSize.
  rewrite Hvalue. reflexivity.
Qed.

Lemma rebalance_rule_witness :
  strict_eq (totalValueUSD (Fixtures.lpWith 120 100 200)) 0 = false
  /\ determineHedgeAction (Fixtures.lpWith 120 100 200)
       (Some Fixtures.hedgePosition) 0.1 10
     = {| action := INCREASE_SHORT; sizeChange := 120 - abs (-100) |}.
Proof.
  split; [reflexivity|].
  exact (proj1 (rebalance_rule (Fixtures.lpWith 120 100 200)
                  Fixtures.hedgePosition 0.1 10 eq_refl)).
Defined.

(** C1, as stated, fails: a position whose token0 exposure is 0 but whose
    total value is not (all of it in token1) is not closed.  With a hedge
    of 100 the deviation is [100 / 0 = Infinity] and the decision is
    [DECREASE_SHORT] 100; without a hedge it is [NO_ACTION]. *)
Lemma zero_exposure_not_closed :
  strict_eq (token0Exposure (Fixtures.lpWith 0 100 100)) 0 = true
  /\ determineHedgeAction (Fixtures.lpWith 0 100 100)
       (Some Fixtures.hedgePosition) 0.1 10
     = {| action := DECREASE_SHORT; sizeChange := 100 |}
  /\ determineHedgeAction (Fixtures.lpWith 0 100 100) None 0.1 10
     = {| action := NO_ACTION; sizeChange := 0 |}
  /\ action (determineHedgeAction (Fixtures.lpWith 0 100 100)
               (Some Fixtures.hedgePosition) 0.1 10) <> CLOSE_POSITIONS.
Proof.
  repeat split; try (vm_compute; reflexivity).
  vm_compute. discriminate.
Qed.

(** C1, amended.  The rule that closes positions looks at the total value
    of the position: when [totalValueUSD === 0] the decision is
    [CLOSE_POSITIONS] with the absolute size of the hedge ([0] without a
    hedge).  A token0 exposure of 0 alone never closes, and the division by
    the required hedge is not guarded.  With a nonzero total value and an
    exposure that [=== 0] (it is [+0] or [-0]; [1 / exposure > 0] tells
    [+0] from [-0]):
    - without a hedge the decision is [NO_ACTION] with size change [0];
    - with a hedge, when the exposure is [+0], the absolute size of the
      hedge is above 0 (the size is a number other than 0) and the
      threshold is below [Infinity], the deviation is [Infinity] and the
      decision is [DECREASE_SHORT] by the whole absolute size of the hedge;
    - with a hedge in every other case (an exposure of [-0], where the
      deviation is [-Infinity] or [NaN]; a size of [0] or [NaN]; a threshold
      that is [Infinity] or [NaN]) the decision is [NO_ACTION] with size
      change [0]. *)
Theorem close_on_zero_total_value (lp : LPPosition)
    (h : option HyperliquidPosition) (thr p : float) :
  (strict_eq (totalValueUSD lp) 0 = true ->
   determineHedgeAction lp h thr p =
     {| action := CLOSE_POSITIONS;
        sizeChange := match h with Some hp => abs (size hp) | None => 0 end |})
  /\ (strict_eq (totalValueUSD lp) 0 = false ->
      strict_eq (token0Exposure lp) 0 = true ->
      (token0Exposure lp = 0 \/ token0Exposure lp = neg_zero)
      /\ determineHedgeAction lp h thr p =
           match h with
           | Some hp =>
               if gtb (1 / token0Exposure lp) 0
                  && gtb (abs (size hp)) 0
                  && (thr <? infinity)
               then {| action := DECREASE_SHORT; sizeChange := abs (size hp) |}
               else {| action := NO_ACTION; sizeChange := 0 |}
           | None => {| action := NO_ACTION; sizeChange := 0 |}
           end
      /\ action (determineHedgeAction lp h thr p) <> CLOSE_POSITIONS).
Proof.
  split.
  - intros H. unfold determineHedgeAction. rewrite H. reflexivity.
  - intros H E.
    pose proof (FloatZero.eqb_zero_cases _ E) as Z.
    assert (D : determineHedgeAction lp h thr p =
                match h with
                | Some hp =>
                    if gtb (1 / token0Exposure lp) 0
                       && gtb (abs (size hp)) 0
                       && (thr <? infinity)
                    then {| action := DECREASE_SHORT; sizeChange := abs (size hp) |}
                    else {| action := NO_ACTION; sizeChange := 0 |}
                | None => {| action := NO_ACTION; sizeChange := 0 |}
                end).
    { unfold determineHedgeAction, calculateRequiredHedgeSize. rewrite H.
      destruct h as [hp|]; cbn [andb]; cbv zeta.
      - destruct Z as [-> | ->].
        + change (gtb (1 / 0) 0) with true. cbn [andb].
          destruct (gtb (abs (size hp)) 0) eqn:G; cbn [andb].
          * destruct (FloatFacts.div_by_zero _ G) as [Hdiv Hsub].
            rewrite Hdiv, Hsub. unfold gtb at 1.
            replace (gtb 0 (abs (size hp))) with false; [reflexivity|].
            symmetry. unfold gtb in *.
            pose proof (FloatFacts.ltb_not_leb _ _ G) as N.
            destruct (abs (size hp) <? 0) eqn:L; [|reflexivity].
            apply FloatFacts.ltb_leb in L. congruence.
          * unfold gtb in *. rewrite (FloatZero.no_deviation_pos_zero _ _ G).
            reflexivity.
        + change (gtb (1 / neg_zero) 0) with false. cbn [andb].
          unfold gtb at 1. rewrite FloatZero.no_deviation_neg_zero. reflexivity.
      - destruct Z as [-> | ->]; reflexivity. }
    split; [exact Z|]. split; [exact D|].
    rewrite D. destruct h as [hp|]; [|discriminate].
    destruct (gtb (1 / token0Exposure lp) 0 && gtb (abs (size hp)) 0
              && (thr <? infinity)); discriminate.
Qed.

Lemma close_on_zero_total_value_witness :
  determineHedgeAction (Fixtures.lpWith 0 0 0) (Some Fixtures.hedgePosition) 0.1 10
    = {| action := CLOSE_POSITIONS; sizeChange := abs (-100) |}
  /\ determineHedgeAction (Fixtures.lpWith 0 100 100)
       (Some Fixtures.hedgePosition) 0.1 10
     = {| action := DECREASE_SHORT; sizeChange := abs (-100) |}
  /\ determineHedgeAction (Fixtures.lpWith neg_zero 100 100)
       (Some Fixtures.hedgePosition) 0.1 10
     = {| action := NO_ACTION; sizeChange := 0 |}
  /\ determineHedgeAction (Fixtures.lpWith 0 100 100)
       (Some (Fixtures.hedgeWith nan)) 0.1 10
     = {| action := NO_ACTION; sizeChange := 0 |}.
Proof.
  split; [|split; [|split]].
  - exact (proj1 (close_on_zero_total_value (Fixtures.lpWith 0 0 0)
                    (Some Fixtures.hedgePosition) 0.1 10) eq_refl).
  - exact (proj1 (proj2 (proj2 (close_on_zero_total_value (Fixtures.lpWith 0 100 100)
                                  (Some Fixtures.hedgePosition) 0.1 10)
                           eq_refl eq_refl))).
  - exact (proj1 (proj2 (proj2 (close_on_zero_total_value
                                  (Fixtures.lpWith neg_zero 100 100)
                                  (Some Fixtures.hedgePosition) 0.1 10)
                           eq_refl eq_refl))).
  - exact (proj1 (proj2 (proj2 (close_on_zero_total_value (Fixtures.lpWith 0 100 100)
                                  (Some (Fixtures.hedgeWith nan)) 0.1 10)
                           eq_refl eq_refl))).
Defined.

(** C9, as stated, fails: a hedge whose size is [NaN] (a row whose [size]
    does not parse) on a position of total value 0 gives the size change
    [abs(NaN) = NaN], and [NaN >= 0] is false. *)
Lemma size_change_not_a_number :
  sizeChange (determineHedgeAction (Fixtures.lpWith 0 0 0)
                (Some (Fixtures.hedgeWith nan)) 0.1 10) = nan
  /\ geb (sizeChange (determineHedgeAction (Fixtures.lpWith 0 0 0)
                        (Some (Fixtures.hedgeWith nan)) 0.1 10)) 0 = false.
Proof. split; vm_compute; reflexivity. Qed.

(** C9, amended.  The size change returned by [determineHedgeAction] is
    greater than or equal to 0 for every position, every threshold and
    every hedge (or none), with one exception: a position whose
    [totalValueUSD === 0] together with a hedge whose size is [NaN], where
    the size change is [NaN].  In particular it is [>= 0] for every input
    with a nonzero total value, a [NaN] size included. *)
Theorem size_change_nonneg (lp : LPPosition)
    (h : option HyperliquidPosition) (thr p : float) :
  ((strict_eq (totalValueUSD lp) 0 = true ->
    match h with Some hp => isNaN (size hp) = false | None => True end) ->
   geb (sizeChange (determineHedgeAction lp h thr p)) 0 = true)
  /\ (strict_eq (totalValueUSD lp) 0 = true ->
      forall hp, h = Some hp -> isNaN (size hp) = true ->
      sizeChange (determineHedgeAction lp h thr p) = nan
      /\ geb (sizeChange (determineHedgeAction lp h thr p)) 0 = false).
Proof.
  split.
  - intros Hsize.
    unfold geb, determineHedgeAction, calculateRequiredHedgeSize, gtb, strict_eq in *.
    destruct (totalValueUSD lp =? 0).
    + specialize (Hsize eq_refl).
      destruct h as [hp|]; simpl; [|reflexivity].
      apply FloatFacts.abs_nonneg. unfold isNaN in Hsize.
      destruct (size hp =? size hp); [reflexivity | discriminate].
    + destruct h as [hp|]; cbn [andb]; cbv zeta.
      * destruct (thr <? _) eqn:Hdev; [|reflexivity].
        destruct (abs (size hp) <? token0Exposure lp) eqn:Hgt; simpl.
        -- apply FloatFacts.sub_nonneg_of_gt, Hgt.
        -- eapply FloatFacts.sub_nonneg_of_not_gt; eassumption.
      * destruct (0 <? token0Exposure lp) eqn:Hpos; simpl; [|reflexivity].
        apply FloatFacts.ltb_leb, Hpos.
  - intros H hp -> N.
    unfold determineHedgeAction. rewrite H. cbn [sizeChange].
    assert (E : size hp = nan).
    { apply Prim2SF_inj. unfold isNaN in N. apply Bool.negb_true_iff in N.
      rewrite FloatAxioms.eqb_spec in N. unfold SFeqb in N.
      destruct (Prim2SF (size hp)) as [s|s| |s m e]; simpl in N;
        try reflexivity; try (destruct s; discriminate).
      rewrite Z.compare_refl, Pos.compare_cont_refl in N.
      destruct s; discriminate. }
    rewrite E. split; reflexivity.
Qed.

Lemma size_change_nonneg_witness :
  geb (sizeChange (determineHedgeAction (Fixtures.lpWith (-50) 100 50)
                     (Some Fixtures.hedgePosition) (-5) 10)) 0 = true
  /\ geb (sizeChange (determineHedgeAction (Fixtures.lpWith 100 100 200)
                        (Some (Fixtures.hedgeWith nan)) 0.1 10)) 0 = true
  /\ geb (sizeChange (determineHedgeAction (Fixtures.lpWith 0 0 0)
                        (Some (Fixtures.hedgeWith nan)) 0.1 10)) 0 = false.
Proof.
  split; [|split].
  - apply (proj1 (size_change_nonneg (Fixtures.lpWith (-50) 100 50)
                    (Some Fixtures.hedgePosition) (-5) 10)).
    intros H. vm_compute in H. discriminate H.
  - apply (proj1 (size_change_nonneg (Fixtures.lpWith 100 100 200)
                    (Some (Fixtures.hedgeWith nan)) 0.1 10)).
    intros H. vm_compute in H. discriminate H.
  - exact (proj2 (proj2 (size_change_nonneg (Fixtures.lpWith 0 0 0)
                           (Some (Fixtures.hedgeWith nan)) 0.1 10)
                    eq_refl (Fixtures.hedgeWith nan) eq_refl eq_refl)).
Defined.

(** C6. [calculateDeviation] returns 100 (for a positive exposure) or 0
    (otherwise) when the hedge size is 0 or smaller than [1e-6] in
    magnitude, and otherwise [abs(exposure - hedgeSize) / hedgeSize * 100]
    rounded to two decimals: the binary64 number nearest to the nearest
    hundredth of its exact value (above [1e21], where [toFixed] changes
    notation, what [parseFloat] reads back from [toFixed(2)]).  On the six
    tested inputs it returns 0, 10, 10, 100, 0 and 100. *)
Theorem deviation_report (exposure hedgeSize : float) :
  calculateDeviation exposure hedgeSize =
    (if (hedgeSize =? 0) || (abs hedgeSize <? 0.000001)
     then (if 0 <? exposure then 100 else 0)
     else
       if 1e21 <=? abs (abs (exposure - hedgeSize) / hedgeSize * 100)
       then parseFloat (toFixed (abs (exposure - hedgeSize) / hedgeSize * 100) 2)
       else roundedTo2Decimals (abs (exposure - hedgeSize) / hedgeSize * 100))
  /\ calculateDeviation 100 100 = 0
  /\ calculateDeviation 110 100 = 10
  /\ calculateDeviation 90 100 = 10
  /\ calculateDeviation 100 0 = 100
  /\ calculateDeviation 0 0 = 0
  /\ calculateDeviation 100 0.000000001 = 100.
Proof.
  split.
  - unfold calculateDeviation, strict_eq, gtb.
    destruct ((hedgeSize =? 0) || (abs hedgeSize <? 0.000001)); [reflexivity|].
    destruct (1e21 <=? abs (abs (exposure - hedgeSize) / hedgeSize * 100)) eqn:L;
      [reflexivity|].
    apply DecimalFacts.parseFloat_toFixed_2, L.
  - repeat split; vm_compute; reflexivity.
Qed.

End DecisionEngine.

(* ===================================================================== *)
(** ** The request loop of the exchange client                            *)
(* ===================================================================== *)

Module RequestLoop.

Import Effects EffectFacts HyperliquidClient ClientFacts.
Local Open Scope Z_scope.

Section Loop.

Variable P : Platform.
Variable req : Request.
Variable retries : nat.

(** An attempt that returns ends the loop with its result. *)
Lemma attemptLoop_success remaining attempt last w v w1 :
  attemptOnce P req w = (Returned v, w1) ->
  attemptLoop P req retries (S remaining) attempt last w = (Returned v, w1).
Proof. intros H. simpl. unfold tryCatch. rewrite H. reflexivity. Qed.

(** The [catch] block: wait and go on, or rethrow. *)
Lemma attemptLoop_failure remaining attempt last w e w1 :
  attemptOnce P req w = (Thrown e, w1) ->
  attemptLoop P req retries (S remaining) attempt last w =
    if isNetworkError e && (attempt <? retries)%nat
    then attemptLoop P req retries remaining (S attempt) (Some e)
           (slept (backoffMs attempt) w1)
    else (Thrown e, w1).
Proof.
  intros H. simpl. unfold tryCatch. rewrite H.
  destruct (isNetworkError e && (attempt <? retries)%nat); reflexivity.
Qed.

Lemma fetchCount_app a b : fetchCount (a ++ b) = (fetchCount a + fetchCount b)%nat.
Proof. unfold fetchCount. rewrite filter_app, length_app. reflexivity. Qed.

Lemma sleepsOf_app a b : sleepsOf (a ++ b) = (sleepsOf a ++ sleepsOf b)%list.
Proof. unfold sleepsOf. apply flat_map_app. Qed.

Lemma eventsSince_app w w' evs :
  history w' = (history w ++ evs)%list -> eventsSince w w' = evs.
Proof.
  intros H. unfold eventsSince.
  rewrite H, skipn_app, skipn_all, Nat.sub_diag. reflexivity.
Qed.

(** The loop calls [fetch] at most once per remaining iteration. *)
Lemma attemptLoop_fetches remaining : forall attempt last w,
  exists evs,
    history (snd (attemptLoop P req retries remaining attempt last w))
      = (history w ++ evs)%list
    /\ (fetchCount evs <= remaining)%nat.
Proof.
  induction remaining as [|rem IH]; intros attempt last w.
  - exists []. simpl. rewrite app_nil_r. split; [reflexivity | apply Nat.le_refl].
  - destruct (attemptOnce_world P req w) as (t & _ & Hw).
    destruct (attemptOnce P req w) as [[v|e] w1] eqn:E; simpl in Hw; subst w1.
    + rewrite (attemptLoop_success _ _ _ _ _ _ E). simpl.
      exists [Fetched req]. split; [reflexivity|]. cbn. lia.
    + rewrite (attemptLoop_failure _ _ _ _ _ _ E).
      destruct (isNetworkError e && (attempt <? retries)%nat).
      * destruct (IH (S attempt) (Some e) (slept (backoffMs attempt) (fetched req t w)))
          as (evs & H & C).
        exists ([Fetched req; Slept (backoffMs attempt)] ++ evs)%list.
        rewrite H. simpl. rewrite <- !app_assoc. simpl. split; [reflexivity|].
        unfold fetchCount in *. simpl. lia.
      * simpl. exists [Fetched req]. split; [reflexivity|]. cbn. lia.
Qed.

(** When every attempt fails with a network error, the loop makes all its
    attempts, waits between them, and throws the error of the last one. *)
Lemma attemptLoop_exhausted :
  (forall w, exists e w1,
      attemptOnce P req w = (Thrown e, w1) /\ isNetworkError e = true) ->
  forall remaining attempt last w,
    (attempt + remaining = retries)%nat ->
    exists e wl w',
      attemptLoop P req retries (S remaining) attempt last w = (Thrown e, w')
      /\ attemptOnce P req wl = (Thrown e, w')
      /\ isNetworkError e = true
      /\ exists evs,
           history w' = (history w ++ evs)%list
           /\ fetchCount evs = S remaining
           /\ sleepsOf evs = map backoffMs (seq attempt remaining).
Proof.
  intros Hall. induction remaining as [|rem IH]; intros attempt last w Hinv.
  - destruct (Hall w) as (e & w1 & E & N).
    exists e, w, w1. rewrite (attemptLoop_failure _ _ _ _ _ _ E), N.
    replace (attempt <? retries)%nat with false
      by (symmetry; apply Nat.ltb_ge; lia).
    repeat split; auto.
    destruct (attemptOnce_world P req w) as (t & _ & Hw).
    rewrite E in Hw. simpl in Hw. subst w1.
    exists [Fetched req]. repeat split.
  - destruct (Hall w) as (e & w1 & E & N).
    rewrite (attemptLoop_failure _ _ _ _ _ _ E), N.
    replace (attempt <? retries)%nat with true
      by (symmetry; apply Nat.ltb_lt; lia).
    simpl andb. cbv iota.
    destruct (IH (S attempt) (Some e) (slept (backoffMs attempt) w1) ltac:(lia))
      as (e' & wl & w' & L & A & N' & evs & H & C & S).
    exists e', wl, w'. repeat split; auto.
    destruct (attemptOnce_world P req w) as (t & _ & Hw).
    rewrite E in Hw. simpl in Hw. subst w1.
    exists ([Fetched req; Slept (backoffMs attempt)] ++ evs)%list.
    rewrite H. simpl. rewrite <- !app_assoc. simpl. repeat split.
    + unfold fetchCount in *. simpl. lia.
    + f_equal. exact S.
Qed.

End Loop.

(** A signing failure is rethrown before the loop is entered. *)
Lemma makeRequest_signing_failure P config endpoint d e retries w :
  hmac_sha256_hex P (signingKey config)
    (JsString.of_Z (now w) ++ JSON_stringify P d) = Thrown e ->
  makeRequest P config endpoint POST (Some d) retries w =
    (Thrown (mkError ("Request signing failed: " ++ message e)), w).
Proof.
  intros H.
  unfold makeRequest, bind, generateNonce, bind, dateNow, ret, tryCatch,
    signRequest, lift.
  rewrite H. reflexivity.
Qed.

End RequestLoop.

Section ClientClaims.

Import Effects EffectFacts HyperliquidClient ClientFacts RequestLoop.
Local Open Scope Z_scope.

(** C2, as stated, fails: an HTTP 504 whose body is the text
    "upstream request timeout" is not fatal.  Its error message contains
    "timeout", so the attempt is classified as a network error: the client
    waits 1000 ms, asks again, and returns the second answer. *)
Lemma http_error_retried :
  makeRequest Fixtures.gatewayTimeoutThenAnswer
    Fixtures.config "/market/data" GET None 3 Fixtures.world0
  = (Returned Fixtures.tradeAccepted,
     {| now := 1700000001100;
        history := [Fetched (Fixtures.getRequest Fixtures.marketUrl);
                    Slept 1000;
                    Fetched (Fixtures.getRequest Fixtures.marketUrl)] |})
  /\ isNetworkError (mkError "API error: 504 - upstream request timeout") = true.
Proof. split; vm_compute; reflexivity. Qed.

(** C2, amended.  In the request loop an error is retried only when it is a
    [TypeError] or its message contains "network", "abort" or "timeout" (and
    attempts remain); any other error aborts the request at once, with no
    wait and no further attempt.  So an HTTP non-2xx response is fatal when
    its error text "API error: <status> - <body>" contains none of the three
    words, a [null] body is always fatal, and a signing error is thrown
    before any attempt is made. *)
Theorem fatal_errors_abort (P : Platform) (config : Config) (req : Request)
    (retries remaining attempt : nat) (last : option JsError) (w : World) :
  (* any error that is not a network error *)
  (forall e w1,
      attemptOnce P req w = (Thrown e, w1) ->
      attemptLoop P req retries (S remaining) attempt last w =
        if (isTypeError e
            || JsString.includes (message e) "network"
            || JsString.includes (message e) "abort"
            || JsString.includes (message e) "timeout")
           && (attempt <? retries)%nat
        then attemptLoop P req retries remaining (S attempt) (Some e)
               (slept (backoffMs attempt) w1)
        else (Thrown e, w1))
  (* HTTP non-2xx *)
  /\ (forall t r text,
         venue P (history w) req = (t, Responds r) -> Z.of_N t <= 30000 ->
         resp_ok r = false -> resp_text r = Returned text ->
         let e := mkError ("API error: " ++ JsString.of_nat (resp_status r)
                             ++ " - " ++ text) in
         isNetworkError e = false ->
         attemptLoop P req retries (S remaining) attempt last w =
           (Thrown e, fetched req (Z.of_N t) w))
  (* null body *)
  /\ (forall t r,
         venue P (history w) req = (t, Responds r) -> Z.of_N t <= 30000 ->
         resp_ok r = true -> resp_json r = Returned JNull ->
         attemptLoop P req retries (S remaining) attempt last w =
           (Thrown (mkError "API returned null or undefined response"),
            fetched req (Z.of_N t) w))
  (* signing error *)
  /\ (forall endpoint d e,
         hmac_sha256_hex P (signingKey config)
           (JsString.of_Z (now w) ++ JSON_stringify P d) = Thrown e ->
         makeRequest P config endpoint POST (Some d) retries w =
           (Thrown (mkError ("Request signing failed: " ++ message e)), w)).
Proof.
  split; [|split; [|split]].
  - intros e w1 H. rewrite (attemptLoop_failure _ _ _ _ _ _ _ _ _ H). reflexivity.
  - intros t r text V T K X e N.
    assert (A : attemptOnce P req w = (Thrown e, fetched req (Z.of_N t) w)).
    { unfold attemptOnce, bind, fetch. rewrite V.
      replace (30000 <? Z.of_N t) with false by (symmetry; apply Z.ltb_ge; lia).
      rewrite K. simpl. unfold lift. rewrite X. reflexivity. }
    rewrite (attemptLoop_failure _ _ _ _ _ _ _ _ _ A), N. reflexivity.
  - intros t r V T K J.
    assert (A : attemptOnce P req w =
                (Thrown (mkError "API returned null or undefined response"),
                 fetched req (Z.of_N t) w)).
    { unfold attemptOnce, bind, fetch. rewrite V.
      replace (30000 <? Z.of_N t) with false by (symmetry; apply Z.ltb_ge; lia).
      rewrite K. simpl. unfold lift. rewrite J. reflexivity. }
    rewrite (attemptLoop_failure _ _ _ _ _ _ _ _ _ A). reflexivity.
  - intros endpoint d e H. apply makeRequest_signing_failure, H.
Qed.

Lemma fatal_errors_abort_witness :
  attemptLoop Fixtures.serverErrorThenNull Fixtures.marketRequest 3 3 1 None
    Fixtures.world0
    = (Thrown (mkError "API error: 500 - Internal Server Error"),
       fetched Fixtures.marketRequest 50 Fixtures.world0)
  /\ attemptLoop Fixtures.serverErrorThenNull Fixtures.marketRequest 3 3 1 None
       (fetched Fixtures.marketRequest 50 Fixtures.world0)
     = (Thrown (mkError "API returned null or undefined response"),
        fetched Fixtures.marketRequest 50
          (fetched Fixtures.marketRequest 50 Fixtures.world0))
  /\ makeRequest Fixtures.badKey Fixtures.config "/trade" POST
       (Some (orderRequestData Fixtures.badKey Fixtures.sellOrder))
       3 Fixtures.world0
     = (Thrown (mkError
          "Request signing failed: The key argument must be of type string"),
        Fixtures.world0).
Proof.
  split; [|split].
  - exact (proj1 (proj2 (fatal_errors_abort Fixtures.serverErrorThenNull
                           Fixtures.config Fixtures.marketRequest 3 2 1 None
                           Fixtures.world0))
             50%N _ "Internal Server Error" eq_refl ltac:(vm_compute; discriminate)
             eq_refl eq_refl eq_refl).
  - exact (proj1 (proj2 (proj2 (fatal_errors_abort Fixtures.serverErrorThenNull
                                  Fixtures.config Fixtures.marketRequest 3 2 1 None
                                  (fetched Fixtures.marketRequest 50 Fixtures.world0))))
             50%N _ eq_refl ltac:(vm_compute; discriminate) eq_refl eq_refl).
  - exact (proj2 (proj2 (proj2 (fatal_errors_abort Fixtures.badKey Fixtures.config
                                  Fixtures.marketRequest 3 2 1 None Fixtures.world0)))
             "/trade" _ _ eq_refl).
Defined.

(** C5. In the request loop a network error on attempt [k < retries] is
    followed by a wait of [min(1000 * 2^(k-1), 10000)] ms and then by
    attempt [k + 1]; at most [retries] attempts are made; an attempt that
    succeeds ends the loop with its result; when every attempt fails with a
    network error, all [retries] attempts are made and the error of the
    last one is thrown; and two network errors followed by a success return
    the success after waits of 1000 and 2000 ms, at least 3000 ms after the
    start. *)
Theorem retry_with_backoff (P : Platform) (req : Request) (retries : nat) :
  (forall remaining attempt last w e w1,
      attemptOnce P req w = (Thrown e, w1) ->
      isNetworkError e = true ->
      (attempt < retries)%nat ->
      attemptLoop P req retries (S remaining) attempt last w =
        attemptLoop P req retries remaining (S attempt) (Some e)
          (slept (Z.min (1000 * 2 ^ (Z.of_nat attempt - 1)) 10000) w1))
  /\ (forall w,
         (fetchCount
            (eventsSince w (snd (attemptLoop P req retries retries 1 None w)))
          <= retries)%nat)
  /\ (forall remaining attempt last w v w1,
         attemptOnce P req w = (Returned v, w1) ->
         attemptLoop P req retries (S remaining) attempt last w = (Returned v, w1))
  /\ ((0 < retries)%nat ->
      (forall w, exists e w1,
          attemptOnce P req w = (Thrown e, w1) /\ isNetworkError e = true) ->
      forall w, exists e wl w',
        attemptLoop P req retries retries 1 None w = (Thrown e, w')
        /\ attemptOnce P req wl = (Thrown e, w')
        /\ isNetworkError e = true
        /\ fetchCount (eventsSince w w') = retries
        /\ sleepsOf (eventsSince w w') = map backoffMs (seq 1 (retries - 1)))
  /\ (forall w e1 w1 e2 w2 v w3,
         (3 <= retries)%nat ->
         attemptOnce P req w = (Thrown e1, w1) -> isNetworkError e1 = true ->
         attemptOnce P req (slept 1000 w1) = (Thrown e2, w2) ->
         isNetworkError e2 = true ->
         attemptOnce P req (slept 2000 w2) = (Returned v, w3) ->
         attemptLoop P req retries retries 1 None w = (Returned v, w3)
         /\ sleepsOf (eventsSince w w3) = [1000; 2000]
         /\ now w + (1000 + 2000) <= now w3).
Proof.
  split; [|split; [|split; [|split]]].
  - intros remaining attempt last w e w1 E N L.
    rewrite (attemptLoop_failure _ _ _ _ _ _ _ _ _ E), N.
    replace (attempt <? retries)%nat with true by (symmetry; apply Nat.ltb_lt; lia).
    reflexivity.
  - intros w.
    destruct (attemptLoop_fetches P req retries retries 1 None w) as (evs & H & C).
    rewrite (eventsSince_app _ _ _ H). exact C.
  - intros remaining attempt last w v w1 E.
    apply attemptLoop_success, E.
  - intros Hpos Hall w.
    destruct retries as [|n]; [lia|].
    destruct (attemptLoop_exhausted P req (S n) Hall n 1%nat None w ltac:(lia))
      as (e & wl & w' & L & A & N & evs & H & C & Sl).
    exists e, wl, w'. rewrite (eventsSince_app _ _ _ H).
    replace (S n - 1)%nat with n by lia. auto.
  - intros w e1 w1 e2 w2 v w3 Hr E1 N1 E2 N2 E3.
    destruct retries as [|[|[|n]]]; try lia.
    rewrite (attemptLoop_failure _ _ _ _ _ _ _ _ _ E1), N1. simpl andb. cbv iota.
    change (backoffMs 1) with 1000.
    rewrite (attemptLoop_failure _ _ _ _ _ _ _ _ _ E2), N2. simpl andb. cbv iota.
    change (backoffMs 2) with 2000.
    rewrite (attemptLoop_success _ _ _ _ _ _ _ _ _ E3).
    destruct (attemptOnce_world P req w) as (t1 & T1 & H1).
    destruct (attemptOnce_world P req (slept 1000 w1)) as (t2 & T2 & H2).
    destruct (attemptOnce_world P req (slept 2000 w2)) as (t3 & T3 & H3).
    rewrite E1 in H1. rewrite E2 in H2. rewrite E3 in H3. simpl in H1, H2, H3.
    subst w3 w2 w1. split; [reflexivity|]. split.
    + rewrite (eventsSince_app _ _
                 [Fetched req; Slept 1000; Fetched req; Slept 2000; Fetched req]);
        [reflexivity|].
      simpl. rewrite <- !app_assoc. reflexivity.
    + simpl. lia.
Qed.

Lemma retry_with_backoff_witness :
  (exists w', attemptLoop Fixtures.twiceOffline Fixtures.marketRequest 3 3 1 None
                Fixtures.world0 = (Returned Fixtures.tradeAccepted, w')
              /\ sleepsOf (eventsSince Fixtures.world0 w') = [1000; 2000]
              /\ now Fixtures.world0 + (1000 + 2000) <= now w')
  /\ (exists e wl w', attemptLoop Fixtures.offline Fixtures.marketRequest 3 3 1 None
                        Fixtures.world0 = (Thrown e, w')
                      /\ attemptOnce Fixtures.offline Fixtures.marketRequest wl
                         = (Thrown e, w')
                      /\ isNetworkError e = true
                      /\ fetchCount (eventsSince Fixtures.world0 w') = 3%nat
                      /\ sleepsOf (eventsSince Fixtures.world0 w')
                         = map backoffMs (seq 1 (3 - 1))).
Proof.
  split.
  - eexists.
    exact (proj2 (proj2 (proj2 (proj2
             (retry_with_backoff Fixtures.twiceOffline Fixtures.marketRequest 3))))
             Fixtures.world0 _ _ _ _ _ _ (le_n 3) eq_refl eq_refl eq_refl eq_refl eq_refl).
  - refine (proj1 (proj2 (proj2 (proj2
             (retry_with_backoff Fixtures.offline Fixtures.marketRequest 3))))
             (le_S _ _ (le_S _ _ (le_n 1))) _ Fixtures.world0).
    intros w. eexists. eexists. split; reflexivity.
Defined.

(** C7. [placeOrder] never throws: whatever the request does, it returns
    a response tagged "success" or "error".  A request that throws (no
    connection, time-out, HTTP error, signing failure) becomes the response
    [{status: 'error', error: message}] carrying the message of the
    exception; an answer of the venue whose [status] is not "success"
    becomes [{status: 'error', error}] carrying the venue's [error] (or
    "Unknown error"), so that venue and transport failures come back in the
    same shape; an answer whose [status] is "success" becomes
    [{status: 'success', order, id}].  A signing failure in particular
    gives the "error" response "Request signing failed: ..." without any
    request being sent. *)
Theorem placeOrder_never_throws (P : Platform) (config : Config)
    (o : HyperliquidOrder) (w : World) :
  (exists r w',
      placeOrder P config o w = (Returned r, w')
      /\ match makeRequest P config "/trade" POST
                 (Some (orderRequestData P o)) 3 w with
         | (Thrown e, w1) =>
             w' = w1
             /\ r = {| status := error_status; order := None; order_id := None;
                       order_error := Some (JStr (message e)) |}
         | (Returned response, w1) =>
             w' = w1
             /\ exists st,
                  JsValues.get (Some response) "status" = Returned st
                  /\ if JsValues.strict_eq_string st "success"
                     then exists id,
                            JsValues.get (Some response) "id" = Returned id
                            /\ r = {| status := success_status; order := Some o;
                                      order_id := id; order_error := None |}
                     else exists err,
                            JsValues.get (Some response) "error" = Returned err
                            /\ r = {| status := error_status; order := None;
                                      order_id := None;
                                      order_error :=
                                        if JsValues.truthy err then err
                                        else Some (JStr "Unknown error") |}
                            /\ JsValues.truthy (order_error r) = true
         end)
  /\ match hmac_sha256_hex P (signingKey config)
             (JsString.of_Z (now w) ++ JSON_stringify P (orderRequestData P o)) with
     | Thrown e =>
         placeOrder P config o w =
           (Returned {| status := error_status; order := None; order_id := None;
                        order_error :=
                          Some (JStr ("Request signing failed: " ++ message e)) |},
            w)
     | Returned _ => True
     end.
Proof.
  split.
  - unfold placeOrder, tryCatch, bind at 1.
    destruct (makeRequest P config "/trade" POST (Some (orderRequestData P o)) 3 w)
      as [[response|e] w1] eqn:E.
    + pose proof (makeRequest_not_null _ _ _ _ _ _ _ _ _ E) as NN.
      assert (G : forall k, exists v, JsValues.get (Some response) k = Returned v).
      { intros k. destruct response; try contradiction; eexists; reflexivity. }
      destruct (G "status") as (st & Hst).
      destruct (G "id") as (id & Hid).
      destruct (G "error") as (err & Herr).
      unfold orderResponse, bind, lift, ret. rewrite Hst.
      destruct (JsValues.strict_eq_string st "success") eqn:S.
      * rewrite Hid. eexists; eexists. split; [reflexivity|].
        split; [reflexivity|]. exists st. split; [reflexivity|]. rewrite S.
        exists id. split; reflexivity.
      * rewrite Herr. eexists; eexists. split; [reflexivity|].
        split; [reflexivity|]. exists st. split; [reflexivity|]. rewrite S.
        exists err. split; [reflexivity|]. split; [reflexivity|].
        cbn [order_error]. unfold JsValues.or_else.
        destruct (JsValues.truthy err) eqn:T; [exact T | reflexivity].
    + eexists; eexists. split; [reflexivity|]. split; reflexivity.
  - destruct (hmac_sha256_hex P _ _) as [sig|e] eqn:H; [exact I|].
    unfold placeOrder, tryCatch, bind at 1.
    rewrite (makeRequest_signing_failure _ _ _ _ _ _ _ H). reflexivity.
Qed.

End ClientClaims.

(* ===================================================================== *)
(** ** The action executor                                                *)
(* ===================================================================== *)

Module ControllerFacts.

Import Effects EffectFacts ClientFacts HedgeController.
Local Open Scope Z_scope.

Lemma get_notOrder r : method r = GET -> notOrder (Fetched r) = true.
Proof. intros H. unfold notOrder. simpl. rewrite H. reflexivity. Qed.

Lemma other_endpoint_notMarketData config endpoint r :
  endpoint <> "/market/data" ->
  url r = (HyperliquidClient.apiEndpoint config ++ endpoint)%string ->
  notMarketData config (Fetched r) = true.
Proof.
  intros N H. unfold notMarketData. simpl. rewrite H.
  destruct (String.eqb_spec
              (HyperliquidClient.apiEndpoint config ++ endpoint)
              (HyperliquidClient.apiEndpoint config ++ "/market/data")) as [E|E];
    [|reflexivity].
  apply app_inv_prefix in E. contradiction.
Qed.

Section Controller.

Variable P : Platform.
Variable config : Config.

Section Events.

Variable ok : Event -> bool.
Hypothesis ok_sleep : forall ms, ok (Slept ms) = true.
Hypothesis ok_get : forall r, method r = GET -> ok (Fetched r) = true.

Lemma keeps_marketDataOrFallback : keeps ok (getMarketData P config).
Proof.
  unfold getMarketData. apply keeps_tryCatch; [|intros e; apply keeps_ret].
  apply ClientFacts.keeps_getMarketData; auto.
Qed.

Lemma keeps_getHedgePosition : keeps ok (getHedgePosition P config).
Proof.
  unfold getHedgePosition. apply keeps_tryCatch; [|intros e; apply keeps_ret].
  apply ClientFacts.keeps_getPosition; auto.
Qed.

Lemma keeps_checkFundingRate : keeps ok (checkFundingRate P config).
Proof.
  unfold checkFundingRate. apply keeps_tryCatch; [|intros e; apply keeps_ret].
  apply keeps_bind; [apply keeps_marketDataOrFallback|]. intros md. apply keeps_ret.
Qed.

End Events.

Lemma returns_getMarketData : returns (getMarketData P config).
Proof.
  unfold getMarketData. apply returns_tryCatch. intros e. apply returns_ret.
Qed.

Lemma returns_getHedgePosition : returns (getHedgePosition P config).
Proof.
  unfold getHedgePosition. apply returns_tryCatch. intros e. apply returns_ret.
Qed.

(** The controller's market data is the client's, or the fallback. *)
Lemma getMarketData_fallback w e w' :
  HyperliquidClient.getMarketData P config (ticker config) w = (Thrown e, w') ->
  getMarketData P config w =
    (Returned {| md_coin := ticker config; price := 0; fundingRate := 0 |}, w').
Proof.
  intros H. unfold getMarketData, tryCatch. rewrite H. reflexivity.
Qed.

Lemma checkFundingRate_eq w md w' :
  getMarketData P config w = (Returned md, w') ->
  checkFundingRate P config w =
    (Returned (Calculations.isFundingRateAcceptable (fundingRate md)
                 (fundingTolerance config)), w').
Proof.
  intros H. unfold checkFundingRate, tryCatch, bind. rewrite H. reflexivity.
Qed.

(** An [ExecutionResult] literal. *)
Lemma result_eq ok a d e w :
  result ok a d e w =
    (Returned {| success := ok; result_action := a; details := d; error := e;
                 timestamp := now w |}, w).
Proof. reflexivity. Qed.

(** The orders: every fetch is a [POST] to [/trade] or a read of the
    positions, never a read of the market data. *)
Lemma reduceShortPosition_notMarketData sz :
  keeps (notMarketData config)
    (HyperliquidClient.reduceShortPosition P config (ticker config) sz).
Proof.
  apply ClientFacts.keeps_placeOrder; [reflexivity|].
  intros r U _. eapply other_endpoint_notMarketData; [|exact U]. discriminate.
Qed.

Lemma openShortPosition_notMarketData sz :
  keeps (notMarketData config)
    (HyperliquidClient.openShortPosition P config (ticker config) sz).
Proof.
  apply ClientFacts.keeps_placeOrder; [reflexivity|].
  intros r U _. eapply other_endpoint_notMarketData; [|exact U]. discriminate.
Qed.

Lemma closePosition_notMarketData :
  keeps (notMarketData config)
    (HyperliquidClient.closePosition P config (ticker config)).
Proof.
  apply ClientFacts.keeps_closePosition; [reflexivity| |];
    intros r U _; (eapply other_endpoint_notMarketData; [|exact U]); discriminate.
Qed.

End Controller.

End ControllerFacts.

Section ExecutorClaims.

Import Effects EffectFacts ClientFacts ControllerFacts HedgeController.
Import JsNumber Calculations.
Local Open Scope Z_scope.

Variable P : Platform.
Variable config : Config.

(** [updateHedgePosition] once the two reads have returned. *)
Lemma updateHedgePosition_after_reads lp w hedge w1 md w2 :
  getHedgePosition P config w = (Returned hedge, w1) ->
  getMarketData P config w1 = (Returned md, w2) ->
  updateHedgePosition P config lp w =
    tryCatch
      (executeAction P config
         (action (determineHedgeAction lp hedge (rebalanceThreshold config)
                    (price md)))
         (sizeChange (determineHedgeAction lp hedge (rebalanceThreshold config)
                        (price md))))
      (fun error => result false NO_ACTION None (Some (JStr (message error))))
      w2.
Proof.
  intros Hh Hm. unfold updateHedgePosition, updateHedgePositionTry, tryCatch, bind.
  rewrite Hh, Hm. reflexivity.
Qed.

Lemma notOrder_sleep ms : notOrder (Slept ms) = true.
Proof. reflexivity. Qed.

Lemma notMarketData_sleep ms : notMarketData config (Slept ms) = true.
Proof. reflexivity. Qed.

(** C3. When the decision is [INCREASE_SHORT] and the funding rate read by
    the check has [abs(fundingRate) > fundingTolerance], the executor returns
    a failed result and no order has been placed.  When the decision is
    [DECREASE_SHORT] or [CLOSE_POSITIONS], the order call is made right
    after the two reads, whatever the funding rate: the result is that of
    the order call, and the market data is not read again. *)
Theorem funding_gate (lp : LPPosition) (w : World)
    (hedge : option HyperliquidPosition) (w1 : World)
    (md : HyperliquidMarketData) (w2 : World)
    (Hhedge : getHedgePosition P config w = (Returned hedge, w1))
    (Hmarket : getMarketData P config w1 = (Returned md, w2)) :
  let decision :=
    determineHedgeAction lp hedge (rebalanceThreshold config) (price md) in
  (action decision = INCREASE_SHORT ->
   forall md' w3,
     getMarketData P config w2 = (Returned md', w3) ->
     gtb (abs (fundingRate md')) (fundingTolerance config) = true ->
     updateHedgePosition P config lp w = (Returned (fundingSkipped (now w3)), w3)
     /\ forallb notOrder (eventsSince w w3) = true)
  /\ (action decision = DECREASE_SHORT ->
      exists r w3,
        HyperliquidClient.reduceShortPosition P config (ticker config)
          (sizeChange decision) w2 = (Returned r, w3)
        /\ updateHedgePosition P config lp w =
             orderResult DECREASE_SHORT r
               ("Decreased short position by "
                  ++ toFixed (sizeChange decision) 2 ++ " USD")
               "Unknown error decreasing short position" w3
        /\ forallb (notMarketData config) (eventsSince w2 w3) = true)
  /\ (action decision = CLOSE_POSITIONS ->
      exists w3,
        match HyperliquidClient.closePosition P config (ticker config) w2 with
        | (Returned r, w') =>
            w' = w3
            /\ updateHedgePosition P config lp w =
                 orderResult CLOSE_POSITIONS r
                   ("Closed all positions for " ++ ticker config)
                   "Unknown error closing positions" w3
        | (Thrown e, w') =>
            w' = w3
            /\ updateHedgePosition P config lp w =
                 (Returned (executionFailure e (now w3)), w3)
        end
        /\ forallb (notMarketData config) (eventsSince w2 w3) = true).
Proof.
  intros decision.
  rewrite (updateHedgePosition_after_reads lp _ _ _ _ _ Hhedge Hmarket).
  fold decision. split; [|split].
  - intros Ha md' w3 Hcheck Hgt. split.
    + unfold tryCatch. rewrite Ha. unfold executeAction, bind.
      rewrite (checkFundingRate_eq _ _ _ _ _ Hcheck).
      unfold isFundingRateAcceptable.
      rewrite (FloatFacts.ltb_not_leb _ _ Hgt). reflexivity.
    + pose proof (keeps_getHedgePosition P config notOrder notOrder_sleep
                    get_notOrder w) as S1.
      pose proof (keeps_marketDataOrFallback P config notOrder notOrder_sleep
                    get_notOrder w1) as S2.
      pose proof (keeps_marketDataOrFallback P config notOrder notOrder_sleep
                    get_notOrder w2) as S3.
      rewrite Hhedge in S1. rewrite Hmarket in S2. rewrite Hcheck in S3.
      simpl in S1, S2, S3.
      exact (proj2 (steps_events _ _ _
                      (steps_trans _ _ _ _ (steps_trans _ _ _ _ S1 S2) S3))).
  - intros Ha.
    destruct (returns_placeOrder P config
                {| order_coin := ticker config; order_side := BUY;
                   order_size := sizeChange decision; order_price := None;
                   orderType := MARKET; reduceOnly := true |} w2) as (r & w3 & E).
    exists r, w3. split; [exact E|]. split.
    + unfold tryCatch. rewrite Ha. unfold executeAction, bind.
      unfold HyperliquidClient.reduceShortPosition. rewrite E.
      unfold orderResult. destruct (status r); reflexivity.
    + pose proof (reduceShortPosition_notMarketData P config (sizeChange decision) w2) as S.
      unfold HyperliquidClient.reduceShortPosition in S. rewrite E in S.
      exact (proj2 (steps_events _ _ _ S)).
  - intros Ha.
    pose proof (closePosition_notMarketData P config w2) as S.
    destruct (HyperliquidClient.closePosition P config (ticker config) w2)
      as [[r|e] w3] eqn:E; exists w3; simpl in S.
    + split; [|exact (proj2 (steps_events _ _ _ S))].
      split; [reflexivity|].
      unfold tryCatch. rewrite Ha. unfold executeAction, bind. rewrite E.
      unfold orderResult. destruct (status r); reflexivity.
    + split; [|exact (proj2 (steps_events _ _ _ S))].
      split; [reflexivity|].
      unfold tryCatch. rewrite Ha. unfold executeAction, bind. rewrite E.
      reflexivity.
Qed.

Lemma stamped_result ok a d e :
  (ok = false ->
   e <> None
   \/ (a = INCREASE_SHORT
       /\ d = Some "Funding rate exceeds tolerance. Skipping hedge increase."
       /\ e = None)) ->
  stamped (result ok a d e).
Proof.
  intros H w r w' E. rewrite result_eq in E. injection E as <- <-. simpl.
  split; [reflexivity|]. intros F. destruct (H F) as [N|(-> & -> & ->)].
  - left. exact N.
  - right. subst ok. reflexivity.
Qed.

Lemma stamped_bind {A} (m : M A) (k : A -> M ExecutionResult) :
  (forall a, stamped (k a)) -> stamped (bind m k).
Proof.
  intros K w r w'. unfold bind.
  destruct (m w) as [[a|e] w1]; [apply K | discriminate].
Qed.

Lemma stamped_tryCatch (m : M ExecutionResult) h :
  stamped m -> (forall e, stamped (h e)) -> stamped (tryCatch m h).
Proof.
  intros Sm Sh w r w'. unfold tryCatch.
  destruct (m w) as [[a|e] w1] eqn:E; [|apply Sh].
  intros H. injection H as <- <-. eapply Sm, E.
Qed.

Lemma stamped_orderResult a r done unknown :
  stamped (orderResult a r done unknown).
Proof.
  unfold orderResult. destruct (status r); apply stamped_result.
  - discriminate.
  - intros _. left. unfold JsValues.or_else.
    destruct (JsValues.truthy (order_error r)) eqn:T; [|discriminate].
    destruct (order_error r); [discriminate | discriminate T].
Qed.

Lemma stamped_executeAction a sz : stamped (executeAction P config a sz).
Proof.
  destruct a; simpl.
  - apply stamped_bind. intros b. destruct (negb b).
    + apply stamped_result. intros _. right. auto.
    + apply stamped_bind. intros r. apply stamped_orderResult.
  - apply stamped_bind. intros r. apply stamped_orderResult.
  - apply stamped_result. discriminate.
  - apply stamped_bind. intros r. apply stamped_orderResult.
Qed.

Lemma stamped_updateHedgePositionTry lp :
  stamped (updateHedgePositionTry P config lp).
Proof.
  unfold updateHedgePositionTry.
  apply stamped_bind. intros hedge. apply stamped_bind. intros md.
  apply stamped_executeAction.
Qed.

Lemma anyEvent_placeOrder o : keeps anyEvent (HyperliquidClient.placeOrder P config o).
Proof. apply ClientFacts.keeps_placeOrder; reflexivity. Qed.

(** The clock never goes back during [updateHedgePosition]. *)
Lemma keeps_updateHedgePositionTry lp :
  keeps anyEvent (updateHedgePositionTry P config lp).
Proof.
  assert (S : forall ms, anyEvent (Slept ms) = true) by reflexivity.
  assert (G : forall r, method r = GET -> anyEvent (Fetched r) = true) by reflexivity.
  assert (R : forall ok a d e, keeps anyEvent (result ok a d e)).
  { intros. unfold result. keeps_auto. }
  assert (O : forall a r d u, keeps anyEvent (orderResult a r d u)).
  { intros. unfold orderResult. destruct (status r); apply R. }
  unfold updateHedgePositionTry.
  apply keeps_bind; [apply keeps_getHedgePosition; assumption|]. intros hedge.
  apply keeps_bind; [apply keeps_marketDataOrFallback; assumption|]. intros md.
  cbv zeta. destruct (action _); simpl.
  - apply keeps_bind; [apply keeps_checkFundingRate; assumption|]. intros b.
    destruct (negb b); [apply R|].
    apply keeps_bind; [apply anyEvent_placeOrder|]. intros r. apply O.
  - apply keeps_bind; [apply anyEvent_placeOrder|]. intros r. apply O.
  - apply R.
  - apply keeps_bind; [|intros r; apply O].
    apply ClientFacts.keeps_closePosition; reflexivity.
Qed.

(** [updateHedgePosition] returns, with a result stamped when it is
    built. *)
Lemma updateHedgePosition_stamped (lp : LPPosition) (w : World) :
  exists r w',
    updateHedgePosition P config lp w = (Returned r, w')
    /\ match updateHedgePositionTry P config lp w with
       | (Returned r0, w0) => r = r0 /\ w' = w0
       | (Thrown e, w0) => r = executionFailure e (now w0) /\ w' = w0
       end
    /\ timestamp r = now w'
    /\ now w <= timestamp r
    /\ (success r = false ->
        error r <> None \/ r = fundingSkipped (timestamp r)).
Proof.
  pose proof (stamped_updateHedgePositionTry lp w) as St.
  pose proof (keeps_updateHedgePositionTry lp w) as [C _].
  unfold updateHedgePosition, tryCatch.
  destruct (updateHedgePositionTry P config lp w) as [[r0|e] w0]; simpl in C.
  - exists r0, w0. destruct (St r0 w0 eq_refl) as [T F].
    repeat split; auto. rewrite T. exact C.
  - rewrite result_eq. exists (executionFailure e (now w0)), w0.
    repeat split; auto. intros _. left. discriminate.
Qed.

Lemma returns_checkFundingRate : returns (checkFundingRate P config).
Proof.
  unfold checkFundingRate. apply returns_tryCatch. intros e. apply returns_ret.
Qed.

(** What an order branch makes of the client's response is the report the
    specification asks for. *)
Lemma orderResult_report a o done unknown w :
  orderResult a o done unknown w
    = (Returned (orderReport a o done unknown (now w)), w).
Proof.
  unfold orderResult, orderReport, succeeded, failed, JsValues.or_else.
  destruct (status o); rewrite result_eq; reflexivity.
Qed.

(** C8, as stated, fails: not every failure becomes a result with
    [success: false] and an error.  With no connection at all (every call
    of the exchange client throws) and a position without token0 exposure,
    the two failed reads are swallowed and the result is a success, "No
    rebalance needed."; and a hedge increase stopped by the funding rate is
    a result with [success: false] that carries no error. *)
Lemma failures_not_all_reported :
  (exists e1 w1 e2 w2,
      HyperliquidClient.getPosition Fixtures.offline Fixtures.config
        "PENDLE-PERP" Fixtures.world0 = (Thrown e1, w1)
      /\ HyperliquidClient.getMarketData Fixtures.offline Fixtures.config
           "PENDLE-PERP" w1 = (Thrown e2, w2)
      /\ updateHedgePosition Fixtures.offline Fixtures.config
           (Fixtures.lpWith 0 100 100) Fixtures.world0
         = (Returned {| success := true; result_action := NO_ACTION;
                        details := Some "No rebalance needed."; error := None;
                        timestamp := now w2 |}, w2))
  /\ (exists r w3,
         updateHedgePosition Fixtures.expensiveFunding Fixtures.config
           Fixtures.lpPosition Fixtures.world0 = (Returned r, w3)
         /\ success r = false
         /\ error r = None).
Proof.
  split.
  - eexists; eexists; eexists; eexists.
    split; [reflexivity|]. split; reflexivity.
  - eexists; eexists. split; [reflexivity|]. split; reflexivity.
Qed.

(** C8, amended.  Whatever the decision and whatever the exchange client's
    calls do (exceptions included), [updateHedgePosition] returns exactly
    one [ExecutionResult] and throws nothing.  The timestamp of the result
    is the clock read when the result is built, which is the time at which
    the call returns, and not before its start.  The result is that of the
    [try] block when it returns, and, when it throws, the result with
    [success: false], action [NO_ACTION] and the message of the exception
    as [error].  By decision, the result is:
    - for [NO_ACTION], the success "No rebalance needed.";
    - for [INCREASE_SHORT], when the funding check answers [false], the
      result with [success: false], the reason in [details] and no error,
      and otherwise the report of [openShortPosition]'s response;
    - for [DECREASE_SHORT], the report of [reduceShortPosition]'s response;
    - for [CLOSE_POSITIONS], the report of [closePosition]'s response, and,
      when [closePosition] throws (its read of the position failed), the
      result with [success: false], action [NO_ACTION] and the message of
      the exception as [error];
    where the report of a response tagged "success" is a success and the
    report of a response tagged "error" has [success: false] and the
    response's error ("Unknown error ..." when it has none).  A failed read
    of the hedge position or of the market data is not reported: the hedge
    is then taken to be [null], the market data to be price 0 and funding
    rate 0, and the result follows from the decision made on these.  So a
    result with [success: false] carries an error, the skipped hedge
    increase apart. *)
Theorem updateHedgePosition_total (lp : LPPosition) (w : World) :
  exists hedge w1 md w2 r w',
    getHedgePosition P config w = (Returned hedge, w1)
    /\ getMarketData P config w1 = (Returned md, w2)
    /\ updateHedgePosition P config lp w = (Returned r, w')
    /\ match updateHedgePositionTry P config lp w with
       | (Returned r0, w0) => r = r0 /\ w' = w0
       | (Thrown e, w0) => r = executionFailure e (now w0) /\ w' = w0
       end
    /\ (forall e wf,
          HyperliquidClient.getPosition P config (ticker config) w = (Thrown e, wf) ->
          hedge = None /\ w1 = wf)
    /\ (forall e wf,
          HyperliquidClient.getMarketData P config (ticker config) w1
            = (Thrown e, wf) ->
          md = {| md_coin := ticker config; price := 0; fundingRate := 0 |}
          /\ w2 = wf)
    /\ timestamp r = now w'
    /\ now w <= timestamp r
    /\ (let decision :=
          determineHedgeAction lp hedge (rebalanceThreshold config) (price md) in
        match action decision with
        | NO_ACTION =>
            w' = w2 /\ r = succeeded NO_ACTION "No rebalance needed." (now w2)
        | INCREASE_SHORT =>
            exists acceptable w3,
              checkFundingRate P config w2 = (Returned acceptable, w3)
              /\ if acceptable
                 then exists o,
                        HyperliquidClient.openShortPosition P config (ticker config)
                          (sizeChange decision) w3 = (Returned o, w')
                        /\ r = orderReport INCREASE_SHORT o
                                 ("Increased short position by "
                                    ++ toFixed (sizeChange decision) 2 ++ " USD")
                                 "Unknown error increasing short position" (now w')
                 else w' = w3 /\ r = fundingSkipped (now w3)
        | DECREASE_SHORT =>
            exists o,
              HyperliquidClient.reduceShortPosition P config (ticker config)
                (sizeChange decision) w2 = (Returned o, w')
              /\ r = orderReport DECREASE_SHORT o
                       ("Decreased short position by "
                          ++ toFixed (sizeChange decision) 2 ++ " USD")
                       "Unknown error decreasing short position" (now w')
        | CLOSE_POSITIONS =>
            match HyperliquidClient.closePosition P config (ticker config) w2 with
            | (Returned o, w3) =>
                w' = w3
                /\ r = orderReport CLOSE_POSITIONS o
                         ("Closed all positions for " ++ ticker config)
                         "Unknown error closing positions" (now w3)
            | (Thrown e, w3) =>
                w' = w3 /\ r = executionFailure e (now w3)
            end
        end)
    /\ (success r = false ->
        error r <> None \/ r = fundingSkipped (timestamp r)).
Proof.
  destruct (returns_getHedgePosition P config w) as (hedge & w1 & Hh).
  destruct (returns_getMarketData P config w1) as (md & w2 & Hm).
  destruct (updateHedgePosition_stamped lp w) as (r & w' & E & Y & T & C & F).
  exists hedge, w1, md, w2, r, w'.
  split; [exact Hh|]. split; [exact Hm|]. split; [exact E|]. split; [exact Y|].
  split.
  { intros e wf He. unfold getHedgePosition, tryCatch in Hh.
    rewrite He in Hh. injection Hh as <- <-. split; reflexivity. }
  split.
  { intros e wf He. rewrite (getMarketData_fallback _ _ _ _ _ He) in Hm.
    injection Hm as <- <-. split; reflexivity. }
  split; [exact T|]. split; [exact C|]. split; [|exact F].
  cbv zeta.
  rewrite (updateHedgePosition_after_reads lp _ _ _ _ _ Hh Hm) in E.
  unfold tryCatch in E.
  destruct (action (determineHedgeAction lp hedge (rebalanceThreshold config)
                      (price md))); unfold executeAction, bind in E.
  - destruct (returns_checkFundingRate w2) as (ok & w3 & Hc).
    rewrite Hc in E. exists ok, w3. split; [exact Hc|].
    destruct ok.
    + change (negb true) with false in E. cbv beta iota in E.
      destruct (HyperliquidClient.openShortPosition P config (ticker config) _ w3)
        as [[o|e] w4] eqn:Ho.
      * rewrite orderResult_report in E. injection E as <- <-.
        exists o. split; reflexivity.
      * exfalso.
        destruct (returns_placeOrder P config
                    {| order_coin := ticker config; order_side := SELL;
                       order_size := sizeChange
                         (determineHedgeAction lp hedge (rebalanceThreshold config)
                            (price md));
                       order_price := None; orderType := MARKET;
                       reduceOnly := false |} w3) as (o & w5 & Ho').
        unfold HyperliquidClient.openShortPosition in Ho. congruence.
    + change (negb false) with true in E. cbv beta iota in E.
      rewrite result_eq in E. injection E as <- <-. split; reflexivity.
  - destruct (HyperliquidClient.reduceShortPosition P config (ticker config) _ w2)
      as [[o|e] w4] eqn:Ho.
    + rewrite orderResult_report in E. injection E as <- <-.
      exists o. split; reflexivity.
    + exfalso.
      destruct (returns_placeOrder P config
                  {| order_coin := ticker config; order_side := BUY;
                     order_size := sizeChange
                       (determineHedgeAction lp hedge (rebalanceThreshold config)
                          (price md));
                     order_price := None; orderType := MARKET;
                     reduceOnly := true |} w2) as (o & w5 & Ho').
      unfold HyperliquidClient.reduceShortPosition in Ho. congruence.
  - rewrite result_eq in E. injection E as <- <-. split; reflexivity.
  - destruct (HyperliquidClient.closePosition P config (ticker config) w2)
      as [[o|e] w4] eqn:Ho.
    + rewrite orderResult_report in E. injection E as <- <-.
      split; reflexivity.
    + rewrite result_eq in E. injection E as <- <-. split; reflexivity.
Qed.

(** C10. The funding check fails open.  When the client's market-data fetch
    fails during the check, the controller's [getMarketData] falls back to a
    funding rate of 0, which is within any valid tolerance, so
    [checkFundingRate] returns [true]; a pending [INCREASE_SHORT] then goes
    on to [openShortPosition] and its result is that of the order. *)
Theorem funding_check_fails_open (lp : LPPosition) (w : World)
    (hedge : option HyperliquidPosition) (w1 : World)
    (md : HyperliquidMarketData) (w2 : World) (e : JsError) (w3 : World)
    (Hvalid : ConfigValidator.validFundingTolerance config = true)
    (Hhedge : getHedgePosition P config w = (Returned hedge, w1))
    (Hmarket : getMarketData P config w1 = (Returned md, w2))
    (Hfail : HyperliquidClient.getMarketData P config (ticker config) w2
             = (Thrown e, w3)) :
  let decision :=
    determineHedgeAction lp hedge (rebalanceThreshold config) (price md) in
  checkFundingRate P config w2 = (Returned true, w3)
  /\ (action decision = INCREASE_SHORT ->
      exists r w4,
        HyperliquidClient.openShortPosition P config (ticker config)
          (sizeChange decision) w3 = (Returned r, w4)
        /\ updateHedgePosition P config lp w =
             orderResult INCREASE_SHORT r
               ("Increased short position by "
                  ++ toFixed (sizeChange decision) 2 ++ " USD")
               "Unknown error increasing short position" w4).
Proof.
  intros decision.
  assert (C : checkFundingRate P config w2 = (Returned true, w3)).
  { rewrite (checkFundingRate_eq _ _ _ _ _ (getMarketData_fallback _ _ _ _ _ Hfail)).
    simpl fundingRate. unfold isFundingRateAcceptable.
    unfold ConfigValidator.validFundingTolerance, gtb in Hvalid.
    apply andb_prop in Hvalid. destruct Hvalid as [Hpos _].
    change (abs 0) with 0%float.
    rewrite (FloatFacts.ltb_leb _ _ Hpos). reflexivity. }
  split; [exact C|]. intros Ha.
  destruct (returns_placeOrder P config
              {| order_coin := ticker config; order_side := SELL;
                 order_size := sizeChange decision; order_price := None;
                 orderType := MARKET; reduceOnly := false |} w3) as (r & w4 & E).
  exists r, w4. split; [exact E|].
  rewrite (updateHedgePosition_after_reads lp _ _ _ _ _ Hhedge Hmarket).
  fold decision. unfold tryCatch. rewrite Ha. unfold executeAction, bind.
  rewrite C. cbv beta iota. change (negb true) with false. cbv beta iota.
  unfold HyperliquidClient.openShortPosition, bind. rewrite E.
  unfold orderResult. destruct (status r); reflexivity.
Qed.

End ExecutorClaims.

Section ExecutorWitnesses.

Import Effects HedgeController.
Import JsNumber Calculations.
Local Open Scope Z_scope.

Lemma funding_gate_witness :
  (exists w3,
      updateHedgePosition Fixtures.expensiveFunding Fixtures.config
        Fixtures.lpPosition Fixtures.world0
        = (Returned (fundingSkipped (now w3)), w3)
      /\ forallb notOrder (eventsSince Fixtures.world0 w3) = true)
  /\ (exists r w3,
         HyperliquidClient.reduceShortPosition Fixtures.expensiveFundingHedged
           Fixtures.config "PENDLE-PERP" 20%float Fixtures.afterReads
         = (Returned r, w3)
         /\ updateHedgePosition Fixtures.expensiveFundingHedged Fixtures.config
              (Fixtures.lpWith 80 100 180) Fixtures.world0
            = orderResult DECREASE_SHORT r
                "Decreased short position by 20.00 USD"
                "Unknown error decreasing short position" w3
         /\ forallb (notMarketData Fixtures.config)
              (eventsSince Fixtures.afterReads w3) = true)
  /\ (exists w3,
         match HyperliquidClient.closePosition Fixtures.expensiveFundingHedged
                 Fixtures.config "PENDLE-PERP" Fixtures.afterReads with
         | (Returned r, w') =>
             w' = w3
             /\ updateHedgePosition Fixtures.expensiveFundingHedged Fixtures.config
                  (Fixtures.lpWith 0 0 0) Fixtures.world0
                = orderResult CLOSE_POSITIONS r
                    "Closed all positions for PENDLE-PERP"
                    "Unknown error closing positions" w3
         | (Thrown e, w') =>
             w' = w3
             /\ updateHedgePosition Fixtures.expensiveFundingHedged Fixtures.config
                  (Fixtures.lpWith 0 0 0) Fixtures.world0
                = (Returned (executionFailure e (now w3)), w3)
         end
         /\ forallb (notMarketData Fixtures.config)
              (eventsSince Fixtures.afterReads w3) = true).
Proof.
  split; [|split].
  - eexists.
    exact (proj1 (funding_gate Fixtures.expensiveFunding Fixtures.config
                    Fixtures.lpPosition Fixtures.world0 _ _ _ _ eq_refl eq_refl)
             eq_refl _ _ eq_refl eq_refl).
  - exact (proj1 (proj2 (funding_gate Fixtures.expensiveFundingHedged
                           Fixtures.config (Fixtures.lpWith 80 100 180)
                           Fixtures.world0 _ _ _ Fixtures.afterReads
                           eq_refl eq_refl))
             eq_refl).
  - exact (proj2 (proj2 (funding_gate Fixtures.expensiveFundingHedged
                           Fixtures.config (Fixtures.lpWith 0 0 0)
                           Fixtures.world0 _ _ _ Fixtures.afterReads
                           eq_refl eq_refl))
             eq_refl).
Defined.

Lemma funding_check_fails_open_witness :
  checkFundingRate Fixtures.marketDataOnce Fixtures.config Fixtures.afterReads
    = (Returned true, Fixtures.afterFailedCheck)
  /\ exists r w4,
       HyperliquidClient.openShortPosition Fixtures.marketDataOnce Fixtures.config
         "PENDLE-PERP" 100%float Fixtures.afterFailedCheck
       = (Returned r, w4)
       /\ updateHedgePosition Fixtures.marketDataOnce Fixtures.config
            Fixtures.lpPosition Fixtures.world0
          = orderResult INCREASE_SHORT r
              "Increased short position by 100.00 USD"
              "Unknown error increasing short position" w4.
Proof.
  split.
  - exact (proj1 (funding_check_fails_open Fixtures.marketDataOnce Fixtures.config
                    Fixtures.lpPosition Fixtures.world0 _ _ _ Fixtures.afterReads
                    _ Fixtures.afterFailedCheck eq_refl eq_refl eq_refl eq_refl)).
  - exact (proj2 (funding_check_fails_open Fixtures.marketDataOnce Fixtures.config
                    Fixtures.lpPosition Fixtures.world0 _ _ _ Fixtures.afterReads
                    _ Fixtures.afterFailedCheck eq_refl eq_refl eq_refl eq_refl)
             eq_refl).
Defined.

End ExecutorWitnesses.

(* ===================================================================== *)
(** ** Further facts about binary64 numbers                               *)
(* ===================================================================== *)

Module FloatOrder.

Local Open Scope float_scope.

(** A positive number is not equal to zero. *)
Lemma gt_zero_neq t : (0 <? t) = true -> (t =? 0) = false.
Proof.
  rewrite FloatAxioms.ltb_spec, FloatAxioms.eqb_spec. unfold SFltb, SFeqb.
  rewrite (FloatFacts.SFcompare_antisym (Prim2SF 0) (Prim2SF t)).
  destruct (SFcompare (Prim2SF 0) (Prim2SF t)) as [[]|]; simpl; congruence.
Qed.

(** What is above an absolute value is above zero. *)
Lemma abs_lt_pos x r : (abs x <? r) = true -> (0 <? r) = true.
Proof.
  rewrite !FloatAxioms.ltb_spec, abs_spec, FloatFacts.prim_zero. unfold SFltb.
  destruct (Prim2SF x) as [sx|sx| |sx mx ex], (Prim2SF r) as [sr|sr| |sr mr er];
    simpl; try discriminate; try reflexivity;
    try (destruct sr; simpl; congruence).
Qed.

Lemma abs_opp x : abs (- x) = abs x.
Proof.
  apply Prim2SF_inj. rewrite !abs_spec, opp_spec.
  destruct (Prim2SF x); reflexivity.
Qed.

Lemma abs_abs x : abs (abs x) = abs x.
Proof.
  apply Prim2SF_inj. rewrite !abs_spec.
  destruct (Prim2SF x); reflexivity.
Qed.

Lemma prim_nan : Prim2SF nan = S754_nan.
Proof. reflexivity. Qed.

(** [NaN] is below nothing and nothing is below it. *)
Lemma leb_nan_l t : (nan <=? t) = false.
Proof. rewrite FloatAxioms.leb_spec, prim_nan. reflexivity. Qed.

Lemma leb_nan_r t : (t <=? nan) = false.
Proof.
  rewrite FloatAxioms.leb_spec, prim_nan. unfold SFleb.
  destruct (Prim2SF t); reflexivity.
Qed.

Lemma ltb_asym a b : (a <? b) = true -> (b <? a) = false.
Proof.
  intros H. destruct (b <? a) eqn:E; [|reflexivity].
  apply FloatFacts.ltb_leb in E. rewrite (FloatFacts.ltb_not_leb _ _ H) in E.
  discriminate.
Qed.

(** Two numbers that are not [NaN] are equal or one is below the other. *)
Lemma ltb_total a b :
  (a =? a) = true -> (b =? b) = true ->
  (a <? b) = false -> (a =? b) = false -> (b <? a) = true.
Proof.
  rewrite !FloatAxioms.eqb_spec, !FloatAxioms.ltb_spec. unfold SFeqb, SFltb.
  rewrite (FloatFacts.SFcompare_antisym (Prim2SF a) (Prim2SF b)).
  intros Na Nb.
  destruct (Prim2SF a) as [sa|sa| |sa ma ea], (Prim2SF b) as [sb|sb| |sb mb eb];
    simpl in Na, Nb; try discriminate; simpl;
    try (destruct sa; simpl; congruence);
    try (destruct sb; simpl; congruence);
    try (destruct sa, sb; simpl; congruence).
  destruct sa, sb; simpl; try congruence;
    destruct (ea ?= eb)%Z; simpl; try congruence;
    destruct (Pos.compare_cont Eq ma mb); simpl; congruence.
Qed.

(** A number that is not equal to itself is [NaN]. *)
Lemma not_eqb_refl_nan r : (r =? r) = false -> r = nan.
Proof.
  intros H. apply Prim2SF_inj. rewrite prim_nan.
  rewrite FloatAxioms.eqb_spec in H. unfold SFeqb in H.
  destruct (Prim2SF r) as [s|s| |s m e]; simpl in H; try reflexivity.
  - destruct s; discriminate.
  - destruct s; discriminate.
  - rewrite Z.compare_refl, Pos.compare_cont_refl in H. destruct s; discriminate.
Qed.

Lemma abs_nan : abs nan = nan.
Proof. apply Prim2SF_inj. rewrite abs_spec. reflexivity. Qed.

(** An absolute value is below no negative number. *)
Lemma abs_leb_neg r t : (t <? 0) = true -> (abs r <=? t) = false.
Proof.
  rewrite FloatAxioms.ltb_spec, FloatAxioms.leb_spec, abs_spec, FloatFacts.prim_zero.
  unfold SFltb, SFleb.
  destruct (Prim2SF r) as [sx|sx| |sx mx ex], (Prim2SF t) as [sr|sr| |sr mr er];
    simpl; try discriminate; try reflexivity;
    try (destruct sr; simpl; congruence).
Qed.

Lemma abs_eqb_zero s : (abs s =? 0) = (s =? 0).
Proof.
  rewrite !FloatAxioms.eqb_spec, abs_spec, FloatFacts.prim_zero. unfold SFeqb.
  destruct (Prim2SF s) as [sx|sx| |sx mx ex]; simpl; try reflexivity;
    destruct sx; reflexivity.
Qed.

Lemma abs_eqb_refl s : (s =? s) = true -> (abs s =? abs s) = true.
Proof.
  intros H. destruct (abs s =? abs s) eqn:E; [reflexivity|].
  apply not_eqb_refl_nan in E.
  assert (N : Prim2SF s = S754_nan).
  { pose proof (f_equal Prim2SF E) as E'. rewrite abs_spec, prim_nan in E'.
    destruct (Prim2SF s); simpl in E'; congruence. }
  rewrite FloatAxioms.eqb_spec, N in H. discriminate.
Qed.

(** A number minus itself is [+0], or [NaN] for an infinity or [NaN]. *)
Lemma SFsub_self x :
  SFsub prec emax x x = S754_zero false \/ SFsub prec emax x x = S754_nan.
Proof.
  destruct x as [s|s| |s m e]; simpl.
  - left. destruct s; reflexivity.
  - right. destruct s; reflexivity.
  - right. reflexivity.
  - left. rewrite Z.min_id.
    destruct s; cbv beta iota delta [cond_Zopp]; rewrite Z.sub_diag; reflexivity.
Qed.

(** The relative distance of a number to itself is above no threshold that
    is zero or more. *)
Lemma self_distance_below x y thr :
  (0 <=? thr) = true -> (thr <? abs (x - x) / y) = false.
Proof.
  rewrite FloatAxioms.ltb_spec, FloatAxioms.leb_spec, div_spec, abs_spec, sub_spec,
    FloatFacts.prim_zero.
  unfold SF64div, SF64sub. intros H.
  destruct (SFsub_self (Prim2SF x)) as [-> | ->].
  - destruct (Prim2SF y) as [sy|sy| |sy my ey], (Prim2SF thr) as [st|st| |st mt et];
      simpl in *; try reflexivity; try discriminate;
      destruct st; try discriminate; destruct sy; reflexivity.
  - simpl. apply FloatFacts.SFltb_nan_r.
Qed.

End FloatOrder.

(* ===================================================================== *)
(** ** More on the decision engine and the executor                       *)
(* ===================================================================== *)

Section DecisionExtras.

Import Effects EffectFacts ClientFacts ControllerFacts HedgeController.
Import JsNumber Calculations.
Local Open Scope float_scope.

Variable P : Platform.
Variable config : Config.

(** The action of a result built by the [switch] is the action switched
    on. *)
Lemma executeAction_action a sz w r w' :
  executeAction P config a sz w = (Returned r, w') -> result_action r = a.
Proof.
  assert (O : forall a0 o d u w0 r0 w0',
             orderResult a0 o d u w0 = (Returned r0, w0') -> result_action r0 = a0).
  { intros a0 o d u w0 r0 w0'. unfold orderResult.
    destruct (status o); rewrite result_eq; intros H; injection H as <- _;
      reflexivity. }
  destruct a; unfold executeAction, bind.
  - destruct (checkFundingRate P config w) as [[b|e] w1]; [|discriminate].
    destruct (negb b).
    + rewrite result_eq. intros H. injection H as <- _. reflexivity.
    + destruct (HyperliquidClient.openShortPosition _ _ _ _ _) as [[o|e] w2];
        [apply O | discriminate].
  - destruct (HyperliquidClient.reduceShortPosition _ _ _ _ _) as [[o|e] w2];
      [apply O | discriminate].
  - rewrite result_eq. intros H. injection H as <- _. reflexivity.
  - destruct (HyperliquidClient.closePosition _ _ _ _) as [[o|e] w2];
      [apply O | discriminate].
Qed.

(** The action reported by [updateHedgePosition] is the decided one, or
    [NO_ACTION] when the [try] block threw. *)
Lemma updateHedgePosition_action lp w r w' :
  updateHedgePosition P config lp w = (Returned r, w') ->
  result_action r = NO_ACTION
  \/ exists hedge p,
       result_action r =
         action (determineHedgeAction lp hedge (rebalanceThreshold config) p).
Proof.
  unfold updateHedgePosition, tryCatch, updateHedgePositionTry, bind.
  destruct (getHedgePosition P config w) as [[hedge|e] w1].
  - destruct (getMarketData P config w1) as [[md|e] w2].
    + cbv zeta.
      destruct (executeAction P config _ _ w2) as [[r0|e] w3] eqn:E.
      * intros H. injection H as <- _. right. exists hedge, (price md).
        eapply executeAction_action, E.
      * rewrite result_eq. intros H. injection H as <- _. left. reflexivity.
    + rewrite result_eq. intros H. injection H as <- _. left. reflexivity.
  - rewrite result_eq. intros H. injection H as <- _. left. reflexivity.
Qed.

(** X1. Under the test [executeCheck] makes before it rebalances
    ([totalValueUSD > 0]), [determineHedgeAction] never decides
    [CLOSE_POSITIONS], whatever the hedge and the threshold, and no result
    of [updateHedgePosition] reports [CLOSE_POSITIONS]. *)
Theorem rebalancing_never_closes (lp : LPPosition)
    (Hguard : HoytBot.shouldRebalance (Some lp) = true) :
  (forall h thr p, action (determineHedgeAction lp h thr p) <> CLOSE_POSITIONS)
  /\ (forall w r w',
         updateHedgePosition P config lp w = (Returned r, w') ->
         result_action r <> CLOSE_POSITIONS).
Proof.
  assert (D : forall h thr p,
             action (determineHedgeAction lp h thr p) <> CLOSE_POSITIONS).
  { intros h thr p. unfold determineHedgeAction, strict_eq.
    simpl in Hguard. unfold gtb in Hguard.
    rewrite (FloatOrder.gt_zero_neq _ Hguard).
    destruct h as [hp|]; cbn [andb]; cbv zeta.
    - destruct (gtb _ thr); [destruct (gtb _ _)|]; discriminate.
    - destruct (gtb _ 0); discriminate. }
  split; [exact D|].
  intros w r w' H.
  destruct (updateHedgePosition_action lp w r w' H) as [E|(hedge & p & E)];
    rewrite E; [discriminate | apply D].
Qed.

(** X2. [determineHedgeAction] decides [INCREASE_SHORT] only for a token0
    exposure above zero, and [DECREASE_SHORT] only when there is a hedge. *)
Theorem increase_needs_exposure (lp : LPPosition)
    (h : option HyperliquidPosition) (thr p : float) :
  (action (determineHedgeAction lp h thr p) = INCREASE_SHORT ->
   gtb (token0Exposure lp) 0 = true)
  /\ (action (determineHedgeAction lp h thr p) = DECREASE_SHORT ->
      exists hp, h = Some hp).
Proof.
  unfold determineHedgeAction, calculateRequiredHedgeSize.
  destruct (strict_eq (totalValueUSD lp) 0); [split; discriminate|].
  destruct h as [hp|]; cbn [andb]; cbv zeta.
  - destruct (gtb _ thr); [|split; discriminate].
    destruct (gtb (token0Exposure lp) (abs (size hp))) eqn:G; simpl.
    + split; [|discriminate]. intros _. unfold gtb in *.
      eapply FloatOrder.abs_lt_pos, G.
    + split; [discriminate|]. intros _. exists hp. reflexivity.
  - destruct (gtb (token0Exposure lp) 0) eqn:G; simpl; split; try discriminate.
    intros _. reflexivity.
Qed.

(** X17. A hedge whose absolute size equals the token0 exposure is left
    alone: for an LP position of nonzero value and a threshold of zero or
    more, [determineHedgeAction] decides [NO_ACTION] with a size change of
    0. *)
Theorem balanced_hedge_untouched (lp : LPPosition) (h : HyperliquidPosition)
    (thr p : float)
    (Hvalue : strict_eq (totalValueUSD lp) 0 = false)
    (Hthr : geb thr 0 = true)
    (Hbalanced : token0Exposure lp = abs (size h)) :
  determineHedgeAction lp (Some h) thr p = {| action := NO_ACTION; sizeChange := 0 |}.
Proof.
  unfold determineHedgeAction, calculateRequiredHedgeSize.
  rewrite Hvalue. cbn [andb]. cbv zeta. rewrite Hbalanced.
  unfold gtb at 1. unfold geb in Hthr.
  rewrite (FloatOrder.self_distance_below _ _ _ Hthr). reflexivity.
Qed.

End DecisionExtras.

Section DecisionExtrasWitnesses.

Import JsNumber Calculations.
Local Open Scope float_scope.

Lemma rebalancing_never_closes_witness :
  action (determineHedgeAction Fixtures.lpPosition
            (Some Fixtures.hedgePosition) 0.1 10) <> CLOSE_POSITIONS.
Proof.
  exact (proj1 (rebalancing_never_closes Fixtures.expensiveFunding Fixtures.config
                  Fixtures.lpPosition eq_refl)
           (Some Fixtures.hedgePosition) 0.1 10).
Defined.

Lemma increase_needs_exposure_witness :
  gtb (token0Exposure (Fixtures.lpWith 120 100 200)) 0 = true
  /\ exists hp, Some Fixtures.hedgePosition = Some hp.
Proof.
  split.
  - exact (proj1 (increase_needs_exposure (Fixtures.lpWith 120 100 200)
                    (Some Fixtures.hedgePosition) 0.1 10) eq_refl).
  - exact (proj2 (increase_needs_exposure (Fixtures.lpWith 80 100 200)
                    (Some Fixtures.hedgePosition) 0.1 10) eq_refl).
Defined.

Lemma balanced_hedge_untouched_witness :
  determineHedgeAction Fixtures.lpPosition (Some Fixtures.hedgePosition) 0.05 10
  = {| action := NO_ACTION; sizeChange := 0 |}.
Proof.
  exact (balanced_hedge_untouched Fixtures.lpPosition Fixtures.hedgePosition
           0.05 10 eq_refl eq_refl eq_refl).
Defined.

End DecisionExtrasWitnesses.

(* ===================================================================== *)
(** ** The funding test and the deviation the bot reports                 *)
(* ===================================================================== *)

Section CalculationExtras.

Import JsNumber Calculations HoytBot.
Local Open Scope float_scope.

(** [Math.max(0, e) > 0] exactly when [e > 0]. *)
Lemma Math_max_zero_gt e : gtb (Math_max 0 e) 0 = gtb e 0.
Proof.
  unfold Math_max, gtb.
  change (isNaN 0) with false. cbv iota.
  destruct (isNaN e); [reflexivity|].
  destruct (0 <? e) eqn:G; [exact G|].
  destruct (e <? 0); [reflexivity|].
  change (get_sign 0) with false. reflexivity.
Qed.

(** X3. [isFundingRateAcceptable] looks at the magnitude of the rate only:
    a rate and its opposite get the same answer.  A rate or a tolerance
    that is [NaN] is refused, and under a negative tolerance every rate is
    refused. *)
Theorem funding_test_magnitude (rate tolerance : float) :
  isFundingRateAcceptable (- rate) tolerance
    = isFundingRateAcceptable rate tolerance
  /\ (isNaN rate = true -> isFundingRateAcceptable rate tolerance = false)
  /\ (isNaN tolerance = true -> isFundingRateAcceptable rate tolerance = false)
  /\ ((tolerance <? 0) = true -> isFundingRateAcceptable rate tolerance = false).
Proof.
  unfold isFundingRateAcceptable, isNaN. split; [|split; [|split]].
  - rewrite FloatOrder.abs_opp. reflexivity.
  - intros H. apply Bool.negb_true_iff, FloatOrder.not_eqb_refl_nan in H.
    subst rate. rewrite FloatOrder.abs_nan. apply FloatOrder.leb_nan_l.
  - intros H. apply Bool.negb_true_iff, FloatOrder.not_eqb_refl_nan in H.
    subst tolerance. apply FloatOrder.leb_nan_r.
  - apply FloatOrder.abs_leb_neg.
Qed.

Lemma funding_test_magnitude_witness :
  isFundingRateAcceptable nan 0.005 = false
  /\ isFundingRateAcceptable 0.001 nan = false
  /\ isFundingRateAcceptable 0 (-0.005) = false.
Proof.
  split; [|split].
  - exact (proj1 (proj2 (funding_test_magnitude nan 0.005)) eq_refl).
  - exact (proj1 (proj2 (proj2 (funding_test_magnitude 0.001 nan))) eq_refl).
  - exact (proj2 (proj2 (proj2 (funding_test_magnitude 0 (-0.005)))) eq_refl).
Defined.

(** X4. The deviation [updatePositions] stores in the bot's state is
    [calculateDeviation] of the exposure clamped at zero and of the hedge's
    absolute size, whenever the hedge's size is a number whose absolute
    value is not exactly [0.000001]; at that size the state holds 100 or 0
    where [calculateDeviation] divides. *)
Theorem state_deviation_agrees (lp : LPPosition) (hedge : HyperliquidPosition)
    (Hnum : isNaN (size hedge) = false)
    (Hedge : strict_eq (abs (size hedge)) 0.000001 = false) :
  stateDeviation (Some lp) (Some hedge)
    = calculateDeviation (Math_max 0 (token0Exposure lp)) (abs (size hedge)).
Proof.
  unfold stateDeviation, calculateDeviation, strict_eq, isNaN in *.
  apply Bool.negb_false_iff in Hnum.
  rewrite FloatOrder.abs_eqb_zero, FloatOrder.abs_abs.
  destruct (size hedge =? 0) eqn:Z; cbn [negb orb]; cbv zeta.
  - rewrite Math_max_zero_gt. reflexivity.
  - unfold gtb at 1.
    destruct (0.000001 <? abs (size hedge)) eqn:G.
    + rewrite (FloatOrder.ltb_asym _ _ G). reflexivity.
    + destruct (abs (size hedge) <? 0.000001) eqn:L; [reflexivity|].
      pose proof (FloatOrder.ltb_total (abs (size hedge)) 0.000001
                    (FloatOrder.abs_eqb_refl _ Hnum) eq_refl L Hedge) as C.
      rewrite C in G. discriminate.
Qed.

Lemma state_deviation_agrees_witness :
  stateDeviation (Some (Fixtures.lpWith 110 100 210)) (Some Fixtures.hedgePosition)
    = calculateDeviation (Math_max 0 110) (abs (-100)).
Proof.
  exact (state_deviation_agrees (Fixtures.lpWith 110 100 210)
           Fixtures.hedgePosition eq_refl eq_refl).
Defined.

End CalculationExtras.

(* ===================================================================== *)
(** ** What a rebalancing costs                                           *)
(* ===================================================================== *)

Module BudgetFacts.

Import Effects HyperliquidClient.
Local Open Scope Z_scope.

Lemma orderCount_app a b : orderCount (a ++ b) = (orderCount a + orderCount b)%nat.
Proof. unfold orderCount. rewrite filter_app, length_app. reflexivity. Qed.

Lemma totalSlept_app a b : totalSlept (a ++ b) = totalSlept a + totalSlept b.
Proof.
  induction a as [|ev a IH]; simpl; [reflexivity|]. rewrite IH. lia.
Qed.

Lemma backoffTotal_nonneg n : forall attempt, 0 <= backoffTotal attempt n.
Proof.
  induction n as [|n IH]; intros attempt; simpl; [lia|].
  pose proof (ClientFacts.backoffMs_nonneg attempt). specialize (IH (S attempt)). lia.
Qed.

Lemma spends_weaken f o s f' o' s' {A} (m : M A) :
  spends f o s m -> (f <= f')%nat -> (o <= o')%nat -> s <= s' ->
  spends f' o' s' m.
Proof.
  intros H Lf Lo Ls w. destruct (H w) as (evs & E & F & O & S).
  exists evs. repeat split; [exact E | lia | lia | lia].
Qed.

(** A computation that leaves the world as it is costs nothing. *)
Lemma spends_silent {A} (m : M A) : (forall w, snd (m w) = w) -> spends 0 0 0 m.
Proof.
  intros H w. exists []. rewrite H, app_nil_r.
  unfold fetchCount, orderCount. repeat split; simpl; lia.
Qed.

Lemma spends_ret {A} (a : A) : spends 0 0 0 (ret a).
Proof. apply spends_silent. reflexivity. Qed.

Lemma spends_throw {A} e : spends 0 0 0 (@throw A e).
Proof. apply spends_silent. reflexivity. Qed.

Lemma spends_lift {A} (o : Outcome A) : spends 0 0 0 (lift o).
Proof. apply spends_silent. reflexivity. Qed.

Lemma spends_dateNow : spends 0 0 0 dateNow.
Proof. apply spends_silent. reflexivity. Qed.

Lemma spends_sleep ms : spends 0 0 ms (sleep ms).
Proof.
  intros w. exists [Slept ms].
  unfold fetchCount, orderCount. repeat split; simpl; lia.
Qed.

Lemma spends_bind f1 o1 s1 f2 o2 s2 {A B} (m : M A) (k : A -> M B) :
  spends f1 o1 s1 m -> (forall a, spends f2 o2 s2 (k a)) -> 0 <= s2 ->
  spends (f1 + f2) (o1 + o2) (s1 + s2) (bind m k).
Proof.
  intros Hm Hk S2 w. unfold bind.
  destruct (Hm w) as (e1 & E1 & F1 & O1 & S1).
  destruct (m w) as [[a|e] w1]; simpl in E1.
  - destruct (Hk a w1) as (e2 & E2 & F2 & O2 & S2').
    exists (e1 ++ e2)%list.
    rewrite E2, E1, app_assoc, RequestLoop.fetchCount_app, orderCount_app,
      totalSlept_app.
    repeat split; lia.
  - exists e1. simpl. repeat split; [exact E1 | lia | lia | lia].
Qed.

Lemma spends_tryCatch f1 o1 s1 f2 o2 s2 {A} (m : M A) (h : JsError -> M A) :
  spends f1 o1 s1 m -> (forall e, spends f2 o2 s2 (h e)) -> 0 <= s2 ->
  spends (f1 + f2) (o1 + o2) (s1 + s2) (tryCatch m h).
Proof.
  intros Hm Hh S2 w. unfold tryCatch.
  destruct (Hm w) as (e1 & E1 & F1 & O1 & S1).
  destruct (m w) as [[a|e] w1]; simpl in E1.
  - exists e1. simpl. repeat split; [exact E1 | lia | lia | lia].
  - destruct (Hh e w1) as (e2 & E2 & F2 & O2 & S2').
    exists (e1 ++ e2)%list.
    rewrite E2, E1, app_assoc, RequestLoop.fetchCount_app, orderCount_app,
      totalSlept_app.
    repeat split; lia.
Qed.

(** Binding a computation that costs nothing. *)
Lemma spends_bind_free f o s {A B} (m : M A) (k : A -> M B) :
  spends 0 0 0 m -> (forall a, spends f o s (k a)) -> 0 <= s ->
  spends f o s (bind m k).
Proof.
  intros Hm Hk S. eapply spends_weaken;
    [apply (spends_bind 0 0 0 f o s); assumption | lia | lia | lia].
Qed.

Lemma spends_then_free f o s {A B} (m : M A) (k : A -> M B) :
  spends f o s m -> (forall a, spends 0 0 0 (k a)) ->
  spends f o s (bind m k).
Proof.
  intros Hm Hk. eapply spends_weaken;
    [apply (spends_bind f o s 0 0 0); [assumption | assumption | lia]
    | lia | lia | lia].
Qed.

Lemma spends_try_free f o s {A} (m : M A) (h : JsError -> M A) :
  spends f o s m -> (forall e, spends 0 0 0 (h e)) ->
  spends f o s (tryCatch m h).
Proof.
  intros Hm Hh. eapply spends_weaken;
    [apply (spends_tryCatch f o s 0 0 0); [assumption | assumption | lia]
    | lia | lia | lia].
Qed.

Lemma spends_mapM {A B} (f : A -> M B) l :
  (forall x, spends 0 0 0 (f x)) -> spends 0 0 0 (mapM f l).
Proof.
  intros H. induction l as [|x l IH]; simpl; [apply spends_ret|].
  apply spends_bind_free; [apply H | | lia]. intros y.
  apply spends_bind_free; [exact IH | | lia]. intros ys. apply spends_ret.
Qed.

Section Client.

Variable P : Platform.
Variable config : Config.

Lemma spends_attemptOnce req :
  spends 1 (postsOf (method req) 1) 0 (attemptOnce P req).
Proof.
  intros w. destruct (ClientFacts.attemptOnce_world P req w) as (t & _ & ->).
  exists [Fetched req]. unfold fetchCount, orderCount. simpl.
  destruct (method req); simpl; repeat split; lia.
Qed.

Lemma postsOf_S mth n : (postsOf mth 1 + postsOf mth n = postsOf mth (S n))%nat.
Proof. destruct mth; reflexivity. Qed.

(** The loop, entered at [attempt] with [remaining] iterations left, calls
    [fetch] at most [remaining] times and waits between two calls only. *)
Lemma spends_attemptLoop req retries remaining : forall attempt last,
  (attempt + remaining = S retries)%nat ->
  spends remaining (postsOf (method req) remaining)
    (backoffTotal attempt (remaining - 1))
    (attemptLoop P req retries remaining attempt last).
Proof.
  induction remaining as [|rem IH]; intros attempt last Hn.
  - simpl. eapply spends_weaken; [apply spends_throw | lia | lia | lia].
  - cbn [attemptLoop].
    replace (S rem - 1)%nat with rem by lia.
    pose proof (backoffTotal_nonneg rem attempt) as B.
    eapply spends_weaken with (f := (1 + rem)%nat)
                              (o := (postsOf (method req) 1
                                     + postsOf (method req) rem)%nat)
                              (s := 0 + backoffTotal attempt rem);
      [| lia | rewrite postsOf_S; lia | lia].
    apply spends_tryCatch; [apply spends_attemptOnce | | exact B].
    intros e.
    destruct (isNetworkError e && (attempt <? retries)%nat) eqn:C.
    + apply andb_true_iff in C. destruct C as [_ C].
      apply Nat.ltb_lt in C.
      destruct rem as [|rem']; [lia|].
      cbn [backoffTotal].
      eapply spends_weaken with (f := (0 + S rem')%nat)
                                (o := (0 + postsOf (method req) (S rem'))%nat);
        [| lia | lia | apply Z.le_refl].
      apply spends_bind; [apply spends_sleep | | apply backoffTotal_nonneg].
      intros _.
      pose proof (IH (S attempt) (Some e) ltac:(lia)) as IH'.
      replace (S rem' - 1)%nat with rem' in IH' by lia. exact IH'.
    + eapply spends_weaken; [apply spends_throw | lia | lia | exact B].
Qed.

Lemma spends_makeRequest endpoint mth data retries :
  spends retries (postsOf mth retries) (backoffTotal 1 (retries - 1))
    (makeRequest P config endpoint mth data retries).
Proof.
  unfold makeRequest. cbv zeta.
  apply spends_bind_free; [| | apply backoffTotal_nonneg].
  - destruct mth; [apply spends_ret|]. destruct data as [d|]; [|apply spends_ret].
    unfold generateNonce, signRequest.
    apply spends_bind_free; [| | lia].
    + apply spends_bind_free; [apply spends_dateNow | | lia].
      intros t. apply spends_ret.
    + intros nonce. apply spends_try_free.
      * apply spends_bind_free; [apply spends_lift | | lia].
        intros sig. apply spends_ret.
      * intros e. apply spends_throw.
  - intros hs.
    apply (spends_attemptLoop
             {| url := (apiEndpoint config ++ endpoint)%string; method := mth;
                headers := hs;
                body := match mth with POST => data | GET => None end |}).
    lia.
Qed.

(** A read makes at most three calls, none of them an order, and waits at
    most 1000 + 2000 ms. *)
Lemma spends_read endpoint :
  spends 3 0 3000 (makeRequest P config endpoint GET None 3).
Proof. exact (spends_makeRequest endpoint GET None 3). Qed.

Lemma spends_findMarket markets c : spends 0 0 0 (findMarket markets c).
Proof.
  induction markets as [|m rest IH]; simpl; [apply spends_ret|].
  apply spends_bind_free; [apply spends_lift | | lia]. intros v.
  destruct (JsValues.strict_eq_string v c); [apply spends_ret | exact IH].
Qed.

Lemma spends_client_getMarketData c :
  spends 3 0 3000 (HyperliquidClient.getMarketData P config c).
Proof.
  unfold HyperliquidClient.getMarketData.
  apply spends_try_free; [|intros e; apply spends_throw].
  apply spends_then_free; [apply spends_read|]. intros response.
  apply spends_bind_free; [apply spends_lift | | lia]. intros markets.
  apply spends_bind_free; [| | lia].
  - destruct markets as [[]|]; try apply spends_throw. apply spends_findMarket.
  - intros [cd|]; [|apply spends_throw].
    apply spends_bind_free; [apply spends_lift | | lia]. intros mark.
    apply spends_bind_free; [apply spends_lift | | lia]. intros funding.
    apply spends_ret.
Qed.

Lemma spends_parsePosition pos : spends 0 0 0 (parsePosition pos).
Proof.
  unfold parsePosition.
  repeat (apply spends_bind_free; [apply spends_lift | intros ? | lia]).
  apply spends_ret.
Qed.

Lemma spends_getPositions : spends 3 0 3000 (getPositions P config).
Proof.
  unfold getPositions.
  apply spends_try_free; [|intros e; apply spends_throw].
  apply spends_then_free; [apply spends_read|]. intros response.
  apply spends_bind_free; [apply spends_lift | | lia]. intros positions.
  destruct positions as [[| | | |[|row rows]|]|]; try apply spends_ret.
  apply spends_mapM. intros x. apply spends_parsePosition.
Qed.

Lemma spends_getPosition c : spends 3 0 3000 (getPosition P config c).
Proof.
  unfold getPosition.
  apply spends_try_free; [|intros e; apply spends_throw].
  apply spends_then_free; [apply spends_getPositions|]. intros l. apply spends_ret.
Qed.

Lemma spends_orderResponse o response : spends 0 0 0 (orderResponse o response).
Proof.
  unfold orderResponse.
  apply spends_bind_free; [apply spends_lift | | lia]. intros st.
  destruct (JsValues.strict_eq_string st "success");
    (apply spends_bind_free; [apply spends_lift | intros ?; apply spends_ret | lia]).
Qed.

Lemma spends_placeOrder o : spends 3 3 3000 (placeOrder P config o).
Proof.
  unfold placeOrder.
  apply spends_try_free; [|intros e; apply spends_ret].
  apply spends_then_free;
    [exact (spends_makeRequest "/trade" POST (Some (orderRequestData P o)) 3)|].
  intros response. apply spends_orderResponse.
Qed.

Lemma spends_closePosition c : spends 6 3 6000 (closePosition P config c).
Proof.
  unfold closePosition.
  apply (spends_bind 3 0 3000 3 3 3000); [apply spends_getPosition | | lia].
  intros [p|].
  - destruct (JsNumber.strict_eq (size p) 0).
    + eapply spends_weaken; [apply spends_ret | lia | lia | lia].
    + apply spends_placeOrder.
  - eapply spends_weaken; [apply spends_ret | lia | lia | lia].
Qed.

Lemma spends_getMarketData :
  spends 3 0 3000 (HedgeController.getMarketData P config).
Proof.
  unfold HedgeController.getMarketData.
  apply spends_try_free; [apply spends_client_getMarketData|].
  intros e. apply spends_ret.
Qed.

Lemma spends_getHedgePosition :
  spends 3 0 3000 (HedgeController.getHedgePosition P config).
Proof.
  unfold HedgeController.getHedgePosition.
  apply spends_try_free; [apply spends_getPosition|].
  intros e. apply spends_ret.
Qed.

Lemma spends_checkFundingRate :
  spends 3 0 3000 (HedgeController.checkFundingRate P config).
Proof.
  unfold HedgeController.checkFundingRate.
  apply spends_try_free; [|intros e; apply spends_ret].
  apply spends_then_free; [apply spends_getMarketData|].
  intros md. apply spends_ret.
Qed.

Lemma spends_result ok a d e : spends 0 0 0 (HedgeController.result ok a d e).
Proof.
  unfold HedgeController.result.
  apply spends_bind_free; [apply spends_dateNow | | lia]. intros t. apply spends_ret.
Qed.

Lemma spends_orderResult a r d u : spends 0 0 0 (HedgeController.orderResult a r d u).
Proof.
  unfold HedgeController.orderResult. destruct (status r); apply spends_result.
Qed.

Lemma spends_executeAction a sz :
  spends 6 3 6000 (HedgeController.executeAction P config a sz).
Proof.
  destruct a; unfold HedgeController.executeAction.
  - apply (spends_bind 3 0 3000 3 3 3000); [apply spends_checkFundingRate | | lia].
    intros b. destruct (negb b).
    + eapply spends_weaken; [apply spends_result | lia | lia | lia].
    + apply spends_then_free; [apply spends_placeOrder|].
      intros r. apply spends_orderResult.
  - eapply spends_weaken with (f := 3%nat) (o := 3%nat) (s := 3000);
      [| lia | lia | lia].
    apply spends_then_free; [apply spends_placeOrder|].
    intros r. apply spends_orderResult.
  - eapply spends_weaken; [apply spends_result | lia | lia | lia].
  - apply spends_then_free; [apply spends_closePosition|].
    intros r. apply spends_orderResult.
Qed.

End Client.

End BudgetFacts.

Section BudgetExtras.

Import Effects HedgeController BudgetFacts.
Local Open Scope Z_scope.

(** X5. One call of [updateHedgePosition] calls [fetch] at most 12 times
    (four requests of at most three attempts each), sends at most 3 of
    these calls as orders, and asks [setTimeout] for at most 12000 ms of
    waiting in total. *)
Theorem rebalance_budget (P : Platform) (config : Config) (lp : LPPosition)
    (w : World) :
  exists evs,
    history (snd (updateHedgePosition P config lp w)) = (history w ++ evs)%list
    /\ (fetchCount evs <= 12)%nat
    /\ (orderCount evs <= 3)%nat
    /\ totalSlept evs <= 12000.
Proof.
  revert w. change (spends 12 3 12000 (updateHedgePosition P config lp)).
  unfold updateHedgePosition.
  apply spends_try_free; [|intros e; apply spends_result].
  unfold updateHedgePositionTry.
  apply (spends_bind 3 0 3000 9 3 9000); [apply spends_getHedgePosition | | lia].
  intros hedge.
  apply (spends_bind 3 0 3000 6 3 6000); [apply spends_getMarketData | | lia].
  intros md. cbv zeta. apply spends_executeAction.
Qed.

End BudgetExtras.

(* ===================================================================== *)
(** ** More on the request loop                                           *)
(* ===================================================================== *)

Module RequestFacts.

Import Effects EffectFacts HyperliquidClient ClientFacts RequestLoop.
Local Open Scope Z_scope.

Section Loop.

Variable P : Platform.
Variable req : Request.
Variable retries : nat.

(** Every call of [fetch] made by the loop carries the request it was
    given. *)
Lemma attemptLoop_resends remaining : forall attempt last w,
  exists evs,
    history (snd (attemptLoop P req retries remaining attempt last w))
      = (history w ++ evs)%list
    /\ Forall (resends req) evs.
Proof.
  induction remaining as [|rem IH]; intros attempt last w.
  - exists []. simpl. rewrite app_nil_r. split; [reflexivity | constructor].
  - destruct (attemptOnce_world P req w) as (t & _ & Hw).
    destruct (attemptOnce P req w) as [[v|e] w1] eqn:E; simpl in Hw; subst w1.
    + rewrite (attemptLoop_success _ _ _ _ _ _ _ _ _ E). simpl.
      exists [Fetched req]. split; [reflexivity|]. repeat constructor.
    + rewrite (attemptLoop_failure _ _ _ _ _ _ _ _ _ E).
      destruct (isNetworkError e && (attempt <? retries)%nat).
      * destruct (IH (S attempt) (Some e) (slept (backoffMs attempt) (fetched req t w)))
          as (evs & H & C).
        exists ([Fetched req; Slept (backoffMs attempt)] ++ evs)%list.
        rewrite H. simpl. rewrite <- !app_assoc. simpl. split; [reflexivity|].
        repeat constructor. exact C.
      * simpl. exists [Fetched req]. split; [reflexivity|]. repeat constructor.
Qed.

(** While iterations remain, what the loop throws was thrown by an
    attempt. *)
Lemma attemptLoop_throws_attempt rem : forall attempt last w e w',
  attemptLoop P req retries (S rem) attempt last w = (Thrown e, w') ->
  (attempt + S rem = S retries)%nat ->
  exists wl, attemptOnce P req wl = (Thrown e, w').
Proof.
  induction rem as [|rem IH]; intros attempt last w e w' H Hn.
  - destruct (attemptOnce P req w) as [[v|e0] w1] eqn:E.
    + rewrite (attemptLoop_success _ _ _ _ _ _ _ _ _ E) in H. discriminate.
    + rewrite (attemptLoop_failure _ _ _ _ _ _ _ _ _ E) in H.
      replace (attempt <? retries)%nat with false in H
        by (symmetry; apply Nat.ltb_ge; lia).
      rewrite andb_false_r in H. injection H as <- <-. exists w. exact E.
  - destruct (attemptOnce P req w) as [[v|e0] w1] eqn:E.
    + rewrite (attemptLoop_success _ _ _ _ _ _ _ _ _ E) in H. discriminate.
    + rewrite (attemptLoop_failure _ _ _ _ _ _ _ _ _ E) in H.
      destruct (isNetworkError e0 && (attempt <? retries)%nat).
      * eapply IH; [exact H | lia].
      * injection H as <- <-. exists w. exact E.
Qed.

End Loop.

End RequestFacts.

Section RequestExtras.

Import Effects HyperliquidClient RequestFacts.
Local Open Scope Z_scope.

Variable P : Platform.
Variable config : Config.

(** X6. All the attempts of one [makeRequest] send the same request: to
    [apiEndpoint + endpoint], with the method asked for.  A [GET] carries
    the content type only and no body; a [POST] with data carries the data,
    the nonce read from the clock when [makeRequest] was called, and the
    signature of nonce and payload, so that a retried order is sent again
    under its first nonce and signature. *)
Theorem request_resent_unchanged (endpoint : string) (mth : Method)
    (data : option RequestData) (retries : nat) (w : World) :
  exists req evs,
    history (snd (makeRequest P config endpoint mth data retries w))
      = (history w ++ evs)%list
    /\ Forall (resends req) evs
    /\ url req = (apiEndpoint config ++ endpoint)%string
    /\ method req = mth
    /\ match mth, data with
       | POST, Some d =>
           body req = Some d
           /\ (evs <> [] ->
               exists signature,
                 hmac_sha256_hex P (signingKey config)
                   (JsString.of_Z (now w) ++ JSON_stringify P d)
                   = Returned signature
                 /\ headers req =
                      [("Content-Type", "application/json");
                       ("X-HL-Signature", signature);
                       ("X-HL-Nonce", JsString.of_Z (now w))])
       | _, _ =>
           headers req = [("Content-Type", "application/json")]
           /\ body req = None
       end.
Proof.
  unfold makeRequest. cbv zeta.
  destruct mth; [|destruct data as [d|]].
  - unfold bind at 1, ret at 1.
    match goal with
    | |- context [attemptLoop P ?r _ _ _ _ w] =>
        destruct (attemptLoop_resends P r retries retries 1%nat None w) as (evs & H & F);
        exists r, evs
    end.
    simpl. destruct data; auto 10.
  - unfold generateNonce, signRequest, tryCatch, bind, dateNow, ret, lift, throw.
    cbv beta iota.
    destruct (hmac_sha256_hex P (signingKey config)
                (JsString.of_Z (now w) ++ JSON_stringify P d)) as [sig|e] eqn:S; cbv beta iota.
    + match goal with
      | |- context [attemptLoop P ?r _ _ _ _ w] =>
          destruct (attemptLoop_resends P r retries retries 1%nat None w) as (evs & H & F);
          exists r, evs
      end.
      simpl. repeat split; auto. intros _. exists sig. split; reflexivity.
    + exists {| url := (apiEndpoint config ++ endpoint)%string; method := POST;
                headers := [("Content-Type", "application/json")];
                body := Some d |}, [].
      simpl. rewrite app_nil_r. repeat split; auto. intros C. contradiction.
  - unfold bind at 1, ret at 1.
    match goal with
    | |- context [attemptLoop P ?r _ _ _ _ w] =>
        destruct (attemptLoop_resends P r retries retries 1%nat None w) as (evs & H & F);
        exists r, evs
    end.
    simpl. auto 10.
Qed.

(** X7. With at least one attempt allowed, whatever the request loop
    throws was thrown by one of its attempts: the "Request failed for
    unknown reason" after the loop is thrown only when [retries] is 0, and
    then no request is sent at all. *)
Theorem loop_error_is_attempt_error (req : Request) (retries : nat)
    (Hretries : (1 <= retries)%nat) (w : World) (e : JsError) (w' : World) :
  attemptLoop P req retries retries 1 None w = (Thrown e, w') ->
  (exists wl, attemptOnce P req wl = (Thrown e, w'))
  /\ attemptLoop P req 0 0 1 None w
     = (Thrown (mkError "Request failed for unknown reason"), w).
Proof.
  intros H. split; [|reflexivity].
  destruct retries as [|n]; [lia|].
  eapply attemptLoop_throws_attempt; [exact H | lia].
Qed.

(** X8. The wait after a failed attempt [k >= 1] is between 1000 and
    10000 ms: it is [1000 * 2^(k-1)] up to the fourth attempt and 10000
    from the fifth on, and never shrinks from one attempt to the next. *)
Theorem backoff_bounds (k : nat) (Hk : (1 <= k)%nat) :
  1000 <= backoffMs k <= 10000
  /\ backoffMs k <= backoffMs (S k)
  /\ ((k <= 4)%nat -> backoffMs k = 1000 * 2 ^ (Z.of_nat k - 1))
  /\ ((5 <= k)%nat -> backoffMs k = 10000).
Proof.
  unfold backoffMs.
  assert (P1 : 1 <= 2 ^ (Z.of_nat k - 1)).
  { change 1 with (2 ^ 0) at 1. apply Z.pow_le_mono_r; lia. }
  assert (P2 : 2 ^ (Z.of_nat k - 1) <= 2 ^ (Z.of_nat (S k) - 1)).
  { apply Z.pow_le_mono_r; lia. }
  split; [lia|]. split; [lia|]. split.
  - intros K.
    assert (2 ^ (Z.of_nat k - 1) <= 2 ^ 3) by (apply Z.pow_le_mono_r; lia).
    change (2 ^ 3) with 8 in *. lia.
  - intros K.
    assert (2 ^ 4 <= 2 ^ (Z.of_nat k - 1)) by (apply Z.pow_le_mono_r; lia).
    change (2 ^ 4) with 16 in *. lia.
Qed.

End RequestExtras.

Section RequestExtrasWitnesses.

Import Effects HyperliquidClient.
Local Open Scope Z_scope.

Lemma loop_error_is_attempt_error_witness :
  (exists wl, attemptOnce Fixtures.offline Fixtures.marketRequest wl
              = (Thrown (mkTypeError "fetch failed"),
                 Scenarios.afterFailedMarket))
  /\ attemptLoop Fixtures.offline Fixtures.marketRequest 0 0 1 None Fixtures.world0
     = (Thrown (mkError "Request failed for unknown reason"), Fixtures.world0).
Proof.
  exact (loop_error_is_attempt_error Fixtures.offline Fixtures.marketRequest 3
           (le_S _ _ (le_S _ _ (le_n 1))) Fixtures.world0 _ _ eq_refl).
Defined.

Lemma backoff_bounds_witness :
  1000 <= backoffMs 3 <= 10000
  /\ backoffMs 3 <= backoffMs 4
  /\ backoffMs 3 = 1000 * 2 ^ (Z.of_nat 3 - 1)
  /\ backoffMs 7 = 10000.
Proof.
  split; [|split; [|split]].
  - exact (proj1 (backoff_bounds 3 ltac:(lia))).
  - exact (proj1 (proj2 (backoff_bounds 3 ltac:(lia)))).
  - exact (proj1 (proj2 (proj2 (backoff_bounds 3 ltac:(lia)))) ltac:(lia)).
  - exact (proj2 (proj2 (proj2 (backoff_bounds 7 ltac:(lia)))) ltac:(lia)).
Defined.

Lemma request_resent_unchanged_witness :
  exists req signature,
    url req = "https://api.hyperliquid.xyz/trade"
    /\ method req = POST
    /\ headers req = [("Content-Type", "application/json");
                      ("X-HL-Signature", signature);
                      ("X-HL-Nonce", "1700000000000")].
Proof.
  destruct (request_resent_unchanged Scenarios.cheapFunding Fixtures.config
              "/trade" POST
              (Some (orderRequestData Scenarios.cheapFunding Fixtures.sellOrder))
              3 Fixtures.world0)
    as (req & evs & H & _ & U & M & _ & S).
  assert (N : evs <> []).
  { intros ->. vm_compute in H. discriminate. }
  destruct (S N) as (signature & _ & Hh).
  exists req, signature. split; [exact U|]. split; [exact M | exact Hh].
Defined.

End RequestExtrasWitnesses.

(* ===================================================================== *)
(** ** Reading and closing positions                                      *)
(* ===================================================================== *)

Module PositionFacts.

Import Effects HyperliquidClient.

(** What holds of every result of [f] holds of the results of [mapM f]. *)
Lemma mapM_Forall {A B} (Q : B -> Prop) (f : A -> M B) :
  (forall x w y w', f x w = (Returned y, w') -> Q y) ->
  forall l w ys w', mapM f l w = (Returned ys, w') -> Forall Q ys.
Proof.
  intros Hf. induction l as [|x l IH]; intros w ys w'; simpl.
  - unfold ret. intros H. injection H as <- _. constructor.
  - unfold bind at 1. destruct (f x w) as [[y|e] w1] eqn:E; [|discriminate].
    unfold bind at 1. destruct (mapM f l w1) as [[ys'|e] w2] eqn:E'; [|discriminate].
    unfold ret. intros H. injection H as <- _.
    constructor; [eapply Hf, E | eapply IH, E'].
Qed.

Lemma parsePosition_side pos w p w' :
  parsePosition pos w = (Returned p, w') -> sideOfSize p.
Proof.
  unfold parsePosition, bind, lift, ret, JsValues.get, sideOfSize.
  destruct pos; cbv beta iota; try discriminate;
    intros H; injection H as <- _; reflexivity.
Qed.

Section Client.

Variable P : Platform.
Variable config : Config.

Lemma getPositions_side w ps w' :
  getPositions P config w = (Returned ps, w') -> Forall sideOfSize ps.
Proof.
  unfold getPositions, tryCatch, bind at 1.
  destruct (makeRequest P config "/user/positions" GET None 3 w)
    as [[response|e] w1]; [|discriminate].
  unfold bind at 1, lift.
  destruct (JsValues.get (Some response) "positions") as [positions|e];
    [|discriminate].
  destruct positions as [[| | | |[|row rows]|]|];
    try (unfold ret; intros H; injection H as <- _; constructor).
  destruct (mapM parsePosition (row :: rows) w1) as [[ys|e] w2] eqn:E;
    [|discriminate].
  intros H. injection H as <- _.
  eapply mapM_Forall; [|exact E]. intros x w0 y w0'. apply parsePosition_side.
Qed.

Lemma getPosition_found c w p w' :
  getPosition P config c w = (Returned (Some p), w') ->
  JsValues.strict_eq_string (coin p) c = true /\ sideOfSize p.
Proof.
  unfold getPosition, tryCatch, bind.
  destruct (getPositions P config w) as [[ps|e] w1] eqn:E; [|discriminate].
  unfold ret. intros H. injection H as F _.
  pose proof (getPositions_side _ _ _ E) as S.
  apply find_some in F. destruct F as [I C]. split; [exact C|].
  rewrite Forall_forall in S. apply S, I.
Qed.

End Client.

End PositionFacts.

Section PositionExtras.

Import Effects HyperliquidClient PositionFacts.
Local Open Scope float_scope.

Variable P : Platform.
Variable config : Config.

(** X9. In every position returned by [getPositions] the side follows the
    sign of the size: [LONG] when the size is above zero and [SHORT]
    otherwise (a size of zero, or one that could not be read, gives
    [SHORT]); and a position returned by [getPosition] is one of the coin
    asked for. *)
Theorem positions_side_follows_size (w : World) :
  (forall ps w',
      getPositions P config w = (Returned ps, w') ->
      Forall (fun p => side p = if JsNumber.gtb (size p) 0 then LONG else SHORT) ps)
  /\ (forall c p w',
         getPosition P config c w = (Returned (Some p), w') ->
         coin p = Some (JStr c)
         /\ side p = if JsNumber.gtb (size p) 0 then LONG else SHORT).
Proof.
  split.
  - intros ps w' H. exact (getPositions_side P config _ _ _ H).
  - intros c p w' H. destruct (getPosition_found P config _ _ _ _ H) as [C S].
    split; [|exact S].
    unfold JsValues.strict_eq_string in C.
    destruct (coin p) as [[]|]; try discriminate.
    apply String.eqb_eq in C. congruence.
Qed.

(** X10. [closePosition] reads the position first, and a failed read is
    thrown on.  Without a position for the coin, or with one of size zero,
    it answers "success" and sends no order.  Otherwise it places one
    reduce-only market order for the absolute size, which sells when the
    size is above zero and buys otherwise. *)
Theorem closePosition_order (c : string) (w : World) :
  let nothingToClose :=
    {| status := success_status; order := None; order_id := None;
       order_error := None |} in
  match getPosition P config c w with
  | (Thrown e, w1) => closePosition P config c w = (Thrown e, w1)
  | (Returned None, w1) =>
      closePosition P config c w = (Returned nothingToClose, w1)
  | (Returned (Some p), w1) =>
      if JsNumber.strict_eq (size p) 0 then
        closePosition P config c w = (Returned nothingToClose, w1)
      else
        closePosition P config c w =
          placeOrder P config
            {| order_coin := c;
               order_side := if JsNumber.gtb (size p) 0 then SELL else BUY;
               order_size := abs (size p);
               order_price := None; orderType := MARKET; reduceOnly := true |}
            w1
  end.
Proof.
  intros nothingToClose. unfold closePosition, bind.
  destruct (getPosition P config c w) as [[[p|]|e] w1] eqn:E; try reflexivity.
  destruct (JsNumber.strict_eq (size p) 0); [reflexivity|].
  destruct (getPosition_found P config _ _ _ _ E) as [_ S].
  cbv zeta. rewrite S. destruct (JsNumber.gtb (size p) 0); reflexivity.
Qed.

End PositionExtras.

Section PositionExtrasWitnesses.

Import Effects HyperliquidClient.
Local Open Scope float_scope.

Lemma positions_side_follows_size_witness :
  Forall (fun p => side p = if JsNumber.gtb (size p) 0 then LONG else SHORT)
    [Scenarios.shortOf100]
  /\ coin Scenarios.shortOf100 = Some (JStr "PENDLE-PERP")
  /\ side Scenarios.shortOf100
     = if JsNumber.gtb (size Scenarios.shortOf100) 0 then LONG else SHORT.
Proof.
  split.
  - exact (proj1 (positions_side_follows_size Scenarios.cheapFundingHedged
                    Fixtures.config Fixtures.world0)
             [Scenarios.shortOf100]
             (fetched (Fixtures.getRequest Fixtures.positionsUrl) 80 Fixtures.world0)
             eq_refl).
  - exact (proj2 (positions_side_follows_size Scenarios.cheapFundingHedged
                    Fixtures.config Fixtures.world0)
             "PENDLE-PERP" Scenarios.shortOf100
             (fetched (Fixtures.getRequest Fixtures.positionsUrl) 80 Fixtures.world0)
             eq_refl).
Defined.

End PositionExtrasWitnesses.

(* ===================================================================== *)
(** ** Reading the market data                                            *)
(* ===================================================================== *)

Module MarketFacts.

Import Effects HyperliquidClient.

Lemma get_property m k :
  isNullRow m = false -> JsValues.get (Some m) k = Returned (property m k).
Proof.
  unfold property. destruct m; try reflexivity. discriminate.
Qed.

(** On rows none of which is [null], [findMarket] is [find]. *)
Lemma findMarket_find c : forall l w,
  forallb (fun m => negb (isNullRow m)) l = true ->
  findMarket l c w = (Returned (List.find (hasCoin c) l), w).
Proof.
  induction l as [|m l IH]; intros w H; cbn [findMarket forallb find] in *;
    [reflexivity|].
  apply andb_prop in H. destruct H as [N H].
  apply Bool.negb_true_iff in N.
  unfold bind, lift. rewrite (get_property m "coin" N).
  unfold hasCoin. destruct (JsValues.strict_eq_string (property m "coin") c).
  - reflexivity.
  - apply IH, H.
Qed.

End MarketFacts.

Section MarketExtras.

Import Effects HyperliquidClient MarketFacts.

Variable P : Platform.
Variable config : Config.

(** X16. When the venue answers the market-data request with a document
    whose [markets] is an array without [null] entries, the client's
    [getMarketData] returns the mark price and funding rate of the first
    entry whose [coin] is the coin asked for, each read by [parseFloat]
    ([NaN] when the field is missing), and throws "Market data not found
    for coin: ..." when there is no such entry. *)
Theorem market_data_first_match (c : string) (w : World) (response : Json)
    (w1 : World) (l : list Json)
    (Hresponse : makeRequest P config "/market/data" GET None 3 w
                 = (Returned response, w1))
    (Hmarkets : JsValues.get (Some response) "markets" = Returned (Some (JArr l)))
    (Hrows : forallb (fun m => negb (isNullRow m)) l = true) :
  match List.find (hasCoin c) l with
  | Some m =>
      getMarketData P config c w =
        (Returned {| md_coin := c;
                     price := JsValues.parseFloatValue (property m "mark");
                     fundingRate := JsValues.parseFloatValue (property m "funding") |},
         w1)
  | None =>
      getMarketData P config c w =
        (Thrown (mkError ("Market data not found for coin: " ++ c)), w1)
  end.
Proof.
  pose proof (findMarket_find c l w1 Hrows) as Hfind.
  destruct (List.find (hasCoin c) l) as [m|] eqn:F.
  - apply find_some in F. destruct F as [I _].
    rewrite forallb_forall in Hrows. specialize (Hrows m I).
    apply Bool.negb_true_iff in Hrows.
    unfold getMarketData, tryCatch, bind. rewrite Hresponse.
    unfold lift at 1. rewrite Hmarkets, Hfind.
    unfold lift, ret. rewrite !(get_property m _ Hrows). reflexivity.
  - unfold getMarketData, tryCatch, bind. rewrite Hresponse.
    unfold lift at 1. rewrite Hmarkets, Hfind. reflexivity.
Qed.

End MarketExtras.

Section MarketExtrasWitnesses.

Import Effects HyperliquidClient.
Local Open Scope float_scope.

Lemma market_data_first_match_witness :
  getMarketData Scenarios.cheapFunding Fixtures.config "PENDLE-PERP" Fixtures.world0
  = (Returned {| md_coin := "PENDLE-PERP"; price := 5.25; fundingRate := 0.001 |},
     fetched Fixtures.marketRequest 120 Fixtures.world0).
Proof.
  exact (market_data_first_match Scenarios.cheapFunding Fixtures.config
           "PENDLE-PERP" Fixtures.world0 (Fixtures.marketsJson "0.001")
           (fetched Fixtures.marketRequest 120 Fixtures.world0) _
           eq_refl eq_refl eq_refl).
Defined.

End MarketExtrasWitnesses.

(* ===================================================================== *)
(** ** More on the executor                                               *)
(* ===================================================================== *)

Section ExecutorExtras.

Import Effects EffectFacts ClientFacts ControllerFacts HedgeController.
Import JsNumber Calculations.
Local Open Scope Z_scope.

Variable P : Platform.
Variable config : Config.

(** The events of the two reads, and of the funding check, are no orders. *)
Lemma reads_notOrder w hedge w1 md w2 :
  getHedgePosition P config w = (Returned hedge, w1) ->
  getMarketData P config w1 = (Returned md, w2) ->
  steps notOrder w w2.
Proof.
  intros Hhedge Hmarket.
  pose proof (keeps_getHedgePosition P config notOrder (fun _ => eq_refl)
                get_notOrder w) as S1.
  pose proof (keeps_marketDataOrFallback P config notOrder (fun _ => eq_refl)
                get_notOrder w1) as S2.
  rewrite Hhedge in S1. rewrite Hmarket in S2. simpl in S1, S2.
  exact (steps_trans _ _ _ _ S1 S2).
Qed.

Lemma check_notOrder w md w' :
  getMarketData P config w = (Returned md, w') -> steps notOrder w w'.
Proof.
  intros H.
  pose proof (keeps_marketDataOrFallback P config notOrder (fun _ => eq_refl)
                get_notOrder w) as S.
  rewrite H in S. exact S.
Qed.

(** X11. A hedge position that cannot be read is taken for no hedge.  When
    the client's [getPosition] throws, the controller's [getHedgePosition]
    returns [null]; for an LP position of nonzero value and positive
    exposure the decision is then to open a short for the whole exposure,
    and with an acceptable funding rate the order is placed, whatever hedge
    is held at the venue. *)
Theorem unread_hedge_opens_full_short (lp : LPPosition) (w : World)
    (e : JsError) (w1 : World) (md : HyperliquidMarketData) (w2 : World)
    (md' : HyperliquidMarketData) (w3 : World)
    (Hread : HyperliquidClient.getPosition P config (ticker config) w
             = (Thrown e, w1))
    (Hmarket : getMarketData P config w1 = (Returned md, w2))
    (Hvalue : strict_eq (totalValueUSD lp) 0 = false)
    (Hexposure : gtb (token0Exposure lp) 0 = true)
    (Hcheck : getMarketData P config w2 = (Returned md', w3))
    (Hfunding : isFundingRateAcceptable (fundingRate md')
                  (fundingTolerance config) = true) :
  getHedgePosition P config w = (Returned None, w1)
  /\ exists r w4,
       HyperliquidClient.openShortPosition P config (ticker config)
         (token0Exposure lp) w3 = (Returned r, w4)
       /\ updateHedgePosition P config lp w =
            orderResult INCREASE_SHORT r
              ("Increased short position by "
                 ++ toFixed (token0Exposure lp) 2 ++ " USD")
              "Unknown error increasing short position" w4.
Proof.
  assert (Hhedge : getHedgePosition P config w = (Returned None, w1)).
  { unfold getHedgePosition, tryCatch. rewrite Hread. reflexivity. }
  split; [exact Hhedge|].
  destruct (returns_placeOrder P config
              {| order_coin := ticker config; order_side := SELL;
                 order_size := token0Exposure lp; order_price := None;
                 orderType := MARKET; reduceOnly := false |} w3) as (r & w4 & E).
  exists r, w4. split; [exact E|].
  rewrite (updateHedgePosition_after_reads P config lp _ _ _ _ _ Hhedge Hmarket).
  unfold determineHedgeAction, calculateRequiredHedgeSize.
  rewrite Hvalue, Hexposure. cbn [andb action sizeChange].
  unfold tryCatch, executeAction, bind.
  rewrite (checkFundingRate_eq _ _ _ _ _ Hcheck), Hfunding.
  change (negb true) with false. cbv beta iota.
  unfold HyperliquidClient.openShortPosition. rewrite E.
  unfold orderResult. destruct (status r); reflexivity.
Qed.

(** X12. A funding rate that cannot be read as a number blocks the
    increase.  When the decision is [INCREASE_SHORT] and the market data of
    the check carries a funding rate that is [NaN] (a missing or malformed
    [funding] field), [checkFundingRate] returns [false], the executor
    returns the "funding rate exceeds tolerance" result, and no order has
    been placed. *)
Theorem unreadable_funding_blocks_increase (lp : LPPosition) (w : World)
    (hedge : option HyperliquidPosition) (w1 : World)
    (md : HyperliquidMarketData) (w2 : World)
    (md' : HyperliquidMarketData) (w3 : World)
    (Hhedge : getHedgePosition P config w = (Returned hedge, w1))
    (Hmarket : getMarketData P config w1 = (Returned md, w2))
    (Hincrease : action (determineHedgeAction lp hedge (rebalanceThreshold config)
                           (price md)) = INCREASE_SHORT)
    (Hcheck : getMarketData P config w2 = (Returned md', w3))
    (Hnan : isNaN (fundingRate md') = true) :
  checkFundingRate P config w2 = (Returned false, w3)
  /\ updateHedgePosition P config lp w = (Returned (fundingSkipped (now w3)), w3)
  /\ forallb notOrder (eventsSince w w3) = true.
Proof.
  assert (C : checkFundingRate P config w2 = (Returned false, w3)).
  { rewrite (checkFundingRate_eq _ _ _ _ _ Hcheck). unfold isFundingRateAcceptable.
    unfold isNaN in Hnan. apply Bool.negb_true_iff in Hnan.
    apply FloatOrder.not_eqb_refl_nan in Hnan. rewrite Hnan, FloatOrder.abs_nan.
    rewrite FloatOrder.leb_nan_l. reflexivity. }
  split; [exact C|]. split.
  - rewrite (updateHedgePosition_after_reads P config lp _ _ _ _ _ Hhedge Hmarket).
    unfold tryCatch. rewrite Hincrease. unfold executeAction, bind.
    rewrite C. reflexivity.
  - exact (proj2 (steps_events _ _ _
                    (steps_trans _ _ _ _ (reads_notOrder _ _ _ _ _ Hhedge Hmarket)
                       (check_notOrder _ _ _ Hcheck)))).
Qed.

(** X13. When the decision is [NO_ACTION], [updateHedgePosition] returns a
    successful result "No rebalance needed." stamped with the time after
    the two reads, and has sent nothing but the reads. *)
Theorem no_action_sends_nothing (lp : LPPosition) (w : World)
    (hedge : option HyperliquidPosition) (w1 : World)
    (md : HyperliquidMarketData) (w2 : World)
    (Hhedge : getHedgePosition P config w = (Returned hedge, w1))
    (Hmarket : getMarketData P config w1 = (Returned md, w2))
    (Hnone : action (determineHedgeAction lp hedge (rebalanceThreshold config)
                       (price md)) = NO_ACTION) :
  updateHedgePosition P config lp w =
    (Returned {| success := true; result_action := NO_ACTION;
                 details := Some "No rebalance needed."; error := None;
                 timestamp := now w2 |}, w2)
  /\ forallb notOrder (eventsSince w w2) = true.
Proof.
  split.
  - rewrite (updateHedgePosition_after_reads P config lp _ _ _ _ _ Hhedge Hmarket).
    unfold tryCatch. rewrite Hnone. reflexivity.
  - exact (proj2 (steps_events _ _ _ (reads_notOrder _ _ _ _ _ Hhedge Hmarket))).
Qed.

End ExecutorExtras.

Section ExecutorExtrasWitnesses.

Import Effects HedgeController.
Import JsNumber Calculations.
Local Open Scope Z_scope.

Lemma unread_hedge_opens_full_short_witness :
  getHedgePosition Scenarios.positionsDown Fixtures.config Fixtures.world0
    = (Returned None, Scenarios.afterFailedPositions)
  /\ exists w3 r w4,
       HyperliquidClient.openShortPosition Scenarios.positionsDown Fixtures.config
         "PENDLE-PERP" 100%float w3 = (Returned r, w4)
       /\ updateHedgePosition Scenarios.positionsDown Fixtures.config
            Fixtures.lpPosition Fixtures.world0
          = orderResult INCREASE_SHORT r
              "Increased short position by 100.00 USD"
              "Unknown error increasing short position" w4.
Proof.
  split.
  - exact (proj1 (unread_hedge_opens_full_short Scenarios.positionsDown
                    Fixtures.config Fixtures.lpPosition Fixtures.world0
                    _ Scenarios.afterFailedPositions _ _ _ _
                    eq_refl eq_refl eq_refl eq_refl eq_refl eq_refl)).
  - eexists.
    exact (proj2 (unread_hedge_opens_full_short Scenarios.positionsDown
                    Fixtures.config Fixtures.lpPosition Fixtures.world0
                    _ Scenarios.afterFailedPositions _ _ _ _
                    eq_refl eq_refl eq_refl eq_refl eq_refl eq_refl)).
Defined.

Lemma unreadable_funding_blocks_increase_witness :
  exists w2 w3,
    checkFundingRate Scenarios.fundingMissing Fixtures.config w2
      = (Returned false, w3)
    /\ updateHedgePosition Scenarios.fundingMissing Fixtures.config
         Fixtures.lpPosition Fixtures.world0
       = (Returned (fundingSkipped (now w3)), w3)
    /\ forallb notOrder (eventsSince Fixtures.world0 w3) = true.
Proof.
  eexists. eexists.
  exact (unreadable_funding_blocks_increase Scenarios.fundingMissing
           Fixtures.config Fixtures.lpPosition Fixtures.world0
           _ _ _ Fixtures.afterReads _ _
           eq_refl eq_refl eq_refl eq_refl eq_refl).
Defined.

Lemma no_action_sends_nothing_witness :
  updateHedgePosition Scenarios.cheapFundingHedged Fixtures.config
    Fixtures.lpPosition Fixtures.world0
  = (Returned {| success := true; result_action := NO_ACTION;
                 details := Some "No rebalance needed."; error := None;
                 timestamp := now Fixtures.afterReads |}, Fixtures.afterReads)
  /\ forallb notOrder (eventsSince Fixtures.world0 Fixtures.afterReads) = true.
Proof.
  exact (no_action_sends_nothing Scenarios.cheapFundingHedged Fixtures.config
           Fixtures.lpPosition Fixtures.world0 _ _ _ Fixtures.afterReads
           eq_refl eq_refl eq_refl).
Defined.

End ExecutorExtrasWitnesses.

(* ===================================================================== *)
(** ** Comparing and masking secrets                                      *)
(* ===================================================================== *)

Module SecureFacts.

Import SecureUtils.
Local Open Scope Z_scope.

Lemma toInt32_small z : 0 <= z < 65536 -> toInt32 z = z.
Proof.
  intros H. unfold toInt32.
  rewrite Z.mod_small; [lia|].
  change (2 ^ 31) with 2147483648. change (2 ^ 32) with 4294967296. lia.
Qed.

Lemma lxor_small a b : 0 <= a < 65536 -> 0 <= b < 65536 -> 0 <= Z.lxor a b < 65536.
Proof.
  intros Ha Hb. split; [apply Z.lxor_nonneg; lia|].
  destruct (Z.eq_dec (Z.lxor a b) 0) as [E|E]; [lia|].
  assert (0 < Z.lxor a b) by (pose proof (proj2 (Z.lxor_nonneg a b)); lia).
  change 65536 with (2 ^ 16). apply Z.log2_lt_pow2; [assumption|].
  eapply Z.le_lt_trans; [apply Z.log2_lxor; lia|].
  apply Z.max_lub_lt.
  - destruct (Z.eq_dec a 0) as [->|]; [reflexivity|].
    apply Z.log2_lt_pow2; [lia|]. change (2 ^ 16) with 65536. lia.
  - destruct (Z.eq_dec b 0) as [->|]; [reflexivity|].
    apply Z.log2_lt_pow2; [lia|]. change (2 ^ 16) with 65536. lia.
Qed.

Lemma lor_small a b : 0 <= a < 65536 -> 0 <= b < 65536 -> 0 <= Z.lor a b < 65536.
Proof.
  intros Ha Hb. split; [apply Z.lor_nonneg; lia|].
  destruct (Z.eq_dec (Z.lor a b) 0) as [E|E]; [lia|].
  assert (0 <= Z.lor a b) by (apply Z.lor_nonneg; lia).
  change 65536 with (2 ^ 16). apply Z.log2_lt_pow2; [lia|].
  rewrite Z.log2_lor by lia.
  apply Z.max_lub_lt.
  - destruct (Z.eq_dec a 0) as [->|]; [reflexivity|].
    apply Z.log2_lt_pow2; [lia|]. change (2 ^ 16) with 65536. lia.
  - destruct (Z.eq_dec b 0) as [->|]; [reflexivity|].
    apply Z.log2_lt_pow2; [lia|]. change (2 ^ 16) with 65536. lia.
Qed.

Lemma bitXor_small a b :
  0 <= a < 65536 -> 0 <= b < 65536 -> bitXor a b = Z.lxor a b.
Proof.
  intros Ha Hb. unfold bitXor. rewrite (toInt32_small a Ha), (toInt32_small b Hb).
  apply toInt32_small, lxor_small; assumption.
Qed.

Lemma bitOr_small a b :
  0 <= a < 65536 -> 0 <= b < 65536 -> bitOr a b = Z.lor a b.
Proof.
  intros Ha Hb. unfold bitOr. rewrite (toInt32_small a Ha), (toInt32_small b Hb).
  apply toInt32_small, lor_small; assumption.
Qed.

Lemma isCodeUnit_range c : isCodeUnit c = true -> 0 <= c < 65536.
Proof. unfold isCodeUnit. lia. Qed.

(** The loop ends on zero exactly when it was entered on zero and the two
    strings agree at every index. *)
Lemma compareLoop_zero a : forall b result,
  wellFormed a = true -> wellFormed b = true ->
  List.length a = List.length b -> 0 <= result < 65536 ->
  (compareLoop result a b = 0 <-> result = 0 /\ a = b).
Proof.
  induction a as [|x a IH]; intros [|y b] result Wa Wb L R; simpl in *;
    try discriminate.
  - intuition.
  - apply andb_prop in Wa. destruct Wa as [Cx Wa].
    apply andb_prop in Wb. destruct Wb as [Cy Wb].
    apply isCodeUnit_range in Cx. apply isCodeUnit_range in Cy.
    rewrite (bitXor_small x y Cx Cy).
    pose proof (lxor_small x y Cx Cy) as X.
    rewrite (bitOr_small _ _ R X).
    rewrite (IH b _ Wa Wb ltac:(lia) (lor_small _ _ R X)).
    rewrite Z.lor_eq_0_iff, Z.lxor_eq_0_iff.
    split.
    + intros [[-> ->] ->]. auto.
    + intros [-> E]. injection E as -> ->. auto.
Qed.

Lemma slice_prefix s v :
  0 <= v <= Z.of_nat (List.length s) -> slice s 0 (Some v) = firstn (Z.to_nat v) s.
Proof.
  intros H. unfold slice, sliceIndex. cbv zeta.
  replace (0 <? 0) with false by reflexivity.
  replace (v <? 0) with false by (symmetry; apply Z.ltb_ge; lia).
  rewrite !Z.min_l by lia.
  rewrite Z.sub_0_r, Z.max_l by lia. reflexivity.
Qed.

Lemma slice_suffix s v :
  0 < v <= Z.of_nat (List.length s) ->
  slice s (- v) None = skipn (List.length s - Z.to_nat v) s.
Proof.
  intros H. unfold slice, sliceIndex. cbv zeta.
  replace (- v <? 0) with true by (symmetry; apply Z.ltb_lt; lia).
  rewrite (Z.max_l (Z.of_nat (List.length s) + - v)) by lia.
  replace (Z.to_nat (Z.of_nat (List.length s) + - v))
    with (List.length s - Z.to_nat v)%nat by lia.
  apply firstn_all2. rewrite length_skipn. lia.
Qed.

Lemma slice_all s : slice s 0 None = s.
Proof.
  unfold slice, sliceIndex. cbv zeta.
  replace (0 <? 0) with false by reflexivity.
  rewrite Z.min_l by lia. rewrite Z.sub_0_r, Z.max_l by lia.
  rewrite Nat2Z.id. apply firstn_all.
Qed.

End SecureFacts.

Section SecureExtras.

Import SecureUtils SecureFacts.
Local Open Scope Z_scope.

(** X14. [secureCompare] answers [true] exactly for equal strings. *)
Theorem secureCompare_iff_equal (a b : CodeUnits)
    (Ha : wellFormed a = true) (Hb : wellFormed b = true) :
  secureCompare a b = true <-> a = b.
Proof.
  unfold secureCompare.
  destruct (Z.of_nat (List.length a) =? Z.of_nat (List.length b)) eqn:L; simpl.
  - apply Z.eqb_eq in L. rewrite Z.eqb_eq.
    rewrite (compareLoop_zero a b 0 Ha Hb ltac:(lia) ltac:(lia)). intuition.
  - apply Z.eqb_neq in L. split; [discriminate|]. intros ->. contradiction.
Qed.

(** X15. For a secret of more than [2 * visibleChars] characters and
    [visibleChars >= 1], [maskSensitiveString] shows the first and the last
    [visibleChars] characters with [max(length - 2 * visibleChars, 6)]
    stars between them, so the result is never shorter than the secret.
    With [visibleChars = 0] the stars are followed by the whole secret,
    [slice(-0)] being [slice(0)]. *)
Theorem mask_shows_ends (s : CodeUnits) (v : Z)
    (Hv : 1 <= v) (Hlen : v * 2 < Z.of_nat (List.length s)) :
  maskSensitiveString s v =
    (firstn (Z.to_nat v) s
       ++ stars (Z.max (Z.of_nat (List.length s) - v * 2) 6)
       ++ skipn (List.length s - Z.to_nat v) s)%list
  /\ Z.of_nat (List.length s) <= Z.of_nat (List.length (maskSensitiveString s v))
  /\ maskSensitiveString s 0
     = (stars (Z.max (Z.of_nat (List.length s)) 6) ++ s)%list.
Proof.
  assert (N : match s with [] => true | _ :: _ => false end = false).
  { destruct s; [simpl in Hlen; lia | reflexivity]. }
  assert (E : maskSensitiveString s v =
    (firstn (Z.to_nat v) s
       ++ stars (Z.max (Z.of_nat (List.length s) - v * 2) 6)
       ++ skipn (List.length s - Z.to_nat v) s)%list).
  { unfold maskSensitiveString. rewrite N.
    replace (Z.of_nat (List.length s) <=? v * 2) with false
      by (symmetry; apply Z.leb_gt; lia).
    cbn [orb]. cbv zeta.
    rewrite slice_prefix, slice_suffix by lia. reflexivity. }
  split; [exact E|]. split.
  - rewrite E, !length_app, length_firstn, length_skipn.
    unfold stars. rewrite repeat_length. lia.
  - unfold maskSensitiveString. rewrite N.
    replace (Z.of_nat (List.length s) <=? 0 * 2) with false
      by (symmetry; apply Z.leb_gt; lia).
    cbn [orb]. cbv zeta. change (- 0) with 0.
    rewrite slice_prefix, slice_all by lia.
    replace (Z.of_nat (List.length s) - 0 * 2) with (Z.of_nat (List.length s)) by lia.
    reflexivity.
Qed.

Lemma secureCompare_iff_equal_witness :
  secureCompare [104; 111; 121; 116] [104; 111; 121; 116] = true
  <-> [104; 111; 121; 116] = [104; 111; 121; 116].
Proof.
  exact (secureCompare_iff_equal [104; 111; 121; 116] [104; 111; 121; 116]
           eq_refl eq_refl).
Defined.

Lemma mask_shows_ends_witness :
  maskSensitiveString [48; 120; 97; 98; 99; 100; 101; 102; 49; 50] 4
  = [48; 120; 97; 98; 42; 42; 42; 42; 42; 42; 101; 102; 49; 50].
Proof.
  exact (proj1 (mask_shows_ends [48; 120; 97; 98; 99; 100; 101; 102; 49; 50] 4
                  ltac:(lia) ltac:(simpl; lia))).
Defined.

End SecureExtras.
